(** * MallocLab: an explicit free-list allocator (mm.c)

    A shallow embedding of [src/mm.c] and the properties of its heap.

    The allocator is written for a 32-bit target: link words of free blocks
    hold pointers in an [unsigned int], and [size_t] is 32 bits wide.  A
    pointer is modelled as a [Z]; every access to memory is checked against
    the extent of the simulated heap and against word alignment, and a
    failed check (undefined behaviour in C) is the error of the monad. *)

From Stdlib Require Import ZArith List Lia Bool String Permutation.
Import ListNotations.
Open Scope Z_scope.

Ltac Zify.zify_post_hook ::= Z.div_mod_to_equations.

(** ** Machine arithmetic *)

Definition word_bits : Z := 32.
Definition modulus : Z := 2 ^ word_bits.

(** Wrap-around of [unsigned int] and [size_t] arithmetic. *)
Definition wrap (x : Z) : Z := x mod modulus.

Definition NULL : Z := 0.

(** ** Constants and macros of mm.c *)

Definition ALIGNMENT : Z := 8.
Definition ALIGN (size : Z) : Z := Z.land (wrap (size + (ALIGNMENT - 1))) (wrap (Z.lnot 7)).
Definition SIZE_T_SIZE : Z := ALIGN 4.
Definition WSIZE : Z := 4.
Definition DSIZE : Z := 8.
Definition CHUNKSIZE : Z := Z.shiftl 1 12.
Definition MINIMUM : Z := 16.
Definition MAX (x y : Z) : Z := if x >? y then x else y.
Definition PACK (size alloc : Z) : Z := Z.lor size alloc.

(** ** The state: simulated memory (memlib) and the globals of mm.c *)

Record state := mkState {
  mem : Z -> Z;            (* the 4-byte word stored at each word address *)
  mem_start_brk : Z;       (* memlib: first byte of the heap *)
  mem_brk : Z;             (* memlib: one past the last byte of the heap *)
  mem_max_addr : Z;        (* memlib: largest legal heap address plus one *)
  heap_listp : Z;
  free_listp : Z;
  epilogue : Z;
  output : list string     (* the lines printed so far *)
}.

Definition upd (m : Z -> Z) (p v : Z) : Z -> Z :=
  fun a => if a =? p then v else m a.

Definition set_mem (st : state) (m : Z -> Z) : state :=
  mkState m (mem_start_brk st) (mem_brk st) (mem_max_addr st)
          (heap_listp st) (free_listp st) (epilogue st) (output st).
Definition set_brk (st : state) (b : Z) : state :=
  mkState (mem st) (mem_start_brk st) b (mem_max_addr st)
          (heap_listp st) (free_listp st) (epilogue st) (output st).
Definition set_heap_listp (st : state) (p : Z) : state :=
  mkState (mem st) (mem_start_brk st) (mem_brk st) (mem_max_addr st)
          p (free_listp st) (epilogue st) (output st).
Definition set_free_listp (st : state) (p : Z) : state :=
  mkState (mem st) (mem_start_brk st) (mem_brk st) (mem_max_addr st)
          (heap_listp st) p (epilogue st) (output st).
Definition set_epilogue (st : state) (p : Z) : state :=
  mkState (mem st) (mem_start_brk st) (mem_brk st) (mem_max_addr st)
          (heap_listp st) (free_listp st) p (output st).
Definition set_output (st : state) (o : list string) : state :=
  mkState (mem st) (mem_start_brk st) (mem_brk st) (mem_max_addr st)
          (heap_listp st) (free_listp st) (epilogue st) o.

(** ** The monad: state passing with failure *)

Definition M (A : Type) : Type := state -> option (A * state).

Definition ret {A} (a : A) : M A := fun st => Some (a, st).
Definition bind {A B} (m : M A) (k : A -> M B) : M B :=
  fun st => match m st with
            | Some (a, st') => k a st'
            | None => None
            end.
Definition fail {A} : M A := fun _ => None.
Definition gets {A} (f : state -> A) : M A := fun st => Some (f st, st).
Definition modify (f : state -> state) : M unit := fun st => Some (tt, f st).

Declare Scope mm_scope.
Delimit Scope mm_scope with mm.
Notation "x <- m ;; k" := (bind m (fun x => k))
  (at level 61, m at next level, right associativity) : mm_scope.
Notation "m ;;; k" := (bind m (fun _ => k))
  (at level 61, right associativity) : mm_scope.
Open Scope mm_scope.

(** A word access is defined when the four bytes lie in the heap and the
    address is word aligned. *)
Definition valid (st : state) (p : Z) : bool :=
  (mem_start_brk st <=? p) && (p + 4 <=? mem_brk st) && (p mod 4 =? 0).

(** [GET(p)] and [PUT(p, val)]: read and write an [unsigned int]. *)
Definition GET (p : Z) : M Z :=
  fun st => if valid st p then Some (mem st p, st) else None.
Definition PUT (p v : Z) : M unit :=
  fun st => if valid st p then Some (tt, set_mem st (upd (mem st) p (wrap v))) else None.

Definition GET_SIZE (p : Z) : M Z := v <- GET p ;; ret (Z.land v (wrap (Z.lnot 7))).
Definition GET_ALLOC (p : Z) : M Z := v <- GET p ;; ret (Z.land v 1).
Definition GET_ALIGN (p : Z) : M Z := v <- GET p ;; ret (Z.land v 7).

Definition HDRP (bp : Z) : Z := bp - WSIZE.
Definition FTRP (bp : Z) : M Z := s <- GET_SIZE (HDRP bp) ;; ret (bp + s - DSIZE).
Definition NEXT_BLKP (bp : Z) : M Z := s <- GET_SIZE (bp - WSIZE) ;; ret (bp + s).
Definition PREV_BLKP (bp : Z) : M Z := s <- GET_SIZE (bp - DSIZE) ;; ret (bp - s).
Definition NEXT_FREE (bp : Z) : M Z := GET (bp + WSIZE).
Definition PREV_FREE (bp : Z) : M Z := GET bp.

(** ** memlib *)

(** Modelled from the spec: [mem_sbrk] of memlib.c is not part of the
    sources.  The page-grant primitive appends [incr] bytes at the tail of
    the heap and returns the old tail address, or refuses, returning
    [(void * )-1], when the capacity of the heap would be exceeded. *)
Definition mem_sbrk (incr : Z) : M Z :=
  fun st =>
    if mem_brk st + incr <=? mem_max_addr st
    then Some (mem_brk st, set_brk st (mem_brk st + incr))
    else Some (wrap (-1), st).

(** Modelled from the spec: [mem_init] of memlib.c is not part of the
    sources.  A fresh, empty heap at address [start] with room for
    [capacity] bytes; [m0] is the content of the memory behind it, and the
    globals of mm.c have their initial values. *)
Definition mem_init (m0 : Z -> Z) (start capacity : Z) : state :=
  mkState m0 start start (start + capacity) NULL NULL 0 [].

(** ** The free list *)

Definition add_freeblock (bp : Z) : M unit :=
  fl <- gets free_listp ;;
  if fl =? NULL then
    modify (fun st => set_free_listp st bp) ;;;
    PUT bp 0 ;;;
    PUT (bp + WSIZE) 0
  else
    PUT fl bp ;;;
    PUT bp 0 ;;;
    fl' <- gets free_listp ;;
    PUT (bp + WSIZE) fl' ;;;
    modify (fun st => set_free_listp st bp).

Definition remove_freeblock (bp : Z) : M unit :=
  p <- PREV_FREE bp ;;
  n <- NEXT_FREE bp ;;
  if (p =? 0) && (n =? 0) then
    modify (fun st => set_free_listp st 0)
  else if (p =? 0) && negb (n =? 0) then
    n1 <- NEXT_FREE bp ;;
    modify (fun st => set_free_listp st n1) ;;;
    n2 <- NEXT_FREE bp ;;
    PUT n2 0
  else if negb (p =? 0) && (n =? 0) then
    p1 <- PREV_FREE bp ;;
    PUT (p1 + WSIZE) 0
  else
    p1 <- PREV_FREE bp ;;
    n1 <- NEXT_FREE bp ;;
    PUT (p1 + WSIZE) n1 ;;;
    n2 <- NEXT_FREE bp ;;
    p2 <- PREV_FREE bp ;;
    PUT n2 p2.

(** ** Coalescing *)

Definition coalesce (bp : Z) : M Z :=
  pb <- PREV_BLKP bp ;;
  prev_alloc <- GET_ALLOC (HDRP pb) ;;
  nb <- NEXT_BLKP bp ;;
  next_alloc <- GET_ALLOC (HDRP nb) ;;
  size <- GET_SIZE (HDRP bp) ;;
  if negb (prev_alloc =? 0) && negb (next_alloc =? 0) then
    add_freeblock bp ;;;
    ret bp
  else if negb (prev_alloc =? 0) && (next_alloc =? 0) then
    nb1 <- NEXT_BLKP bp ;;
    nsz <- GET_SIZE (HDRP nb1) ;;
    let size := wrap (size + nsz) in
    nb2 <- NEXT_BLKP bp ;;
    remove_freeblock nb2 ;;;
    PUT (HDRP bp) (PACK size 0) ;;;
    f <- FTRP bp ;;
    PUT f (PACK size 0) ;;;
    add_freeblock bp ;;;
    ret bp
  else if (prev_alloc =? 0) && negb (next_alloc =? 0) then
    pb1 <- PREV_BLKP bp ;;
    psz <- GET_SIZE (HDRP pb1) ;;
    let size := wrap (size + psz) in
    pb2 <- PREV_BLKP bp ;;
    remove_freeblock pb2 ;;;
    pb3 <- PREV_BLKP bp ;;
    PUT (HDRP pb3) (PACK size 0) ;;;
    f <- FTRP bp ;;
    PUT f (PACK size 0) ;;;
    bp' <- PREV_BLKP bp ;;
    add_freeblock bp' ;;;
    ret bp'
  else
    pb1 <- PREV_BLKP bp ;;
    psz <- GET_SIZE (HDRP pb1) ;;
    nb1 <- NEXT_BLKP bp ;;
    nf <- FTRP nb1 ;;
    nsz <- GET_SIZE nf ;;
    let size := wrap (size + wrap (psz + nsz)) in
    pb2 <- PREV_BLKP bp ;;
    remove_freeblock pb2 ;;;
    nb2 <- NEXT_BLKP bp ;;
    remove_freeblock nb2 ;;;
    pb3 <- PREV_BLKP bp ;;
    PUT (HDRP pb3) (PACK size 0) ;;;
    nb3 <- NEXT_BLKP bp ;;
    nf3 <- FTRP nb3 ;;
    PUT nf3 (PACK size 0) ;;;
    bp' <- PREV_BLKP bp ;;
    add_freeblock bp' ;;;
    ret bp'.

(** ** Growing the heap *)

Definition extend_heap (words : Z) : M Z :=
  let size := if negb (words mod 2 =? 0)
              then wrap (wrap (words + 1) * WSIZE)
              else wrap (words * WSIZE) in
  bp <- mem_sbrk size ;;
  if bp =? wrap (-1) then ret NULL
  else
    PUT (HDRP bp) (PACK size 0) ;;;
    f <- FTRP bp ;;
    PUT f (PACK size 0) ;;;
    nb <- NEXT_BLKP bp ;;
    PUT (HDRP nb) (PACK 0 1) ;;;
    coalesce bp.

(** ** Placement *)

Definition place (bp asize : Z) : M unit :=
  csize <- GET_SIZE (HDRP bp) ;;
  if wrap (csize - asize) >=? MINIMUM then
    remove_freeblock bp ;;;
    PUT (HDRP bp) (PACK asize 1) ;;;
    f <- FTRP bp ;;
    PUT f (PACK asize 1) ;;;
    bp' <- NEXT_BLKP bp ;;
    PUT (HDRP bp') (PACK (wrap (csize - asize)) 0) ;;;
    f' <- FTRP bp' ;;
    PUT f' (PACK (wrap (csize - asize)) 0) ;;;
    add_freeblock bp'
  else
    PUT (HDRP bp) (PACK csize 1) ;;;
    f <- FTRP bp ;;
    PUT f (PACK csize 1) ;;;
    remove_freeblock bp.

(** ** First fit *)

(** The loops of mm.c follow links stored in the heap; the model runs them
    on a budget of iterations and fails when the budget is used up.  A heap
    of [n] bytes holds fewer than [n] blocks. *)
Definition budget (st : state) : nat := Z.to_nat (mem_brk st - mem_start_brk st).

Fixpoint find_fit_loop (fuel : nat) (asize bp : Z) : M Z :=
  match fuel with
  | O => fail
  | S fuel' =>
      if bp =? NULL then ret NULL
      else
        sz <- GET_SIZE (HDRP bp) ;;
        if asize <=? sz then ret bp
        else nx <- NEXT_FREE bp ;; find_fit_loop fuel' asize nx
  end.

Definition find_fit (asize : Z) : M Z :=
  n <- gets budget ;;
  bp <- gets free_listp ;;
  find_fit_loop n asize bp.

(** ** The client interface *)

Definition mm_init : M Z :=
  p <- mem_sbrk (4 * WSIZE) ;;
  modify (fun st => set_heap_listp st p) ;;;
  if p =? wrap (-1) then ret (-1)
  else
    PUT p 0 ;;;
    PUT (p + 1 * WSIZE) (PACK DSIZE 1) ;;;
    PUT (p + 2 * WSIZE) (PACK DSIZE 1) ;;;
    PUT (p + 3 * WSIZE) (PACK 0 1) ;;;
    modify (fun st => set_epilogue st (p + 3 * WSIZE)) ;;;
    modify (fun st => set_heap_listp st (p + 2 * WSIZE)) ;;;
    modify (fun st => set_free_listp st NULL) ;;;
    bp <- extend_heap (CHUNKSIZE / WSIZE) ;;
    if bp =? NULL then ret (-1) else ret 0.

(** The adjusted block size of a request of [size > 0] bytes, in [size_t]
    arithmetic. *)
Definition asize (size : Z) : Z :=
  if size <=? DSIZE then MINIMUM
  else wrap (DSIZE * (wrap (wrap (size + DSIZE) + (DSIZE - 1)) / DSIZE)).

Definition mm_malloc (size : Z) : M Z :=
  if size =? 0 then ret NULL
  else
    let asize := asize size in
    bp <- find_fit asize ;;
    if negb (bp =? NULL) then
      place bp asize ;;;
      ret bp
    else
      let extendsize := MAX asize CHUNKSIZE in
      bp <- extend_heap (extendsize / WSIZE) ;;
      if bp =? NULL then ret NULL
      else
        place bp asize ;;;
        ret bp.

Definition mm_free (ptr : Z) : M unit :=
  hl <- gets heap_listp ;;
  if (ptr =? NULL) || (hl =? NULL) then ret tt
  else
    size <- GET_SIZE (HDRP ptr) ;;
    PUT (HDRP ptr) (PACK size 0) ;;;
    f <- FTRP ptr ;;
    PUT f (PACK size 0) ;;;
    coalesce ptr ;;;
    ret tt.

(** ** Byte access, for the client and for [memcpy] *)

Definition byte_valid (st : state) (a : Z) : bool :=
  (mem_start_brk st <=? a) && (a <? mem_brk st).

(** Bytes are the little-endian digits of the word that holds them. *)
Definition load_byte (a : Z) : M Z :=
  fun st =>
    if byte_valid st a
    then Some ((mem st (a - a mod 4) / 2 ^ (8 * (a mod 4))) mod 256, st)
    else None.

Definition store_byte (a b : Z) : M unit :=
  fun st =>
    if byte_valid st a then
      let w := mem st (a - a mod 4) in
      let k := 8 * (a mod 4) in
      let w' := w - ((w / 2 ^ k) mod 256) * 2 ^ k + (b mod 256) * 2 ^ k in
      Some (tt, set_mem st (upd (mem st) (a - a mod 4) w'))
    else None.

Fixpoint memcpy_loop (n : nat) (dst src : Z) : M unit :=
  match n with
  | O => ret tt
  | S n' =>
      b <- load_byte src ;;
      store_byte dst b ;;;
      memcpy_loop n' (dst + 1) (src + 1)
  end.

Definition memcpy (dst src n : Z) : M unit := memcpy_loop (Z.to_nat n) dst src.

Definition mm_realloc (ptr size : Z) : M Z :=
  let oldptr := ptr in
  newptr <- mm_malloc size ;;
  if newptr =? NULL then ret NULL
  else
    copySize <- GET (oldptr - SIZE_T_SIZE) ;;
    let copySize := if size <? copySize then size else copySize in
    memcpy newptr oldptr copySize ;;;
    mm_free oldptr ;;;
    ret newptr.

(** ** The heap checker *)

Definition printf (line : string) : M unit :=
  modify (fun st => set_output st (output st ++ [line])).

Fixpoint correct_free_marked_loop (fuel : nat) (bp : Z) : M Z :=
  match fuel with
  | O => fail
  | S fuel' =>
      if bp =? NULL then ret 1
      else
        a <- GET_ALLOC (HDRP bp) ;;
        if negb (a =? 0) then
          printf "Error: block in free list but marked allocated" ;;;
          ret 0
        else nx <- NEXT_FREE bp ;; correct_free_marked_loop fuel' nx
  end.

Definition correct_free_marked : M Z :=
  n <- gets budget ;;
  bp <- gets free_listp ;;
  correct_free_marked_loop n bp.

Definition check_coalescing : M Z :=
  bp <- gets heap_listp ;;
  a <- GET_ALLOC bp ;;
  if a =? 0 then
    nb <- NEXT_BLKP bp ;;
    if negb (nb =? NULL) then
      nb' <- NEXT_BLKP bp ;;
      na <- GET_ALLOC (HDRP nb') ;;
      if na =? 0 then
        printf "Error: next block not coalesced" ;;;
        ret 0
      else ret 1
    else ret 1
  else ret 1.

(** The inner loop of [check_freelist]: [true] when [bp] is met on the
    free list, [false] when a block of size 0 is met first. *)
Fixpoint check_freelist_search (fuel : nat) (bp cmp : Z) : M bool :=
  match fuel with
  | O => fail
  | S fuel' =>
      if bp =? cmp then ret true
      else
        sz <- GET_SIZE (HDRP cmp) ;;
        if sz =? 0 then ret false
        else nx <- NEXT_FREE cmp ;; check_freelist_search fuel' bp nx
  end.

Fixpoint check_freelist_loop (fuel : nat) (bp : Z) : M Z :=
  match fuel with
  | O => fail
  | S fuel' =>
      if bp =? NULL then ret 1
      else
        sz <- GET_SIZE (HDRP bp) ;;
        if sz =? 0 then ret 1
        else
          a <- GET_ALLOC (HDRP bp) ;;
          found <- (if a =? 0 then
                      n <- gets budget ;;
                      cmp <- gets free_listp ;;
                      check_freelist_search n bp cmp
                    else ret true) ;;
          if found then nb <- NEXT_BLKP bp ;; check_freelist_loop fuel' nb
          else
            printf "Error: Free block not found in freelist" ;;;
            ret 0
  end.

Definition check_freelist : M Z :=
  n <- gets budget ;;
  bp <- gets heap_listp ;;
  check_freelist_loop n bp.

Fixpoint check_overlap_loop (fuel : nat) (bp : Z) : M Z :=
  match fuel with
  | O => fail
  | S fuel' =>
      if bp =? NULL then ret 1
      else
        sz <- GET_SIZE (HDRP bp) ;;
        if sz =? 0 then ret 1
        else
          a <- GET_ALLOC (HDRP bp) ;;
          bad <- (if negb (a =? 0) then
                    s <- GET_SIZE (HDRP bp) ;;
                    nb <- NEXT_BLKP bp ;;
                    ret (bp + s - WSIZE >=? nb)
                  else ret false) ;;
          if bad then
            printf "Error: Overlapping occured" ;;;
            ret 0
          else nb <- NEXT_BLKP bp ;; check_overlap_loop fuel' nb
  end.

Definition check_overlap : M Z :=
  n <- gets budget ;;
  bp <- gets heap_listp ;;
  check_overlap_loop n bp.

Fixpoint check_valid_heap_loop (fuel : nat) (bp : Z) : M Z :=
  match fuel with
  | O => fail
  | S fuel' =>
      ep <- gets epilogue ;;
      if bp <? ep then
        hl <- gets heap_listp ;;
        first <- NEXT_BLKP hl ;;
        bad <- (if HDRP bp <? HDRP first then ret true
                else al <- GET_ALIGN (HDRP bp) ;; ret (negb (al =? 8))) ;;
        if bad then
          printf "Error: current block does not point to a valid heap address: %p" ;;;
          ret 0
        else nb <- NEXT_BLKP bp ;; check_valid_heap_loop fuel' nb
      else ret 1
  end.

Definition check_valid_heap : M Z :=
  n <- gets budget ;;
  hl <- gets heap_listp ;;
  bp <- NEXT_BLKP hl ;;
  check_valid_heap_loop n bp.

Fixpoint check_consistency_loop (fuel : nat) (free : Z) : M Z :=
  match fuel with
  | O => fail
  | S fuel' =>
      if free =? NULL then ret 1
      else
        ha <- GET_ALLOC (HDRP free) ;;
        bad <- (if negb (ha =? 0) then ret true
                else f <- FTRP free ;; fa <- GET_ALLOC f ;; ret (negb (fa =? 0))) ;;
        if bad then
          printf "Error: header and footer are inconsistent in free list " ;;;
          ret 0
        else nx <- NEXT_FREE free ;; check_consistency_loop fuel' nx
  end.

Definition check_consistency : M Z :=
  n <- gets budget ;;
  free <- gets free_listp ;;
  check_consistency_loop n free.

Definition mm_check : M Z :=
  r1 <- correct_free_marked ;;
  if r1 =? 0 then ret 0 else
  r2 <- check_coalescing ;;
  if r2 =? 0 then ret 0 else
  r3 <- check_freelist ;;
  if r3 =? 0 then ret 0 else
  r4 <- check_overlap ;;
  if r4 =? 0 then ret 0 else
  r5 <- check_valid_heap ;;
  if r5 =? 0 then ret 0 else
  r6 <- check_consistency ;;
  if r6 =? 0 then ret 0 else
  ret 1.


(** * Specification vocabulary *)

(** ** Running the monad *)

(** [wp m st Q]: from [st], [m] runs without error and its result and
    final state satisfy [Q]. *)
Definition wp {A} (m : M A) (st : state) (Q : A -> state -> Prop) : Prop :=
  match m st with
  | Some (a, st') => Q a st'
  | None => False
  end.

(** ** The layout of the heap *)

(** A block of the heap: the address of its header word, its size in bytes
    (header and footer included) and its allocation bit. *)
Record block := Blk { bhdr : Z; bsize : Z; balloc : bool }.

Definition bptr (b : block) : Z := bhdr b + 4.
Definition bftr (b : block) : Z := bhdr b + bsize b - 4.
Definition bend (b : block) : Z := bhdr b + bsize b.
Definition tag (b : block) : Z := bsize b + Z.b2z (balloc b).

(** [chain a bl e]: the blocks [bl] tile the addresses from [a] to [e]. *)
Fixpoint chain (a : Z) (bl : list block) (e : Z) : Prop :=
  match bl with
  | [] => a = e
  | b :: r => bhdr b = a /\ 8 <= bsize b /\ bsize b mod 8 = 0 /\ chain (a + bsize b) r e
  end.

(** Header and footer of [b] hold its size and allocation bit. *)
Definition tagged (m : Z -> Z) (b : block) : Prop :=
  m (bhdr b) = tag b /\ m (bftr b) = tag b.

(** The payload pointers of the free blocks, in address order. *)
Definition frees (bl : list block) : list Z :=
  map bptr (filter (fun b => negb (balloc b)) bl).

(** The payload pointers of the allocated blocks. *)
Definition allocated (bl : list block) : list Z :=
  map bptr (filter balloc bl).

(** [dll m prev p fl]: from [p], the [next] links run through [fl] and end
    in null; the [prev] link of each block is its predecessor, [prev] for the
    first. *)
Fixpoint dll (m : Z -> Z) (prev p : Z) (fl : list Z) : Prop :=
  match fl with
  | [] => p = 0
  | b :: r => p = b /\ m b = prev /\ dll m b (m (b + 4)) r
  end.

Definition prologue (st : state) : block := Blk (mem_start_brk st + 4) 8 true.

(** The block structure of the heap: prologue, blocks [bl], epilogue. *)
Record heap_shape (st : state) (bl : list block) : Prop := {
  shape_start_pos : 0 < mem_start_brk st;
  shape_start_al : mem_start_brk st mod 8 = 0;
  shape_max : mem_brk st <= mem_max_addr st < modulus;
  shape_heap_listp : heap_listp st = mem_start_brk st + 8;
  shape_epilogue : epilogue st = mem_start_brk st + 12;
  shape_chain : chain (mem_start_brk st + 4) (prologue st :: bl) (mem_brk st - 4);
  shape_tags : Forall (tagged (mem st)) (prologue st :: bl);
  shape_epi : mem st (mem_brk st - 4) = 1;
  shape_min : Forall (fun b => 16 <= bsize b) bl
}.

(** The free list threads the free blocks [fl], a permutation of the free
    blocks of [bl]. *)
Definition free_list (st : state) (fl : list Z) : Prop :=
  dll (mem st) 0 (free_listp st) fl.

Definition heap_rep (st : state) (bl : list block) (fl : list Z) : Prop :=
  heap_shape st bl /\ free_list st fl /\ Permutation fl (frees bl).


(** A segment of the free list: from [p] the [next] links run through [fl]
    and leave it at [q]. *)
Fixpoint dllseg (m : Z -> Z) (prev p : Z) (fl : list Z) (q : Z) : Prop :=
  match fl with
  | [] => p = q
  | b :: r => p = b /\ m b = prev /\ dllseg m b (m (b + 4)) r q
  end.

(** The memory after [add_freeblock(bp)] on a list with head [head]. *)
Definition link (m : Z -> Z) (bp head : Z) : Z -> Z :=
  upd (upd (if head =? 0 then m else upd m head bp) bp 0) (bp + 4) head.

(** The memory after [remove_freeblock(bp)]. *)
Definition unlink (m : Z -> Z) (bp : Z) : Z -> Z :=
  let pv := m bp in
  let nx := m (bp + 4) in
  let m1 := if pv =? 0 then m else upd m (pv + 4) nx in
  if nx =? 0 then m1 else upd m1 nx pv.

(** A link of the free list: the payload pointer of a block, 8-byte
    aligned and inside the heap together with its two link words. *)
Definition link_ok (st : state) (p : Z) : Prop :=
  mem_start_brk st <= p /\ p + 8 <= mem_brk st /\ p mod 8 = 0 /\ 0 < p < modulus.

(** [safe L x]: the address [x] is not a link word of a block of [L] (a
    block of at least 16 bytes has two link words after its header). *)
Definition safe (L : list block) (x : Z) : Prop :=
  forall d, In d L -> 16 <= bsize d -> x <> bptr d /\ x <> bptr d + 4.

(** [links_in L fl]: the pointers [fl] are payload pointers of blocks of
    [L] of at least 16 bytes. *)
Definition links_in (L : list block) (fl : list Z) : Prop :=
  forall q, In q fl -> exists d, In d L /\ 16 <= bsize d /\ q = bptr d.

(** The state in which [coalesce] is called on block [b]: [b] is marked
    free in its header and footer but is not on the free list; the rest of
    the heap is well formed. *)
Definition coalesce_pre (st : state) (l1 : list block) (b : block) (l2 : list block)
    (fl : list Z) : Prop :=
  heap_shape st (l1 ++ b :: l2) /\ balloc b = false /\
  free_list st fl /\ Permutation fl (frees (l1 ++ l2)).

(** The allocation bit that [coalesce] reads after a block followed by
    [l2]: the epilogue when [l2] is empty. *)
Definition next_alloc (l2 : list block) : bool :=
  match l2 with
  | [] => true
  | nb :: _ => balloc nb
  end.

(** The allocation bit that [coalesce] reads before a block preceded by
    [l1]: the prologue when [l1] is empty. *)
Definition prev_alloc (st : state) (l1 : list block) : bool :=
  balloc (last l1 (prologue st)).

(** Two states with the same extent of the heap and the same globals
    other than the head of the free list. *)
Definition same_geo (st st' : state) : Prop :=
  mem_start_brk st' = mem_start_brk st /\ mem_brk st' = mem_brk st /\
  mem_max_addr st' = mem_max_addr st /\ heap_listp st' = heap_listp st /\
  epilogue st' = epilogue st.

(** The size field that [find_fit] reads for the block at [q]. *)
Definition fit_size (st : state) (q : Z) : Z :=
  Z.land (mem st (HDRP q)) (wrap (Z.lnot 7)).

(** The first block of the list [fl] that holds [asz] bytes, null if there
    is none. *)
Definition first_fit (st : state) (asz : Z) (fl : list Z) : Z :=
  match find (fun q => asz <=? fit_size st q) fl with
  | Some q => q
  | None => NULL
  end.

(** The state memlib hands over before [mm_init]: an empty heap at a
    positive, 8-byte aligned address whose addresses fit in 32 bits. *)
Definition fresh_heap (st : state) : Prop :=
  0 < mem_start_brk st /\ mem_start_brk st mod 8 = 0 /\
  mem_brk st = mem_start_brk st /\ mem_max_addr st < modulus.

(** The states a client reaches from a successful [mm_init] by calls of
    [mm_malloc] with sizes from 1 to [limit] and of [mm_free] on pointers
    that [mm_malloc] returned and that are still live; [live] lists them. *)
Inductive reachable (limit : Z) : state -> list Z -> Prop :=
| reach_init st0 st :
    fresh_heap st0 -> mm_init st0 = Some (0, st) -> reachable limit st []
| reach_malloc st live size p st' :
    reachable limit st live -> 0 < size <= limit ->
    mm_malloc size st = Some (p, st') ->
    reachable limit st' (if p =? NULL then live else p :: live)
| reach_free st live p st' :
    reachable limit st live -> In p live ->
    mm_free p st = Some (tt, st') ->
    reachable limit st' (remove Z.eq_dec p live).

(** The largest value of [size_t]. *)
Definition SIZE_MAX : Z := modulus - 1.

(** * Clients and scenarios *)

(** A call of the client: [Free n] releases the [n]-th live pointer. *)
Inductive call : Type :=
| Malloc (size : Z)
| Free (n : nat).

(** Runs the calls [cs]; [live] lists the pointers returned by [mm_malloc]
    and not yet freed, the latest first.  A request outside of [1..limit]
    or a release of a pointer that is not live is refused. *)
Fixpoint run_calls (limit : Z) (cs : list call) (live : list Z) : M (list Z) :=
  match cs with
  | [] => ret live
  | Malloc size :: cs' =>
      if (0 <? size) && (size <=? limit) then
        p <- mm_malloc size ;;
        run_calls limit cs' (if p =? NULL then live else p :: live)
      else fail
  | Free n :: cs' =>
      match nth_error live n with
      | Some p => mm_free p ;;; run_calls limit cs' (remove Z.eq_dec p live)
      | None => fail
      end
  end.

(** What [mm_check] returns after a successful [mm_init] and the calls
    [cs]. *)
Definition verdict (limit : Z) (cs : list call) : M Z :=
  r <- mm_init ;;
  if r =? 0 then run_calls limit cs [] ;;; mm_check else fail.

(** A concrete heap of memlib: 20 MiB at address 0x10000, memory zeroed. *)
Definition heap0 : state := mem_init (fun _ => 0) 65536 (20 * 2 ^ 20).

(** [heap0] after [mm_init]. *)
Definition heap1 : state :=
  match mm_init heap0 with
  | Some (_, st) => st
  | None => heap0
  end.

(** The client writes and reads its payload byte by byte. *)
Fixpoint store_bytes (p : Z) (bs : list Z) : M unit :=
  match bs with
  | [] => ret tt
  | b :: r => store_byte p b ;;; store_bytes (p + 1) r
  end.

Fixpoint load_bytes (p : Z) (n : nat) : M (list Z) :=
  match n with
  | O => ret []
  | S k => b <- load_byte p ;; r <- load_bytes (p + 1) k ;; ret (b :: r)
  end.

(** Scenario "realloc copy": [p = alloc(10)], the bytes [data] written at
    [p], [q = realloc(p, 100)]; the result is the bytes found at [q]. *)
Definition realloc_copy (data : list Z) : M (list Z) :=
  mm_init ;;;
  p <- mm_malloc 10 ;;
  store_bytes p data ;;;
  q <- mm_realloc p 100 ;;
  load_bytes q (List.length data).

(** [realloc(p, 0)] on a live pointer: the value returned and the
    allocation bit of the block of [p] afterwards. *)
Definition realloc_zero : M (Z * Z) :=
  mm_init ;;;
  p <- mm_malloc 16 ;;
  r <- mm_realloc p 0 ;;
  a <- GET_ALLOC (HDRP p) ;;
  ret (r, a).

(** Scenario "first fit selects head": the pointers [a], [b], [c], the head
    of the free list after [free(b)] and the pointer of the next
    [alloc(16)]. *)
Definition first_fit_head_scenario : M (Z * Z * Z * Z * Z) :=
  a <- mm_malloc 16 ;;
  b <- mm_malloc 16 ;;
  c <- mm_malloc 16 ;;
  mm_free b ;;;
  h <- gets free_listp ;;
  d <- mm_malloc 16 ;;
  ret (a, b, c, h, d).

(** A request of [SIZE_MAX] bytes on a fresh heap: the pointer returned
    and the size of its block. *)
Definition wrapped_request : M (Z * Z) :=
  mm_init ;;;
  p <- mm_malloc SIZE_MAX ;;
  sz <- GET_SIZE (HDRP p) ;;
  ret (p, sz).

(** The sizes and allocation bits of the blocks from [bp] to the
    epilogue. *)
Fixpoint heap_walk (fuel : nat) (bp : Z) : M (list (Z * Z)) :=
  match fuel with
  | O => fail
  | S fuel' =>
      sz <- GET_SIZE (HDRP bp) ;;
      if sz =? 0 then ret []
      else
        a <- GET_ALLOC (HDRP bp) ;;
        r <- heap_walk fuel' (bp + sz) ;;
        ret ((sz, a) :: r)
  end.

Fixpoint adjacent_free (l : list (Z * Z)) : bool :=
  match l with
  | (_, a1) :: r =>
      match r with
      | (_, a2) :: _ => ((a1 =? 0) && (a2 =? 0)) || adjacent_free r
      | [] => false
      end
  | [] => false
  end.

(** Audit A2 as the specification words it: walk the heap forward and fail
    if two adjacent blocks both have allocation bit 0. *)
Definition spec_check_coalescing : M Z :=
  n <- gets budget ;;
  hl <- gets heap_listp ;;
  first <- NEXT_BLKP hl ;;
  l <- heap_walk n first ;;
  ret (if adjacent_free l then 0 else 1).

(** A heap with a block that escaped coalescing: after [p = alloc(16)] the
    header and the footer of [p] are marked free, as [mm_free] does before it
    calls [coalesce].  The result is what [check_coalescing] returns and what
    audit A2 asks for. *)
Definition uncoalesced_heap : M (Z * Z) :=
  mm_init ;;;
  p <- mm_malloc 16 ;;
  sz <- GET_SIZE (HDRP p) ;;
  PUT (HDRP p) (PACK sz 0) ;;;
  f <- FTRP p ;;
  PUT f (PACK sz 0) ;;;
  c <- check_coalescing ;;
  s <- spec_check_coalescing ;;
  ret (c, s).

(** Integer division rounding up. *)
Definition ceil_div (a b : Z) : Z := (a + b - 1) / b.

(** The adjusted size as the specification words it, in unbounded
    arithmetic. *)
Definition spec_asize (s : Z) : Z :=
  if s <=? 8 then 16 else 8 * ceil_div (s + 8) 8.

(** A concrete heap in the state in which [extend_heap] calls [coalesce]:
    prologue, one block of 32 bytes marked free but not on the free list,
    epilogue. *)
Definition heapw : state :=
  mkState (upd (upd (upd (upd (upd (fun _ => 0) 65540 9) 65544 9) 65548 32) 65576 32) 65580 1)
          65536 65584 (65536 + 20 * 2 ^ 20) 65544 NULL 65548 [].

Definition blockw : block := Blk 65548 32 false.

(** * Properties *)

(** ** Words, sizes and allocation bits *)

Lemma modulus_eq : modulus = 4294967296.
Proof. reflexivity. Qed.

Lemma wrap_small (x : Z) : 0 <= x < modulus -> wrap x = x.
Proof. intros H. unfold wrap. apply Z.mod_small. exact H. Qed.

Lemma wrap_range (x : Z) : 0 <= wrap x < modulus.
Proof. unfold wrap. apply Z.mod_pos_bound. reflexivity. Qed.

Lemma size_mask_eq : wrap (Z.lnot 7) = Z.shiftl (Z.ones 29) 3.
Proof. reflexivity. Qed.

(** [v & ~0x7] clears the three low bits of a word. *)
Lemma land_size_mask (v : Z) :
  0 <= v < modulus -> Z.land v (wrap (Z.lnot 7)) = v - v mod 8.
Proof.
  intros Hv. rewrite size_mask_eq.
  assert (Hs : Z.land v (Z.shiftl (Z.ones 29) 3) = Z.shiftl (Z.shiftr v 3) 3).
  { apply Z.bits_inj'. intros n Hn.
    rewrite Z.land_spec.
    destruct (Z.ltb_spec n 3) as [Hlt | Hge].
    - rewrite !Z.shiftl_spec_low by lia. apply andb_false_r.
    - rewrite !Z.shiftl_spec by lia.
      rewrite Z.shiftr_spec by lia.
      replace (n - 3 + 3) with n by lia.
      destruct (Z.ltb_spec (n - 3) 29) as [Hin | Hout].
      + rewrite Z.ones_spec_low by lia. apply andb_true_r.
      + rewrite Z.ones_spec_high by lia. rewrite andb_false_r.
        symmetry. destruct (Z.eq_dec v 0) as [-> | Hnz].
        * apply Z.bits_0.
        * apply Z.bits_above_log2; [lia |].
          assert (Z.log2 v < 32) by (apply Z.log2_lt_pow2; [lia | exact (proj2 Hv)]).
          lia. }
  rewrite Hs, Z.shiftr_div_pow2, Z.shiftl_mul_pow2 by lia.
  change (2 ^ 3) with 8. lia.
Qed.

Lemma land_one (v : Z) : Z.land v 1 = v mod 2.
Proof. change 1 with (Z.ones 1). rewrite Z.land_ones by lia. reflexivity. Qed.

Lemma land_seven (v : Z) : Z.land v 7 = v mod 8.
Proof. change 7 with (Z.ones 3). rewrite Z.land_ones by lia. reflexivity. Qed.

(** Packing a multiple of 8 with an allocation bit is an addition. *)
Lemma PACK_add (size : Z) (a : bool) :
  size mod 8 = 0 -> PACK size (Z.b2z a) = size + Z.b2z a.
Proof.
  intros Hs. unfold PACK.
  assert (Hd : Z.land size (Z.b2z a) = 0).
  { destruct a; simpl.
    - rewrite land_one. lia.
    - apply Z.land_0_r. }
  rewrite <- (Z.lxor_lor _ _ Hd). symmetry. apply Z.add_nocarry_lxor. exact Hd.
Qed.

(** ** Rules for running the monad *)

Lemma wp_run {A} (m : M A) st Q :
  wp m st Q -> exists a st', m st = Some (a, st') /\ Q a st'.
Proof.
  unfold wp. destruct (m st) as [[a st'] |]; [| contradiction].
  intros H. exists a, st'. split; [reflexivity | exact H].
Qed.

Lemma wp_intro {A} (m : M A) st a st' (Q : A -> state -> Prop) :
  m st = Some (a, st') -> Q a st' -> wp m st Q.
Proof. intros E H. unfold wp. rewrite E. exact H. Qed.

Lemma wp_mono {A} (m : M A) st (P Q : A -> state -> Prop) :
  wp m st P -> (forall a st', P a st' -> Q a st') -> wp m st Q.
Proof.
  unfold wp. destruct (m st) as [[a st'] |]; [| contradiction].
  intros H HPQ. apply HPQ. exact H.
Qed.

Lemma wp_bind {A B} (m : M A) (k : A -> M B) st Q :
  wp m st (fun a st' => wp (k a) st' Q) -> wp (bind m k) st Q.
Proof.
  unfold wp, bind. destruct (m st) as [[a st'] |]; [| contradiction].
  intros H. exact H.
Qed.

Lemma wp_ret {A} (a : A) st (Q : A -> state -> Prop) : Q a st -> wp (ret a) st Q.
Proof. intros H. exact H. Qed.

Lemma wp_gets {A} (f : state -> A) st (Q : A -> state -> Prop) :
  Q (f st) st -> wp (gets f) st Q.
Proof. intros H. exact H. Qed.

Lemma wp_modify (f : state -> state) st (Q : unit -> state -> Prop) :
  Q tt (f st) -> wp (modify f) st Q.
Proof. intros H. exact H. Qed.

Lemma valid_intro st p :
  mem_start_brk st <= p -> p + 4 <= mem_brk st -> p mod 4 = 0 -> valid st p = true.
Proof.
  intros H1 H2 H3. unfold valid.
  rewrite (proj2 (Z.leb_le _ _) H1), (proj2 (Z.leb_le _ _) H2), (proj2 (Z.eqb_eq _ _) H3).
  reflexivity.
Qed.

Lemma wp_GET p st (Q : Z -> state -> Prop) :
  valid st p = true -> Q (mem st p) st -> wp (GET p) st Q.
Proof. intros Hv H. unfold wp, GET. rewrite Hv. exact H. Qed.

Lemma wp_PUT p v st (Q : unit -> state -> Prop) :
  valid st p = true -> Q tt (set_mem st (upd (mem st) p (wrap v))) -> wp (PUT p v) st Q.
Proof. intros Hv H. unfold wp, PUT. rewrite Hv. exact H. Qed.

Lemma upd_same m p v : upd m p v p = v.
Proof. unfold upd. rewrite Z.eqb_refl. reflexivity. Qed.

Lemma upd_other m p v a : a <> p -> upd m p v a = m a.
Proof. intros H. unfold upd. rewrite (proj2 (Z.eqb_neq _ _) H). reflexivity. Qed.

Lemma upd_eq m m' p p' v v' :
  m = m' -> p = p' -> v = v' -> upd m p v = upd m' p' v'.
Proof. intros -> -> ->. reflexivity. Qed.

Ltac st_simpl :=
  cbn [mem mem_start_brk mem_brk mem_max_addr heap_listp free_listp epilogue output
       set_mem set_brk set_heap_listp set_free_listp set_epilogue set_output] in *.

(** *** Chains *)

Lemma chain_app a l1 l2 e :
  chain a (l1 ++ l2) e <-> exists c, chain a l1 c /\ chain c l2 e.
Proof.
  revert a. induction l1 as [| b l1 IH]; intros a; simpl.
  - split.
    + intros H. exists a. split; [reflexivity | exact H].
    + intros (c & -> & H). exact H.
  - split.
    + intros (Hh & Hs & Hm & Hc). apply IH in Hc. destruct Hc as (c & H1 & H2).
      exists c. repeat split; assumption.
    + intros (c & (Hh & Hs & Hm & H1) & H2). repeat split; try assumption.
      apply IH. exists c. split; assumption.
Qed.

Lemma chain_le a bl e : chain a bl e -> a <= e.
Proof.
  revert a. induction bl as [| b r IH]; intros a; simpl.
  - intros ->. lia.
  - intros (_ & Hs & _ & Hc). apply IH in Hc. lia.
Qed.

Lemma chain_aligned a bl e : chain a bl e -> (e - a) mod 8 = 0.
Proof.
  revert a. induction bl as [| b r IH]; intros a; simpl.
  - intros ->. replace (e - e) with 0 by lia. reflexivity.
  - intros (_ & Hs & Hm & Hc). apply IH in Hc. lia.
Qed.

Lemma chain_fun a bl e e' : chain a bl e -> chain a bl e' -> e = e'.
Proof.
  revert a. induction bl as [| b r IH]; intros a; simpl.
  - intros -> ->. reflexivity.
  - intros (_ & _ & _ & H1) (_ & _ & _ & H2). exact (IH _ H1 H2).
Qed.

(** Every block of a chain lies inside it, at a multiple of 8 from its
    start. *)
Lemma chain_In a bl e b :
  chain a bl e -> In b bl ->
  a <= bhdr b /\ bend b <= e /\ (bhdr b - a) mod 8 = 0 /\ 8 <= bsize b /\ bsize b mod 8 = 0.
Proof.
  revert a. induction bl as [| c r IH]; intros a; simpl; [intros _ [] |].
  intros (Hh & Hs & Hm & Hc) [-> | Hin].
  - pose proof (chain_le _ _ _ Hc). unfold bend. lia.
  - destruct (IH _ Hc Hin) as (H1 & H2 & H3 & H4 & H5). lia.
Qed.

(** The blocks around an element of a chain. *)
Lemma chain_split a l1 b l2 e :
  chain a (l1 ++ b :: l2) e ->
  chain a l1 (bhdr b) /\ 8 <= bsize b /\ bsize b mod 8 = 0 /\ chain (bend b) l2 e.
Proof.
  intros H. apply chain_app in H. destruct H as (c & H1 & (Hh & Hs & Hm & H2)).
  subst c. unfold bend. repeat split; assumption.
Qed.

Lemma chain_join a l1 b l2 e :
  chain a l1 (bhdr b) -> 8 <= bsize b -> bsize b mod 8 = 0 -> chain (bend b) l2 e ->
  chain a (l1 ++ b :: l2) e.
Proof.
  intros H1 Hs Hm H2. apply chain_app. exists (bhdr b). split; [exact H1 |].
  simpl. repeat split; assumption.
Qed.

(** ** Doubly linked lists in memory *)

Lemma dll_dllseg m prev p fl : dll m prev p fl <-> dllseg m prev p fl 0.
Proof.
  revert prev p. induction fl as [| b r IH]; intros prev p; simpl; [tauto |].
  rewrite IH. tauto.
Qed.

Lemma last_cons (b : Z) (r : list Z) (d : Z) : last (b :: r) d = last r b.
Proof.
  revert b d. induction r as [| c r IH]; intros b d; [reflexivity |].
  change (last (b :: c :: r) d) with (last (c :: r) d).
  rewrite (IH c d), (IH c b). reflexivity.
Qed.

Lemma dllseg_app m prev p f1 f2 q :
  dllseg m prev p (f1 ++ f2) q <->
  exists c, dllseg m prev p f1 c /\ dllseg m (last f1 prev) c f2 q.
Proof.
  revert prev p. induction f1 as [| b r IH]; intros prev p.
  - simpl. split.
    + intros H. exists p. split; [reflexivity | exact H].
    + intros (c & -> & H). exact H.
  - change ((b :: r) ++ f2) with (b :: (r ++ f2)).
    rewrite last_cons. simpl. split.
    + intros (Hp & Hm & H). apply IH in H. destruct H as (c & H1 & H2).
      exists c. repeat split; assumption.
    + intros (c & (Hp & Hm & H1) & H2). repeat split; try assumption.
      apply IH. exists c. split; assumption.
Qed.

Lemma dll_head m prev p fl : dll m prev p fl -> p = hd 0 fl.
Proof. destruct fl; simpl; [tauto | intros (H & _); exact H]. Qed.

(** A list depends on the link words of its blocks only. *)
Lemma dllseg_frame m m' prev p fl q :
  dllseg m prev p fl q ->
  (forall b, In b fl -> m' b = m b /\ m' (b + 4) = m (b + 4)) ->
  dllseg m' prev p fl q.
Proof.
  revert prev p. induction fl as [| b r IH]; intros prev p; simpl; [tauto |].
  intros (Hp & Hm & H) Hf.
  destruct (Hf b (or_introl eq_refl)) as (E1 & E2).
  rewrite E1, E2. repeat split; try assumption.
  apply IH; [exact H |]. intros c Hc. apply Hf. right. exact Hc.
Qed.

Lemma dll_frame m m' prev p fl :
  dll m prev p fl ->
  (forall b, In b fl -> m' b = m b /\ m' (b + 4) = m (b + 4)) ->
  dll m' prev p fl.
Proof. rewrite !dll_dllseg. apply dllseg_frame. Qed.

Lemma last_In_or (l : list Z) (d : Z) : last l d = d /\ l = [] \/ In (last l d) l.
Proof.
  induction l as [| a l IH]; [left; split; reflexivity |].
  right. destruct l as [| b l]; [left; reflexivity |].
  change (last (a :: b :: l) d) with (last (b :: l) d).
  destruct IH as [(_ & E) | H]; [discriminate | right; exact H].
Qed.

(** Redirecting the [next] link of the last block of a segment. *)
Lemma dllseg_redirect m m' prev p fl q q' :
  dllseg m prev p fl q -> fl <> [] -> NoDup fl ->
  (forall b, In b fl -> m' b = m b) ->
  (forall b, In b fl -> b <> last fl prev -> m' (b + 4) = m (b + 4)) ->
  m' (last fl prev + 4) = q' ->
  dllseg m' prev p fl q'.
Proof.
  revert prev p. induction fl as [| b r IH]; intros prev p; [intros _ H; contradiction H; reflexivity |].
  intros (Hp & Hm & H) _ Hnd Hprev Hnext Hlast.
  apply NoDup_cons_iff in Hnd. destruct Hnd as (Hnotin & Hnd').
  simpl. split; [exact Hp |]. split; [rewrite <- Hm; apply Hprev; left; reflexivity |].
  destruct r as [| c r].
  - simpl in *. rewrite Hlast. reflexivity.
  - change (last (b :: c :: r) prev) with (last (c :: r) prev) in *.
    assert (Hlb : In (last (c :: r) prev) (c :: r)).
    { destruct (last_In_or (c :: r) prev) as [(_ & E) | Hl]; [discriminate | exact Hl]. }
    assert (Hle : last (c :: r) prev = last (c :: r) b).
    { rewrite !last_cons. reflexivity. }
    rewrite (Hnext b (or_introl eq_refl)).
    + apply IH.
      * exact H.
      * discriminate.
      * exact Hnd'.
      * intros d Hd. apply Hprev. right. exact Hd.
      * intros d Hd Hne. apply Hnext; [right; exact Hd |]. rewrite Hle. exact Hne.
      * rewrite <- Hle. exact Hlast.
    + intros ->. apply Hnotin. exact Hlb.
Qed.

(** *** Pushing a block on the list *)

Lemma link_same_prev m bp head : (link m bp head) bp = 0.
Proof. unfold link. rewrite upd_other by lia. apply upd_same. Qed.

Lemma link_same_next m bp head : (link m bp head) (bp + 4) = head.
Proof. unfold link. apply upd_same. Qed.

Lemma link_head m bp head : head <> 0 -> head <> bp -> head <> bp + 4 -> (link m bp head) head = bp.
Proof.
  intros H0 H1 H2. unfold link. rewrite !upd_other by lia.
  rewrite (proj2 (Z.eqb_neq _ _) H0). apply upd_same.
Qed.

Lemma link_other m bp head x :
  x <> bp -> x <> bp + 4 -> x <> head -> (link m bp head) x = m x.
Proof.
  intros H1 H2 H3. unfold link. rewrite !upd_other by lia.
  destruct (head =? 0); [reflexivity | apply upd_other; exact H3].
Qed.

Lemma dll_link m p fl bp :
  dll m 0 p fl -> ~ In bp fl -> NoDup fl ->
  Forall (fun b => b mod 8 = 0 /\ b <> 0) fl -> bp mod 8 = 0 ->
  dll (link m bp p) 0 bp (bp :: fl).
Proof.
  intros Hd Hnotin Hnd Hal Hbp. simpl. split; [reflexivity |].
  split; [apply link_same_prev |]. rewrite link_same_next.
  destruct fl as [| c r]; simpl in *; [exact Hd |].
  destruct Hd as (-> & Hc & Hd).
  apply NoDup_cons_iff in Hnd. destruct Hnd as (Hcr & Hnd').
  apply Forall_cons_iff in Hal. destruct Hal as ((Hc8 & Hc0) & Hal').
  split; [reflexivity |]. split.
  - apply link_head; lia.
  - rewrite link_other by lia.
    apply dll_frame with (m := m); [exact Hd |].
    intros b Hb. rewrite Forall_forall in Hal'. destruct (Hal' b Hb) as (Hb8 & Hb0).
    assert (b <> c) by (intros ->; contradiction).
    assert (b <> bp) by (intros ->; tauto).
    split; apply link_other; lia.
Qed.

(** *** Removing a block from the list *)

Lemma unlink_other m bp x :
  (m bp <> 0 -> x <> m bp + 4) -> (m (bp + 4) <> 0 -> x <> m (bp + 4)) ->
  (unlink m bp) x = m x.
Proof.
  intros H1 H2. unfold unlink.
  destruct (Z.eqb_spec (m (bp + 4)) 0) as [En | En];
    destruct (Z.eqb_spec (m bp) 0) as [Ep | Ep];
    rewrite ?upd_other by auto; reflexivity.
Qed.

Lemma unlink_prev_next m bp :
  m bp <> 0 -> m (bp + 4) <> m bp + 4 -> (unlink m bp) (m bp + 4) = m (bp + 4).
Proof.
  intros Hp Hne. unfold unlink.
  rewrite (proj2 (Z.eqb_neq _ _) Hp).
  destruct (Z.eqb_spec (m (bp + 4)) 0) as [En | En].
  - apply upd_same.
  - rewrite upd_other by lia. apply upd_same.
Qed.

Lemma unlink_next_prev m bp :
  m (bp + 4) <> 0 -> (unlink m bp) (m (bp + 4)) = m bp.
Proof.
  intros Hn. unfold unlink.
  rewrite (proj2 (Z.eqb_neq _ _) Hn). apply upd_same.
Qed.

(** The links of a block inside a list. *)
Lemma dll_middle m prev p f1 b f2 :
  dll m prev p (f1 ++ b :: f2) -> m b = last f1 prev /\ m (b + 4) = hd 0 f2.
Proof.
  rewrite dll_dllseg, dllseg_app. intros (c & _ & H). simpl in H.
  destruct H as (_ & Hm & H). split; [exact Hm |].
  destruct f2; simpl in H; [exact H | tauto].
Qed.

Lemma dll_unlink m p f1 b f2 :
  dll m 0 p (f1 ++ b :: f2) -> NoDup (f1 ++ b :: f2) ->
  Forall (fun c => c mod 8 = 0 /\ c <> 0) (f1 ++ b :: f2) ->
  dll (unlink m b) 0 (if m b =? 0 then m (b + 4) else p) (f1 ++ f2).
Proof.
  intros Hd Hnd Hal.
  destruct (dll_middle _ _ _ _ _ _ Hd) as (Epv & Enx).
  rewrite Forall_forall in Hal.
  assert (Hb : b mod 8 = 0 /\ b <> 0) by (apply Hal, in_elt).
  assert (Hnb1 : ~ In b f1).
  { intros Hin. apply NoDup_remove_2 in Hnd. apply Hnd, in_or_app. left. exact Hin. }
  assert (Hnb2 : ~ In b f2).
  { intros Hin. apply NoDup_remove_2 in Hnd. apply Hnd, in_or_app. right. exact Hin. }
  assert (Hnd' : NoDup (f1 ++ f2)) by (apply NoDup_remove_1 in Hnd; exact Hnd).
  assert (Hal1 : forall c, In c f1 -> c mod 8 = 0 /\ c <> 0).
  { intros c Hc. apply Hal, in_or_app. left. exact Hc. }
  assert (Hal2 : forall c, In c f2 -> c mod 8 = 0 /\ c <> 0).
  { intros c Hc. apply Hal, in_or_app. right. right. exact Hc. }
  assert (Hdisj : forall c, In c f1 -> ~ In c f2).
  { intros c H1 H2. clear - Hnd' H1 H2. induction f1 as [| a f1 IH]; [contradiction |].
    simpl in Hnd'. apply NoDup_cons_iff in Hnd'. destruct Hnd' as (Hn & Hnd'').
    destruct H1 as [-> | H1]; [apply Hn, in_or_app; right; exact H2 | exact (IH Hnd'' H1)]. }
  (* the value of the next link, and where it points *)
  assert (Hnx : m (b + 4) = 0 /\ f2 = [] \/ m (b + 4) <> 0 /\ exists r, f2 = m (b + 4) :: r).
  { destruct f2 as [| c r]; simpl in Enx; [left; tauto |].
    right. split; [rewrite Enx; apply (Hal2 c); left; reflexivity |].
    exists r. rewrite Enx. reflexivity. }
  assert (Hpv : m b = 0 /\ f1 = [] \/ m b <> 0 /\ In (m b) f1 /\ f1 <> []).
  { destruct (last_In_or f1 0) as [(E0 & E) | Hin].
    - left. rewrite Epv, E0. tauto.
    - right. rewrite Epv. split; [apply (Hal1 _ Hin) |]. split; [exact Hin |].
      intros ->. contradiction. }
  rewrite dll_dllseg in *. apply dllseg_app in Hd. destruct Hd as (c & Hs1 & Hs2).
  simpl in Hs2. destruct Hs2 as (-> & _ & Hs2).
  apply dllseg_app.
  exists (m (b + 4)). split.
  - (* the blocks before [b] *)
    destruct Hpv as [(E0 & ->) | (Hn0 & Hin & Hne)].
    + simpl in *. rewrite E0. simpl. reflexivity.
    + rewrite (proj2 (Z.eqb_neq _ _) Hn0).
      apply dllseg_redirect with (m := m) (q := b); try assumption.
      * apply NoDup_app_remove_r in Hnd'. exact Hnd'.
      * intros d Hd. apply unlink_other.
        -- intros _. rewrite Epv. destruct (last_In_or f1 0) as [(_ & E) | Hl]; [contradiction |].
           pose proof (Hal1 _ Hl). pose proof (Hal1 _ Hd). lia.
        -- intros Hnz. destruct Hnx as [(E0 & _) | (_ & r & ->)]; [contradiction |].
           intros ->. apply (Hdisj _ Hd). left. reflexivity.
      * intros d Hd Hne'. apply unlink_other.
        -- intros _. rewrite Epv. lia.
        -- intros Hnz. destruct Hnx as [(E0 & _) | (_ & r & Er)]; [contradiction |].
           assert (In (m (b + 4)) f2) by (rewrite Er; left; reflexivity).
           pose proof (Hal1 _ Hd). pose proof (Hal2 _ H). lia.
      * rewrite <- Epv. apply unlink_prev_next; [exact Hn0 |].
        pose proof (Hal1 _ Hin) as Hp8.
        destruct Hnx as [(E0 & _) | (_ & r & Er)]; [rewrite E0; lia |].
        assert (In (m (b + 4)) f2) by (rewrite Er; left; reflexivity).
        pose proof (Hal2 _ H). lia.
  - (* the blocks after [b] *)
    destruct Hnx as [(E0 & ->) | (Hn0 & r & Er)].
    + simpl in *. rewrite E0. reflexivity.
    + rewrite Er in Hs2 |- *. simpl in Hs2 |- *.
      destruct Hs2 as (_ & Hmb & Hs2).
      assert (Hin2 : In (m (b + 4)) f2) by (rewrite Er; left; reflexivity).
      pose proof (Hal2 _ Hin2) as Hn8.
      split; [reflexivity |]. split.
      * rewrite unlink_next_prev by assumption. exact Epv.
      * assert (Hn4 : unlink m b (m (b + 4) + 4) = m (m (b + 4) + 4)).
        { apply unlink_other.
          - intros Hp0. destruct Hpv as [(E0 & _) | (_ & Hin & _)]; [contradiction |].
            intros E. assert (m b = m (b + 4)) by lia.
            apply (Hdisj _ Hin). rewrite H. exact Hin2.
          - intros _. lia. }
        rewrite Hn4.
        apply dllseg_frame with (m := m); [exact Hs2 |].
        intros d Hd.
        assert (Hd2 : In d f2) by (rewrite Er; right; exact Hd).
        pose proof (Hal2 _ Hd2) as Hd8.
        assert (Hdn : d <> m (b + 4)).
        { intros ->. rewrite Er in Hnd'. apply NoDup_remove_2 in Hnd'.
          apply Hnd', in_or_app. right. exact Hd. }
        split; apply unlink_other.
        -- intros Hp0. destruct Hpv as [(E0 & _) | (_ & Hin & _)]; [contradiction |].
           pose proof (Hal1 _ Hin). lia.
        -- intros _. exact Hdn.
        -- intros Hp0. destruct Hpv as [(E0 & _) | (_ & Hin & _)]; [contradiction |].
           intros E. assert (d = m b) by lia. subst d. apply (Hdisj _ Hin). exact Hd2.
        -- intros _. lia.
Qed.

(** ** Running the macros and the free-list operations *)

Lemma wp_GET_SIZE p st (Q : Z -> state -> Prop) :
  valid st p = true -> Q (Z.land (mem st p) (wrap (Z.lnot 7))) st -> wp (GET_SIZE p) st Q.
Proof. intros Hv H. unfold GET_SIZE. apply wp_bind, wp_GET; [exact Hv |]. exact H. Qed.

Lemma wp_GET_ALLOC p st (Q : Z -> state -> Prop) :
  valid st p = true -> Q (Z.land (mem st p) 1) st -> wp (GET_ALLOC p) st Q.
Proof. intros Hv H. unfold GET_ALLOC. apply wp_bind, wp_GET; [exact Hv |]. exact H. Qed.

Lemma wp_FTRP bp st (Q : Z -> state -> Prop) :
  valid st (bp - 4) = true ->
  Q (bp + Z.land (mem st (bp - 4)) (wrap (Z.lnot 7)) - 8) st -> wp (FTRP bp) st Q.
Proof. intros Hv H. unfold FTRP. apply wp_bind, wp_GET_SIZE; [exact Hv |]. exact H. Qed.

Lemma wp_NEXT_BLKP bp st (Q : Z -> state -> Prop) :
  valid st (bp - 4) = true ->
  Q (bp + Z.land (mem st (bp - 4)) (wrap (Z.lnot 7))) st -> wp (NEXT_BLKP bp) st Q.
Proof. intros Hv H. unfold NEXT_BLKP. apply wp_bind, wp_GET_SIZE; [exact Hv |]. exact H. Qed.

Lemma wp_PREV_BLKP bp st (Q : Z -> state -> Prop) :
  valid st (bp - 8) = true ->
  Q (bp - Z.land (mem st (bp - 8)) (wrap (Z.lnot 7))) st -> wp (PREV_BLKP bp) st Q.
Proof. intros Hv H. unfold PREV_BLKP. apply wp_bind, wp_GET_SIZE; [exact Hv |]. exact H. Qed.

Lemma link_ok_valid st p : link_ok st p -> valid st p = true /\ valid st (p + 4) = true.
Proof.
  intros (H1 & H2 & H3 & H4). split; apply valid_intro; lia.
Qed.

(** [add_freeblock(bp)] pushes [bp] on the list. *)
Lemma wp_add_freeblock bp st (Q : unit -> state -> Prop) :
  link_ok st bp ->
  (free_listp st <> 0 -> link_ok st (free_listp st)) ->
  Q tt (set_free_listp (set_mem st (link (mem st) bp (free_listp st))) bp) ->
  wp (add_freeblock bp) st Q.
Proof.
  intros Hbp Hfl HQ.
  destruct (link_ok_valid _ _ Hbp) as (Hv1 & Hv2).
  assert (Hwb : wrap bp = bp) by (apply wrap_small; destruct Hbp as (_ & _ & _ & ?); lia).
  unfold add_freeblock, WSIZE. apply wp_bind, wp_gets.
  destruct (Z.eqb_spec (free_listp st) NULL) as [E | E].
  - apply wp_bind, wp_modify. apply wp_bind, wp_PUT; [exact Hv1 |].
    apply wp_PUT; [exact Hv2 |].
    unfold link in HQ. unfold NULL in E. rewrite E in HQ. simpl in HQ.
    destruct st; st_simpl. exact HQ.
  - specialize (Hfl E). destruct (link_ok_valid _ _ Hfl) as (Hv3 & _).
    assert (Hwf : wrap (free_listp st) = free_listp st)
      by (apply wrap_small; destruct Hfl as (_ & _ & _ & ?); lia).
    apply wp_bind, wp_PUT; [exact Hv3 |].
    apply wp_bind, wp_PUT; [exact Hv1 |].
    apply wp_bind, wp_gets.
    apply wp_bind, wp_PUT; [exact Hv2 |].
    apply wp_modify.
    unfold link in HQ. unfold NULL in E. rewrite (proj2 (Z.eqb_neq _ _) E) in HQ.
    destruct st; st_simpl. rewrite Hwb, Hwf. exact HQ.
Qed.

(** [remove_freeblock(bp)] takes [bp] out of the list. *)
Lemma wp_remove_freeblock bp st (Q : unit -> state -> Prop) :
  link_ok st bp ->
  (mem st bp <> 0 -> link_ok st (mem st bp) /\ mem st bp <> bp) ->
  (mem st (bp + 4) <> 0 -> link_ok st (mem st (bp + 4))) ->
  Q tt (set_free_listp (set_mem st (unlink (mem st) bp))
          (if mem st bp =? 0 then mem st (bp + 4) else free_listp st)) ->
  wp (remove_freeblock bp) st Q.
Proof.
  intros Hbp Hpv Hnx HQ.
  destruct (link_ok_valid _ _ Hbp) as (Hv1 & Hv2).
  unfold remove_freeblock, PREV_FREE, NEXT_FREE, WSIZE.
  apply wp_bind, wp_GET; [exact Hv1 |]. apply wp_bind, wp_GET; [exact Hv2 |].
  unfold unlink in HQ.
  destruct (Z.eqb_spec (mem st bp) 0) as [Ep | Ep];
    destruct (Z.eqb_spec (mem st (bp + 4)) 0) as [En | En]; cbn [andb negb].
  - apply wp_modify. rewrite En in HQ. destruct st; st_simpl. exact HQ.
  - specialize (Hnx En). destruct (link_ok_valid _ _ Hnx) as (Hv3 & _).
    apply wp_bind, wp_GET; [exact Hv2 |]. apply wp_bind, wp_modify.
    apply wp_bind, wp_GET; [exact Hv2 |]. apply wp_PUT; [exact Hv3 |].
    destruct st; st_simpl. rewrite Ep in HQ. exact HQ.
  - destruct (Hpv Ep) as (Hpl & Hne). destruct (link_ok_valid _ _ Hpl) as (_ & Hv3).
    apply wp_bind, wp_GET; [exact Hv1 |]. apply wp_PUT; [exact Hv3 |].
    destruct st; st_simpl. rewrite En in HQ. exact HQ.
  - destruct (Hpv Ep) as (Hpl & Hne). destruct (link_ok_valid _ _ Hpl) as (_ & Hv3).
    specialize (Hnx En). destruct (link_ok_valid _ _ Hnx) as (Hv4 & _).
    assert (Hw1 : wrap (mem st (bp + 4)) = mem st (bp + 4))
      by (apply wrap_small; destruct Hnx as (_ & _ & _ & ?); lia).
    assert (Hw2 : wrap (mem st bp) = mem st bp)
      by (apply wrap_small; destruct Hpl as (_ & _ & _ & ?); lia).
    assert (Hd1 : bp + 4 <> mem st bp + 4) by lia.
    assert (Hd2 : bp <> mem st bp + 4).
    { destruct Hbp as (_ & _ & ? & _). destruct Hpl as (_ & _ & ? & _). lia. }
    apply wp_bind, wp_GET; [exact Hv1 |]. apply wp_bind, wp_GET; [exact Hv2 |].
    apply wp_bind, wp_PUT; [exact Hv3 |].
    apply wp_bind, wp_GET; [exact Hv2 |]. apply wp_bind, wp_GET; [exact Hv1 |].
    apply wp_PUT; [st_simpl; rewrite upd_other by exact Hd1; exact Hv4 |].
    destruct st; st_simpl. rewrite !upd_other by assumption.
    rewrite Hw1, Hw2. exact HQ.
Qed.

(** ** Geometry of the heap *)

(** Two blocks of a chain are the same block or do not overlap. *)
Lemma chain_sep a L e c d :
  chain a L e -> In c L -> In d L ->
  c = d \/ bhdr c + bsize c <= bhdr d \/ bhdr d + bsize d <= bhdr c.
Proof.
  revert a. induction L as [| b r IH]; intros a; [intros _ [] |].
  intros Hc Hic Hid. simpl in Hc. destruct Hc as (Hh & Hs & Hm & Hc).
  destruct Hic as [-> | Hic]; destruct Hid as [-> | Hid].
  - left. reflexivity.
  - right. left. destruct (chain_In _ _ _ _ Hc Hid) as (H1 & _). lia.
  - right. right. destruct (chain_In _ _ _ _ Hc Hic) as (H1 & _). lia.
  - exact (IH _ Hc Hic Hid).
Qed.

Lemma chain_sep_hdr a L e c d :
  chain a L e -> In c L -> In d L -> bhdr c = bhdr d -> c = d.
Proof.
  intros Hc Hic Hid E.
  destruct (chain_In _ _ _ _ Hc Hic) as (_ & _ & _ & Hsc & _).
  destruct (chain_In _ _ _ _ Hc Hid) as (_ & _ & _ & Hsd & _).
  destruct (chain_sep _ _ _ _ _ Hc Hic Hid) as [H | [H | H]]; [exact H | lia | lia].
Qed.

(** The tags of the blocks of a chain are not link words. *)
Lemma tag_safe a L e c :
  chain a L e -> In c L -> safe L (bhdr c) /\ safe L (bftr c).
Proof.
  intros Hc Hic.
  destruct (chain_In _ _ _ _ Hc Hic) as (_ & _ & _ & Hsc & Hmc).
  split; intros d Hid Hsd; unfold bptr, bftr;
    destruct (chain_sep _ _ _ _ _ Hc Hic Hid) as [<- | [H | H]]; lia.
Qed.

(** Addresses outside of a chain are not link words of it. *)
Lemma outside_safe a L e x :
  chain a L e -> x <= a \/ e <= x -> safe L x.
Proof.
  intros Hc Hx d Hid Hsd. destruct (chain_In _ _ _ _ Hc Hid) as (H1 & H2 & _).
  unfold bptr, bend in *. lia.
Qed.

Lemma safe_app L1 L2 x : safe (L1 ++ L2) x <-> safe L1 x /\ safe L2 x.
Proof.
  unfold safe. split.
  - intros H. split; intros d Hd; apply H, in_or_app; [left | right]; exact Hd.
  - intros (H1 & H2) d Hd. apply in_app_or in Hd. destruct Hd; [apply H1 | apply H2]; assumption.
Qed.

Lemma links_in_incl L L' fl :
  links_in L fl -> (forall d, In d L -> In d L') -> links_in L' fl.
Proof.
  intros H Hincl q Hq. destruct (H q Hq) as (d & Hd & Hs & E).
  exists d. split; [apply Hincl; exact Hd | split; assumption].
Qed.

Lemma links_in_sub L fl fl' :
  links_in L fl -> (forall q, In q fl' -> In q fl) -> links_in L fl'.
Proof. intros H Hincl q Hq. apply H, Hincl, Hq. Qed.

(** Writes at safe addresses do not touch the free list. *)
Lemma dll_upd_safe L m prev p fl x v :
  dll m prev p fl -> links_in L fl -> safe L x -> dll (upd m x v) prev p fl.
Proof.
  intros Hd Hl Hs. apply dll_frame with (m := m); [exact Hd |].
  intros b Hb. destruct (Hl b Hb) as (d & Hd' & Hsz & ->).
  destruct (Hs d Hd' Hsz) as (H1 & H2).
  split; apply upd_other; congruence.
Qed.

(** Unlinking a block writes link words only. *)
Lemma unlink_safe L m p fl b x :
  dll m 0 p fl -> In b fl -> links_in L fl -> safe L x -> unlink m b x = m x.
Proof.
  intros Hd Hin Hl Hs.
  apply in_split in Hin. destruct Hin as (f1 & f2 & ->).
  destruct (dll_middle _ _ _ _ _ _ Hd) as (Epv & Enx).
  apply unlink_other.
  - intros Hnz. rewrite Epv in *.
    destruct (last_In_or f1 0) as [(E0 & _) | Hl1]; [contradiction |].
    destruct (Hl (last f1 0)) as (d & Hd' & Hsz & E).
    { apply in_or_app. left. exact Hl1. }
    rewrite E. apply (Hs d Hd' Hsz).
  - intros Hnz. rewrite Enx in *.
    destruct f2 as [| c r]; [contradiction Hnz; reflexivity |]. simpl.
    destruct (Hl c) as (d & Hd' & Hsz & E).
    { apply in_or_app. right. right. left. reflexivity. }
    rewrite E. apply (Hs d Hd' Hsz).
Qed.

(** Linking a block writes link words only. *)
Lemma link_safe L m bp head x :
  links_in L [bp] -> (head <> 0 -> links_in L [head]) -> safe L x ->
  link m bp head x = m x.
Proof.
  intros Hbp Hhead Hs.
  destruct (Hbp bp (or_introl eq_refl)) as (d & Hd & Hsz & E).
  destruct (Hs d Hd Hsz) as (H1 & H2). rewrite <- E in H1, H2.
  unfold link. rewrite !upd_other by assumption.
  destruct (Z.eqb_spec head 0) as [E0 | E0]; [reflexivity |].
  destruct (Hhead E0 head (or_introl eq_refl)) as (d' & Hd' & Hsz' & E').
  destruct (Hs d' Hd' Hsz') as (H1' & _). rewrite <- E' in H1'.
  apply upd_other. exact H1'.
Qed.

(** *** Free and allocated blocks of a list *)

Lemma frees_app l1 l2 : frees (l1 ++ l2) = frees l1 ++ frees l2.
Proof. unfold frees. rewrite filter_app, map_app. reflexivity. Qed.

Lemma allocated_app l1 l2 : allocated (l1 ++ l2) = allocated l1 ++ allocated l2.
Proof. unfold allocated. rewrite filter_app, map_app. reflexivity. Qed.

Lemma frees_cons b l :
  frees (b :: l) = if balloc b then frees l else bptr b :: frees l.
Proof. unfold frees. simpl. destruct (balloc b); reflexivity. Qed.

Lemma allocated_cons b l :
  allocated (b :: l) = if balloc b then bptr b :: allocated l else allocated l.
Proof. unfold allocated. simpl. destruct (balloc b); reflexivity. Qed.

Lemma In_frees p l : In p (frees l) <-> exists b, In b l /\ balloc b = false /\ p = bptr b.
Proof.
  unfold frees. rewrite in_map_iff. split.
  - intros (b & E & Hb). apply filter_In in Hb. destruct Hb as (Hb & Ha).
    exists b. repeat split; [exact Hb | destruct (balloc b); [discriminate | reflexivity] | congruence].
  - intros (b & Hb & Ha & ->). exists b. split; [reflexivity |].
    apply filter_In. split; [exact Hb | rewrite Ha; reflexivity].
Qed.

Lemma In_allocated p l : In p (allocated l) <-> exists b, In b l /\ balloc b = true /\ p = bptr b.
Proof.
  unfold allocated. rewrite in_map_iff. split.
  - intros (b & E & Hb). apply filter_In in Hb. destruct Hb as (Hb & Ha).
    exists b. repeat split; [exact Hb | exact Ha | congruence].
  - intros (b & Hb & Ha & ->). exists b. split; [reflexivity |].
    apply filter_In. split; [exact Hb | exact Ha].
Qed.

(** The payload pointers of a chain are pairwise different. *)
Lemma chain_NoDup_bptr a L e : chain a L e -> NoDup (map bptr L).
Proof.
  revert a. induction L as [| b r IH]; intros a Hc; [constructor |].
  simpl in Hc. destruct Hc as (Hh & Hs & Hm & Hc). simpl. constructor.
  - rewrite in_map_iff. intros (d & E & Hd).
    destruct (chain_In _ _ _ _ Hc Hd) as (H1 & _). unfold bptr in E. lia.
  - exact (IH _ Hc).
Qed.

Lemma NoDup_map_filter {A B} (f : A -> B) (g : A -> bool) (l : list A) :
  NoDup (map f l) -> NoDup (map f (filter g l)).
Proof.
  induction l as [| x l IH]; simpl; [constructor |].
  intros H. apply NoDup_cons_iff in H. destruct H as (Hn & Hd).
  destruct (g x); [| exact (IH Hd)].
  simpl. constructor; [| exact (IH Hd)].
  rewrite in_map_iff in *. intros (y & E & Hy). apply Hn. exists y.
  split; [exact E |]. apply filter_In in Hy. tauto.
Qed.

Lemma chain_NoDup_frees a L e : chain a L e -> NoDup (frees L).
Proof. intros H. apply NoDup_map_filter. exact (chain_NoDup_bptr _ _ _ H). Qed.

Lemma chain_NoDup_allocated a L e : chain a L e -> NoDup (allocated L).
Proof. intros H. apply NoDup_map_filter. exact (chain_NoDup_bptr _ _ _ H). Qed.

(** *** Reading the tags *)

Lemma tag_range b : 0 <= bsize b -> bsize b + 1 < modulus -> 0 <= tag b < modulus.
Proof. intros H1 H2. unfold tag. destruct (balloc b); simpl; lia. Qed.

Lemma tag_size b :
  0 <= bsize b -> bsize b + 1 < modulus -> bsize b mod 8 = 0 ->
  Z.land (tag b) (wrap (Z.lnot 7)) = bsize b.
Proof.
  intros H1 H2 H3. rewrite land_size_mask by (apply tag_range; assumption).
  unfold tag. destruct (balloc b); simpl; lia.
Qed.

Lemma tag_alloc b : bsize b mod 8 = 0 -> Z.land (tag b) 1 = Z.b2z (balloc b).
Proof.
  intros H. rewrite land_one. unfold tag. destruct (balloc b); simpl; lia.
Qed.

Lemma PACK_tag sz (a : bool) :
  0 <= sz -> sz + 1 < modulus -> sz mod 8 = 0 ->
  wrap (PACK sz (Z.b2z a)) = tag (Blk 0 sz a).
Proof.
  intros H1 H2 H3. rewrite PACK_add by exact H3. unfold tag. simpl.
  apply wrap_small. destruct a; simpl; lia.
Qed.

(** *** Blocks of a well-formed heap *)

Lemma shape_brk st bl :
  heap_shape st bl -> mem_start_brk st + 16 <= mem_brk st /\ mem_brk st mod 8 = 0.
Proof.
  intros H. pose proof (shape_chain _ _ H) as Hc.
  pose proof (chain_le _ _ _ Hc). pose proof (chain_aligned _ _ _ Hc).
  pose proof (shape_start_al _ _ H).
  simpl in Hc. destruct Hc as (_ & _ & _ & Hc). apply chain_le in Hc. lia.
Qed.

Lemma shape_block st bl b :
  heap_shape st bl -> In b bl ->
  mem_start_brk st + 12 <= bhdr b /\ bhdr b + bsize b <= mem_brk st - 4 /\
  bhdr b mod 8 = 4 /\ 16 <= bsize b /\ bsize b mod 8 = 0 /\ bsize b + 1 < modulus /\
  tagged (mem st) b.
Proof.
  intros H Hin.
  pose proof (shape_chain _ _ H) as Hc. simpl in Hc. destruct Hc as (_ & _ & _ & Hc).
  destruct (chain_In _ _ _ _ Hc Hin) as (H1 & H2 & H3 & H4 & H5).
  pose proof (shape_start_al _ _ H). pose proof (shape_start_pos _ _ H).
  pose proof (shape_max _ _ H).
  pose proof (shape_min _ _ H) as Hmin. rewrite Forall_forall in Hmin.
  pose proof (shape_tags _ _ H) as Ht. rewrite Forall_forall in Ht.
  unfold bend in H2. repeat split; try lia.
  - apply Hmin. exact Hin.
  - apply Ht. right. exact Hin.
  - apply Ht. right. exact Hin.
Qed.

Lemma shape_links_in st bl : heap_shape st bl -> links_in bl (frees bl).
Proof.
  intros H q Hq. apply In_frees in Hq. destruct Hq as (b & Hb & _ & ->).
  exists b. split; [exact Hb |]. split; [| reflexivity].
  apply (shape_block _ _ _ H Hb).
Qed.

(** A pointer taken from a block of the heap is a good link. *)
Lemma shape_link_ok st bl b :
  heap_shape st bl -> In b bl -> link_ok st (bptr b).
Proof.
  intros H Hin. destruct (shape_block _ _ _ H Hin) as (H1 & H2 & H3 & H4 & H5 & H6 & _).
  pose proof (shape_start_pos _ _ H). pose proof (shape_max _ _ H).
  unfold link_ok, bptr. lia.
Qed.

(** ** Frames for the block structure *)

Lemma tagged_upd m c x v :
  tagged m c -> x <> bhdr c -> x <> bftr c -> tagged (upd m x v) c.
Proof.
  intros (H1 & H2) Hx1 Hx2. split; rewrite upd_other by congruence; assumption.
Qed.

Lemma tagged_link L m c bp head :
  tagged m c -> links_in L [bp] -> (head <> 0 -> links_in L [head]) ->
  safe L (bhdr c) -> safe L (bftr c) -> tagged (link m bp head) c.
Proof.
  intros (H1 & H2) Hbp Hh Hs1 Hs2.
  split; rewrite (link_safe L) by assumption; assumption.
Qed.

Lemma tagged_unlink L m c p fl b :
  tagged m c -> dll m 0 p fl -> In b fl -> links_in L fl ->
  safe L (bhdr c) -> safe L (bftr c) -> tagged (unlink m b) c.
Proof.
  intros (H1 & H2) Hd Hin Hl Hs1 Hs2.
  split; rewrite (unlink_safe L _ p fl) by assumption; assumption.
Qed.

(** Writing the tags of a block. *)
Lemma tagged_put m h sz (a : bool) :
  tagged (upd (upd m h (tag (Blk h sz a))) (h + sz - 4) (tag (Blk h sz a))) (Blk h sz a).
Proof.
  unfold tagged, bftr. simpl. split; [| apply upd_same].
  unfold upd. destruct (h =? h + sz - 4); [reflexivity |].
  rewrite Z.eqb_refl. reflexivity.
Qed.

(** A heap keeps its shape when memory and free-list head change and the
    new blocks are tagged. *)
Lemma shape_update st bl m' fl' bl' :
  heap_shape st bl ->
  chain (mem_start_brk st + 4) (prologue st :: bl') (mem_brk st - 4) ->
  Forall (tagged m') (prologue st :: bl') ->
  m' (mem_brk st - 4) = 1 ->
  Forall (fun b => 16 <= bsize b) bl' ->
  heap_shape (set_free_listp (set_mem st m') fl') bl'.
Proof.
  intros H Hc Ht He Hm. destruct H. constructor; st_simpl; assumption.
Qed.

(** The free list of a heap in which the free blocks [skip] are not (or not
    yet) on the list. *)
Lemma free_list_facts st L fl rest :
  heap_shape st L -> Permutation fl (frees rest) ->
  (forall d, In d rest -> In d L) -> NoDup (map bptr rest) ->
  NoDup fl /\ Forall (fun c => c mod 8 = 0 /\ c <> 0) fl /\ links_in L fl /\
  (forall q, In q fl -> link_ok st q).
Proof.
  intros H Hp Hincl Hnd.
  assert (Hl : links_in L fl).
  { intros q Hq. apply (Permutation_in _ Hp), In_frees in Hq.
    destruct Hq as (d & Hd & _ & ->). exists d. split; [apply Hincl; exact Hd |].
    split; [| reflexivity]. apply (shape_block _ _ _ H (Hincl _ Hd)). }
  split; [| split; [| split]].
  - apply (Permutation_NoDup (Permutation_sym Hp)). apply NoDup_map_filter. exact Hnd.
  - apply Forall_forall. intros q Hq. destruct (Hl q Hq) as (d & Hd & _ & ->).
    destruct (shape_link_ok _ _ _ H Hd) as (_ & _ & ? & ?). lia.
  - exact Hl.
  - intros q Hq. destruct (Hl q Hq) as (d & Hd & _ & ->). exact (shape_link_ok _ _ _ H Hd).
Qed.

Lemma NoDup_map_remove {A B} (f : A -> B) (l1 : list A) (b : A) (l2 : list A) :
  NoDup (map f (l1 ++ b :: l2)) ->
  NoDup (map f (l1 ++ l2)) /\ forall d, In d (l1 ++ l2) -> f d <> f b.
Proof.
  rewrite !map_app. simpl. intros H. split.
  - exact (NoDup_remove_1 _ _ _ H).
  - intros d Hd E. apply NoDup_remove_2 in H. apply H.
    rewrite <- map_app, <- E. apply in_map. exact Hd.
Qed.

Lemma remove_middle (x : Z) (f1 f2 : list Z) :
  NoDup (f1 ++ x :: f2) -> remove Z.eq_dec x (f1 ++ x :: f2) = f1 ++ f2.
Proof.
  intros H. pose proof (NoDup_remove_2 _ _ _ H) as Hn.
  rewrite remove_app. simpl. destruct (Z.eq_dec x x) as [_ | E]; [| contradiction E; reflexivity].
  rewrite !notin_remove; [reflexivity | |]; intros Hin; apply Hn, in_or_app; tauto.
Qed.

Lemma Permutation_remove_middle (x : Z) (fl l1 l2 : list Z) :
  NoDup fl -> Permutation fl (l1 ++ x :: l2) -> Permutation (remove Z.eq_dec x fl) (l1 ++ l2).
Proof.
  intros Hnd Hp.
  assert (Hin : In x fl) by (apply (Permutation_in _ (Permutation_sym Hp)), in_elt).
  apply in_split in Hin. destruct Hin as (f1 & f2 & ->).
  rewrite remove_middle by exact Hnd.
  apply Permutation_app_inv with (a := x). exact Hp.
Qed.

(** The block before a block of the heap: a real block or the prologue. *)
Lemma shape_prev st l1 b l2 :
  heap_shape st (l1 ++ b :: l2) ->
  let pb := last l1 (prologue st) in
  bhdr pb + bsize pb = bhdr b /\ tagged (mem st) pb /\ 8 <= bsize pb /\
  bsize pb mod 8 = 0 /\ mem_start_brk st + 4 <= bhdr pb /\
  (balloc pb = false -> exists l1', l1 = l1' ++ [pb]).
Proof.
  intros H pb.
  pose proof (shape_chain _ _ H) as Hc. pose proof (shape_tags _ _ H) as Ht.
  rewrite Forall_forall in Ht.
  destruct (exists_last (l := prologue st :: l1)) as (l0 & x & E); [discriminate |].
  assert (Ex : x = pb).
  { unfold pb. rewrite <- (last_last l0 x (prologue st)), <- E.
    destruct l1 as [| c r]; [reflexivity |].
    change (last (prologue st :: c :: r) (prologue st)) with (last (c :: r) (prologue st)).
    reflexivity. }
  subst x.
  change (prologue st :: l1 ++ b :: l2) with ((prologue st :: l1) ++ b :: l2) in Hc.
  rewrite E, <- app_assoc in Hc. simpl in Hc.
  apply chain_split in Hc. destruct Hc as (Hc1 & Hs & Hm & Hc2).
  unfold bend in Hc2. simpl in Hc2. destruct Hc2 as (Hh & _).
  pose proof (chain_le _ _ _ Hc1) as Hle.
  repeat split; try assumption; try lia.
  - apply Ht. change (In pb ((prologue st :: l1) ++ b :: l2)). rewrite E.
    apply in_or_app. left. apply in_or_app. right. left. reflexivity.
  - apply Ht. change (In pb ((prologue st :: l1) ++ b :: l2)). rewrite E.
    apply in_or_app. left. apply in_or_app. right. left. reflexivity.
  - intros Hf. destruct l0 as [| y l0].
    + simpl in E. injection E as E1 E2. rewrite <- E1 in Hf. discriminate.
    + simpl in E. injection E as E1 E2. exists l0. exact E2.
Qed.

(** The word after a block of the heap: the header of the next block or
    the epilogue. *)
Lemma shape_next st l1 b l2 :
  heap_shape st (l1 ++ b :: l2) ->
  (l2 = [] /\ bhdr b + bsize b = mem_brk st - 4 /\ mem st (bhdr b + bsize b) = 1) \/
  (exists nb l2', l2 = nb :: l2' /\ bhdr nb = bhdr b + bsize b /\
                  mem st (bhdr b + bsize b) = tag nb).
Proof.
  intros H.
  pose proof (shape_chain _ _ H) as Hc. pose proof (shape_tags _ _ H) as Ht.
  rewrite Forall_forall in Ht.
  change (prologue st :: l1 ++ b :: l2) with ((prologue st :: l1) ++ b :: l2) in Hc.
  apply chain_split in Hc. destruct Hc as (_ & _ & _ & Hc). unfold bend in Hc.
  destruct l2 as [| nb l2'].
  - left. simpl in Hc. rewrite Hc. split; [reflexivity |]. split; [reflexivity |].
    exact (shape_epi _ _ H).
  - right. exists nb, l2'. simpl in Hc. destruct Hc as (Hh & _).
    split; [reflexivity |]. split; [exact Hh |]. rewrite <- Hh.
    apply Ht. right. apply in_or_app. right. right. left. reflexivity.
Qed.

(** ** Coalescing *)

Lemma wp_GET_SIZE_tag c p st (Q : Z -> state -> Prop) :
  mem st p = tag c -> valid st p = true ->
  0 <= bsize c -> bsize c + 1 < modulus -> bsize c mod 8 = 0 ->
  Q (bsize c) st -> wp (GET_SIZE p) st Q.
Proof.
  intros E Hv H1 H2 H3 HQ. apply wp_GET_SIZE; [exact Hv |].
  rewrite E, tag_size by assumption. exact HQ.
Qed.

Lemma wp_GET_ALLOC_tag c p st (Q : Z -> state -> Prop) :
  mem st p = tag c -> valid st p = true -> bsize c mod 8 = 0 ->
  Q (Z.b2z (balloc c)) st -> wp (GET_ALLOC p) st Q.
Proof.
  intros E Hv H3 HQ. apply wp_GET_ALLOC; [exact Hv |].
  rewrite E, tag_alloc by assumption. exact HQ.
Qed.

Lemma wp_FTRP_tag c bp st (Q : Z -> state -> Prop) :
  mem st (bp - 4) = tag c -> valid st (bp - 4) = true ->
  0 <= bsize c -> bsize c + 1 < modulus -> bsize c mod 8 = 0 ->
  Q (bp + bsize c - 8) st -> wp (FTRP bp) st Q.
Proof.
  intros E Hv H1 H2 H3 HQ. apply wp_FTRP; [exact Hv |].
  rewrite E, tag_size by assumption. exact HQ.
Qed.

Lemma wp_NEXT_BLKP_tag c bp st (Q : Z -> state -> Prop) :
  mem st (bp - 4) = tag c -> valid st (bp - 4) = true ->
  0 <= bsize c -> bsize c + 1 < modulus -> bsize c mod 8 = 0 ->
  Q (bp + bsize c) st -> wp (NEXT_BLKP bp) st Q.
Proof.
  intros E Hv H1 H2 H3 HQ. apply wp_NEXT_BLKP; [exact Hv |].
  rewrite E, tag_size by assumption. exact HQ.
Qed.

Lemma wp_PREV_BLKP_tag c bp st (Q : Z -> state -> Prop) :
  mem st (bp - 8) = tag c -> valid st (bp - 8) = true ->
  0 <= bsize c -> bsize c + 1 < modulus -> bsize c mod 8 = 0 ->
  Q (bp - bsize c) st -> wp (PREV_BLKP bp) st Q.
Proof.
  intros E Hv H1 H2 H3 HQ. apply wp_PREV_BLKP; [exact Hv |].
  rewrite E, tag_size by assumption. exact HQ.
Qed.

(** What [coalesce] reads first: the allocation bits of the neighbours of
    [b] and the size of [b]. *)
Lemma coalesce_reads st l1 b l2 (K : Z -> Z -> Z -> M Z) (Q : Z -> state -> Prop) :
  heap_shape st (l1 ++ b :: l2) ->
  wp (K (Z.b2z (prev_alloc st l1)) (Z.b2z (next_alloc l2)) (bsize b)) st Q ->
  wp (pb <- PREV_BLKP (bptr b) ;;
      pa <- GET_ALLOC (HDRP pb) ;;
      nb <- NEXT_BLKP (bptr b) ;;
      na <- GET_ALLOC (HDRP nb) ;;
      size <- GET_SIZE (HDRP (bptr b)) ;;
      K pa na size) st Q.
Proof.
  intros Hs HK.
  destruct (shape_prev _ _ _ _ Hs) as (Hph & (Hpt1 & Hpt2) & Hps & Hpm & Hpl & _).
  fold (prev_alloc st l1) in *. unfold prev_alloc in HK.
  set (pb := last l1 (prologue st)) in *.
  assert (Hb : In b (l1 ++ b :: l2)) by apply in_elt.
  destruct (shape_block _ _ _ Hs Hb) as (Hb1 & Hb2 & Hb3 & Hb4 & Hb5 & Hb6 & (Hbt1 & Hbt2)).
  destruct (shape_brk _ _ Hs) as (Hk1 & Hk2).
  pose proof (shape_start_al _ _ Hs) as Hsa.
  pose proof (shape_max _ _ Hs) as Hmax. pose proof modulus_eq as Hmod.
  pose proof (shape_start_pos _ _ Hs) as Hsp.
  unfold HDRP, WSIZE, DSIZE, bptr, bftr in *.
  apply wp_bind, (wp_PREV_BLKP_tag pb); try lia.
  { rewrite <- Hpt2. f_equal. lia. }
  { apply valid_intro; lia. }
  apply wp_bind, (wp_GET_ALLOC_tag pb); try lia.
  { rewrite <- Hpt1. f_equal. lia. }
  { apply valid_intro; lia. }
  apply wp_bind, (wp_NEXT_BLKP_tag b); try lia.
  { rewrite <- Hbt1. f_equal. lia. }
  { apply valid_intro; lia. }
  assert (Hnext : exists nt, mem st (bhdr b + bsize b) = nt /\ Z.land nt 1 = Z.b2z (next_alloc l2)).
  { destruct (shape_next _ _ _ _ Hs) as [(-> & _ & E) | (nb & l2' & -> & Hh & E)].
    - exists 1. split; [exact E | reflexivity].
    - exists (tag nb). split; [exact E |]. simpl. apply tag_alloc.
      apply (shape_block _ _ nb Hs). apply in_or_app. right. right. left. reflexivity. }
  destruct Hnext as (nt & Ent & Ena).
  apply wp_bind, wp_GET_ALLOC.
  { apply valid_intro; lia. }
  replace (bhdr b + 4 + bsize b - 4) with (bhdr b + bsize b) by lia.
  rewrite Ent, Ena.
  apply wp_bind, (wp_GET_SIZE_tag b); try lia.
  { rewrite <- Hbt1. f_equal. lia. }
  { apply valid_intro; lia. }
  exact HK.
Qed.

(** ** The steps the operations are made of *)

Lemma same_geo_refl st : same_geo st st.
Proof. repeat split. Qed.

Lemma same_geo_trans st1 st2 st3 : same_geo st1 st2 -> same_geo st2 st3 -> same_geo st1 st3.
Proof. unfold same_geo. intros (?&?&?&?&?) (?&?&?&?&?). repeat split; congruence. Qed.

Lemma prologue_geo st st' : same_geo st st' -> prologue st' = prologue st.
Proof. intros (E & _). unfold prologue. rewrite E. reflexivity. Qed.

Lemma inside_safe a l1 h e l2 z x :
  chain a l1 h -> chain e l2 z -> h <= x < e -> safe (l1 ++ l2) x.
Proof.
  intros H1 H2 Hx. apply safe_app. split.
  - apply (outside_safe _ _ _ _ H1). right. lia.
  - apply (outside_safe _ _ _ _ H2). left. lia.
Qed.

(** Rewriting the tags inside a run [mid] of adjacent blocks turns it into
    any other tiling [mid'] of the same addresses. *)
Lemma shape_replace st st' l1 mid mid' l2 h e :
  heap_shape st (l1 ++ mid ++ l2) -> same_geo st st' -> mid <> [] ->
  chain h mid e -> chain h mid' e ->
  (forall x, x < h \/ e <= x -> mem st' x = mem st x) ->
  Forall (tagged (mem st')) mid' -> Forall (fun b => 16 <= bsize b) mid' ->
  heap_shape st' (l1 ++ mid' ++ l2).
Proof.
  intros Hs Hg Hne Hm Hm' Hframe Ht' Hmin'.
  pose proof (shape_chain _ _ Hs) as Hc.
  change (prologue st :: l1 ++ mid ++ l2) with ((prologue st :: l1) ++ mid ++ l2) in Hc.
  apply chain_app in Hc. destruct Hc as (c & Hc1 & Hc2).
  apply chain_app in Hc2. destruct Hc2 as (c' & Hc2 & Hc3).
  assert (c = h).
  { destruct mid as [| x mid]; [contradiction Hne; reflexivity |].
    simpl in Hc2, Hm. destruct Hc2 as (E1 & _), Hm as (E2 & _). congruence. }
  subst c. assert (c' = e) by exact (chain_fun _ _ _ _ Hc2 Hm). subst c'.
  pose proof (shape_tags _ _ Hs) as Ht.
  change (prologue st :: l1 ++ mid ++ l2) with ((prologue st :: l1) ++ mid ++ l2) in Ht.
  apply Forall_app in Ht. destruct Ht as (Ht1 & Ht2).
  apply Forall_app in Ht2. destruct Ht2 as (_ & Ht3).
  pose proof (shape_min _ _ Hs) as Hmin.
  apply Forall_app in Hmin. destruct Hmin as (Hmin1 & Hmin2).
  apply Forall_app in Hmin2. destruct Hmin2 as (_ & Hmin3).
  pose proof (chain_le _ _ _ Hc3) as Hle3.
  pose proof (chain_le _ _ _ Hm) as Hle2.
  destruct Hg as (G1 & G2 & G3 & G4 & G5).
  constructor.
  - rewrite G1. exact (shape_start_pos _ _ Hs).
  - rewrite G1. exact (shape_start_al _ _ Hs).
  - rewrite G2, G3. exact (shape_max _ _ Hs).
  - rewrite G1, G4. exact (shape_heap_listp _ _ Hs).
  - rewrite G1, G5. exact (shape_epilogue _ _ Hs).
  - unfold prologue. rewrite G1, G2. fold (prologue st).
    change (prologue st :: l1 ++ mid' ++ l2) with ((prologue st :: l1) ++ mid' ++ l2).
    apply chain_app. exists h. split; [exact Hc1 |].
    apply chain_app. exists e. split; assumption.
  - unfold prologue. rewrite G1. fold (prologue st).
    change (prologue st :: l1 ++ mid' ++ l2) with ((prologue st :: l1) ++ mid' ++ l2).
    apply Forall_app. split; [| apply Forall_app; split; [exact Ht' |]].
    + rewrite Forall_forall in *. intros b Hb.
      destruct (chain_In _ _ _ _ Hc1 Hb) as (B1 & B2 & _ & B4 & _). unfold bend in B2.
      destruct (Ht1 b Hb) as (T1 & T2). unfold tagged, bftr in *.
      rewrite !Hframe by lia. split; assumption.
    + rewrite Forall_forall in *. intros b Hb.
      destruct (chain_In _ _ _ _ Hc3 Hb) as (B1 & B2 & _ & B4 & _). unfold bend in B2.
      destruct (Ht3 b Hb) as (T1 & T2). unfold tagged, bftr in *.
      rewrite !Hframe by lia. split; assumption.
  - rewrite G2, Hframe by lia. exact (shape_epi _ _ Hs).
  - apply Forall_app. split; [exact Hmin1 |]. apply Forall_app. split; assumption.
Qed.

(** Taking a block out of the free list leaves the blocks as they are. *)
Lemma wp_remove_links st L fl q (Q : unit -> state -> Prop) :
  heap_shape st L -> free_list st fl -> NoDup fl -> links_in L fl -> In q fl ->
  (forall st', same_geo st st' -> mem st' = unlink (mem st) q ->
               heap_shape st' L -> free_list st' (remove Z.eq_dec q fl) -> Q tt st') ->
  wp (remove_freeblock q) st Q.
Proof.
  intros Hs Hfl Hnd' Hl Hq HQ.
  assert (Hok : forall c, In c fl -> link_ok st c).
  { intros c Hc. destruct (Hl c Hc) as (d & Hd & _ & ->). exact (shape_link_ok _ _ _ Hs Hd). }
  assert (Hal : Forall (fun c => c mod 8 = 0 /\ c <> 0) fl).
  { apply Forall_forall. intros c Hc. destruct (Hok c Hc) as (_ & _ & ? & ?). lia. }
  unfold free_list in Hfl.
  pose proof Hq as Hq'. apply in_split in Hq'. destruct Hq' as (f1 & f2 & Efl).
  rewrite Efl in Hfl.
  destruct (dll_middle _ _ _ _ _ _ Hfl) as (Epv & Enx).
  assert (HL : links_in (prologue st :: L) fl).
  { apply (links_in_incl L); [exact Hl |]. intros d Hd. right. exact Hd. }
  apply wp_remove_freeblock.
  - apply Hok. exact Hq.
  - intros Hnz. rewrite Epv in *.
    destruct (last_In_or f1 0) as [(E0 & _) | Hl1]; [contradiction |].
    split.
    + apply Hok. rewrite Efl. apply in_or_app. left. exact Hl1.
    + intros E. rewrite Efl in Hnd'. apply NoDup_remove_2 in Hnd'. apply Hnd'.
      apply in_or_app. left. rewrite <- E. exact Hl1.
  - intros Hnz. rewrite Enx in *. destruct f2 as [| c r]; [contradiction Hnz; reflexivity |].
    apply Hok. rewrite Efl. apply in_or_app. right. right. left. reflexivity.
  - rewrite <- Efl in Hfl. apply HQ.
    + repeat split.
    + reflexivity.
    + apply (shape_update st L); try apply Hs.
      * pose proof (shape_tags _ _ Hs) as Ht. rewrite Forall_forall in *.
        intros c Hc. destruct (tag_safe _ _ _ _ (shape_chain _ _ Hs) Hc) as (S1 & S2).
        apply (tagged_unlink (prologue st :: L) _ _ (free_listp st) fl); try assumption.
        apply Ht. exact Hc.
      * rewrite (unlink_safe (prologue st :: L) _ (free_listp st) fl); try assumption.
        -- exact (shape_epi _ _ Hs).
        -- apply (outside_safe _ _ _ _ (shape_chain _ _ Hs)). right. lia.
    + unfold free_list. st_simpl. rewrite Efl in *. rewrite remove_middle by exact Hnd'.
      apply dll_unlink; assumption.
Qed.

Lemma wp_remove_shape st L fl rest q (Q : unit -> state -> Prop) :
  heap_shape st L -> free_list st fl -> Permutation fl (frees rest) ->
  (forall d, In d rest -> In d L) -> NoDup (map bptr rest) -> In q fl ->
  (forall st', same_geo st st' -> mem st' = unlink (mem st) q ->
               heap_shape st' L -> free_list st' (remove Z.eq_dec q fl) -> Q tt st') ->
  wp (remove_freeblock q) st Q.
Proof.
  intros Hs Hfl Hp Hincl Hnd Hq HQ.
  destruct (free_list_facts _ _ _ _ Hs Hp Hincl Hnd) as (Hnd' & _ & Hl & _).
  exact (wp_remove_links st L fl q Q Hs Hfl Hnd' Hl Hq HQ).
Qed.

(** Pushing the free block [b] on the list completes the heap. *)
Lemma wp_add_final st l1 b l2 fl (Q : unit -> state -> Prop) :
  coalesce_pre st l1 b l2 fl ->
  (forall st', same_geo st st' -> heap_rep st' (l1 ++ b :: l2) (bptr b :: fl) -> Q tt st') ->
  wp (add_freeblock (bptr b)) st Q.
Proof.
  intros (Hs & Hfree & Hfl & Hp) HQ.
  pose proof (shape_chain _ _ Hs) as Hc.
  assert (Hcr : chain (mem_start_brk st + 4 + 8) (l1 ++ b :: l2) (mem_brk st - 4)).
  { simpl in Hc. apply Hc. }
  destruct (NoDup_map_remove bptr l1 b l2 (chain_NoDup_bptr _ _ _ Hcr)) as (Hnd & Hnb).
  assert (Hincl : forall d, In d (l1 ++ l2) -> In d (l1 ++ b :: l2)).
  { intros d Hd. apply in_app_or in Hd. apply in_or_app. simpl. tauto. }
  destruct (free_list_facts _ _ _ _ Hs Hp Hincl Hnd) as (Hnd' & Hal & Hl & Hok).
  assert (Hb : In b (l1 ++ b :: l2)) by apply in_elt.
  pose proof (shape_link_ok _ _ _ Hs Hb) as Hbok.
  unfold free_list in Hfl. pose proof (dll_head _ _ _ _ Hfl) as Ehead.
  assert (Hhead : free_listp st <> 0 -> In (free_listp st) fl).
  { rewrite Ehead. destruct fl; simpl; [intros H; contradiction H; reflexivity | tauto]. }
  assert (Hnotin : ~ In (bptr b) fl).
  { intros Hin. apply (Permutation_in _ Hp), In_frees in Hin.
    destruct Hin as (d & Hd & _ & E). apply (Hnb d Hd). symmetry. exact E. }
  set (L := prologue st :: l1 ++ b :: l2) in *.
  assert (HLb : links_in L [bptr b]).
  { intros q [<- | []]. exists b. split; [right; exact Hb |]. split; [| reflexivity].
    apply (shape_block _ _ _ Hs Hb). }
  assert (HLh : free_listp st <> 0 -> links_in L [free_listp st]).
  { intros Hnz q [<- | []]. destruct (Hl _ (Hhead Hnz)) as (d & Hd & Hsz & E).
    exists d. split; [right; exact Hd | split; assumption]. }
  apply wp_add_freeblock.
  - exact Hbok.
  - intros Hnz. apply Hok, Hhead, Hnz.
  - apply HQ; [repeat split |]. split; [| split].
    + apply (shape_update st (l1 ++ b :: l2)); try apply Hs.
      * pose proof (shape_tags _ _ Hs) as Ht. rewrite Forall_forall in *.
        intros c Hcin. destruct (tag_safe _ _ _ _ Hc Hcin) as (S1 & S2).
        apply (tagged_link L); try assumption. apply Ht. exact Hcin.
      * rewrite (link_safe L); try assumption.
        -- exact (shape_epi _ _ Hs).
        -- apply (outside_safe _ _ _ _ Hc). right. lia.
    + unfold free_list. st_simpl. apply dll_link; try assumption.
      destruct Hbok as (_ & _ & ? & _). assumption.
    + rewrite frees_app, frees_cons, Hfree.
      apply Permutation_cons_app. rewrite <- frees_app. exact Hp.
Qed.

Lemma valid_geo st st' p : same_geo st st' -> valid st' p = valid st p.
Proof. intros (E1 & E2 & _). unfold valid. rewrite E1, E2. reflexivity. Qed.

Lemma link_ok_geo st st' p : same_geo st st' -> link_ok st p -> link_ok st' p.
Proof. intros (E1 & E2 & _). unfold link_ok. rewrite E1, E2. tauto. Qed.

Lemma same_geo_set_mem st m : same_geo st (set_mem st m).
Proof. repeat split. Qed.

(** Writing one pair of tags over a run [mid] of adjacent blocks makes it
    one block. *)
Lemma retag_step st st' l1 mid l2 fl L h total a :
  heap_shape st (l1 ++ mid ++ l2) -> mid <> [] -> chain h mid (h + total) -> 16 <= total ->
  free_list st fl -> links_in L fl -> safe L h -> safe L (h + total - 4) ->
  same_geo st st' -> free_listp st' = free_listp st ->
  mem st' = upd (upd (mem st) h (tag (Blk h total a))) (h + total - 4) (tag (Blk h total a)) ->
  heap_shape st' (l1 ++ Blk h total a :: l2) /\ free_list st' fl.
Proof.
  intros Hs Hne Hm Htot Hfl Hl S1 S2 Hg Efl Em.
  pose proof (chain_aligned _ _ _ Hm) as Hal.
  split.
  - apply (shape_replace st st' l1 mid [Blk h total a] l2 h (h + total)); try assumption.
    + simpl. repeat split; lia.
    + intros x Hx. rewrite Em, !upd_other by lia. reflexivity.
    + constructor; [| constructor]. rewrite Em. apply tagged_put.
    + constructor; [exact Htot | constructor].
  - unfold free_list in *. rewrite Efl, Em.
    apply (dll_upd_safe L); [| assumption | assumption].
    apply (dll_upd_safe L); assumption.
Qed.


(** *** The four cases of [coalesce] *)

Lemma coalesce_AA st l1 b l2 fl :
  coalesce_pre st l1 b l2 fl ->
  prev_alloc st l1 = true -> next_alloc l2 = true ->
  wp (coalesce (bptr b)) st
     (fun r st' => r = bptr b /\ same_geo st st' /\
                   heap_rep st' (l1 ++ b :: l2) (bptr b :: fl)).
Proof.
  intros Hpre Hpa Hna. pose proof Hpre as (Hs & _).
  unfold coalesce. apply (coalesce_reads st l1 b l2); [exact Hs |].
  rewrite Hpa, Hna. change (Z.b2z true =? 0) with false. cbn [negb andb].
  apply wp_bind, wp_add_final with (l1 := l1) (l2 := l2) (fl := fl); [exact Hpre |].
  intros st' Hg Hrep. apply wp_ret. repeat split; try apply Hg; apply Hrep.
Qed.

Lemma coalesce_AF st l1 b nb l2 fl :
  coalesce_pre st l1 b (nb :: l2) fl ->
  prev_alloc st l1 = true -> balloc nb = false ->
  wp (coalesce (bptr b)) st
     (fun r st' => r = bptr b /\ same_geo st st' /\
                   heap_rep st' (l1 ++ Blk (bhdr b) (bsize b + bsize nb) false :: l2)
                            (bptr b :: remove Z.eq_dec (bptr nb) fl)).
Proof.
  intros Hpre Hpa Hna. pose proof Hpre as (Hs & Hfree & Hfl & Hp).
  unfold coalesce. apply (coalesce_reads st l1 b (nb :: l2)); [exact Hs |].
  rewrite Hpa. simpl next_alloc. rewrite Hna.
  change (Z.b2z true =? 0) with false. change (Z.b2z false =? 0) with true. cbn [negb andb].
  (* the blocks at hand *)
  assert (Hb : In b (l1 ++ b :: nb :: l2)) by apply in_elt.
  assert (Hnb : In nb (l1 ++ b :: nb :: l2)).
  { apply in_or_app. right. right. left. reflexivity. }
  destruct (shape_block _ _ _ Hs Hb) as (Hb1 & Hb2 & Hb3 & Hb4 & Hb5 & Hb6 & (Hbt1 & Hbt2)).
  destruct (shape_block _ _ _ Hs Hnb) as (Hn1 & Hn2 & Hn3 & Hn4 & Hn5 & Hn6 & (Hnt1 & Hnt2)).
  pose proof (shape_chain _ _ Hs) as Hc. simpl in Hc. destruct Hc as (_ & _ & _ & Hc).
  pose proof Hc as Hc'. apply chain_split in Hc'. destruct Hc' as (Hc1 & _ & _ & Hc2).
  unfold bend in Hc2. simpl in Hc2. destruct Hc2 as (Hnh & _ & _ & Hc2).
  pose proof (shape_max _ _ Hs) as Hmax. pose proof modulus_eq as Hmod.
  pose proof (shape_start_pos _ _ Hs) as Hsp.
  pose proof (shape_start_al _ _ Hs) as Hsa.
  destruct (NoDup_map_remove bptr l1 b (nb :: l2) (chain_NoDup_bptr _ _ _ Hc)) as (Hnd & _).
  assert (Hincl : forall d, In d (l1 ++ nb :: l2) -> In d (l1 ++ b :: nb :: l2)).
  { intros d Hd. apply in_app_or in Hd. apply in_or_app. simpl in *. tauto. }
  destruct (free_list_facts _ _ _ _ Hs Hp Hincl Hnd) as (Hnd' & _ & _ & _).
  assert (Hq : In (bptr nb) fl).
  { apply (Permutation_in _ (Permutation_sym Hp)), In_frees. exists nb.
    split; [apply in_elt | split; [exact Hna | reflexivity]]. }
  assert (Hp' : Permutation (remove Z.eq_dec (bptr nb) fl) (frees (l1 ++ l2))).
  { rewrite frees_app. apply Permutation_remove_middle; [exact Hnd' |].
    rewrite frees_app, frees_cons, Hna in Hp. exact Hp. }
  unfold HDRP, WSIZE, DSIZE, bptr in *.
  apply wp_bind, (wp_NEXT_BLKP_tag b); try lia.
  { rewrite <- Hbt1. f_equal. lia. }
  { apply valid_intro; lia. }
  apply wp_bind, (wp_GET_SIZE_tag nb); try lia.
  { rewrite <- Hnt1. f_equal. lia. }
  { apply valid_intro; lia. }
  apply wp_bind, (wp_NEXT_BLKP_tag b); try lia.
  { rewrite <- Hbt1. f_equal. lia. }
  { apply valid_intro; lia. }
  replace (bhdr b + 4 + bsize b) with (bhdr nb + 4) by lia.
  apply wp_bind, (wp_remove_shape st (l1 ++ b :: nb :: l2) fl (l1 ++ nb :: l2)); try assumption.
  intros st1 Hg1 Em1 Hs1 Hfl1.
  cbv zeta. rewrite (wrap_small (bsize b + bsize nb)) by lia.
  set (b' := Blk (bhdr b) (bsize b + bsize nb) false).
  assert (Etag : wrap (PACK (bsize b + bsize nb) 0) = tag b').
  { apply (PACK_tag _ false); lia. }
  apply wp_bind, wp_PUT.
  { rewrite (valid_geo st) by exact Hg1. apply valid_intro; lia. }
  rewrite Etag.
  apply wp_bind, (wp_FTRP_tag b'); st_simpl; try (simpl bsize; lia).
  { replace (bhdr b + 4 - 4) with (bhdr b) by lia. apply upd_same. }
  { rewrite (valid_geo st) by exact Hg1. apply valid_intro; lia. }
  apply wp_bind, wp_PUT.
  { st_simpl. rewrite (valid_geo st) by exact Hg1. simpl bsize. apply valid_intro; lia. }
  rewrite Etag. simpl bsize.
  match goal with |- wp _ ?s _ => set (st3 := s) end.
  assert (Hg3 : same_geo st st3).
  { apply (same_geo_trans _ st1); [exact Hg1 | repeat split]. }
  destruct (retag_step st1 st3 l1 [b; nb] l2 (remove Z.eq_dec (bptr nb) fl) (l1 ++ l2)
              (bhdr b) (bsize b + bsize nb) false) as (Hs3 & Hfl3); try assumption.
  - discriminate.
  - simpl. repeat split; lia.
  - lia.
  - intros q Hq'. apply (Permutation_in _ Hp'), In_frees in Hq'.
    destruct Hq' as (d & Hd & _ & ->). exists d. split; [exact Hd |]. split; [| reflexivity].
    apply (shape_block _ _ d Hs). apply in_app_or in Hd. apply in_or_app. simpl. tauto.
  - apply (inside_safe _ _ _ _ _ _ _ Hc1 Hc2). lia.
  - apply (inside_safe _ _ _ _ _ _ _ Hc1 Hc2). lia.
  - repeat split.
  - reflexivity.
  - unfold st3. st_simpl. repeat (apply upd_eq; [| lia | reflexivity]). reflexivity.
  - apply wp_bind, (wp_add_final st3 l1 b' l2 (remove Z.eq_dec (bhdr nb + 4) fl)).
    + split; [exact Hs3 |]. split; [reflexivity |]. split; [exact Hfl3 | exact Hp'].
    + intros st' Hg Hrep. apply wp_ret. split; [reflexivity |].
      split; [exact (same_geo_trans _ _ _ Hg3 Hg) | exact Hrep].
Qed.

Lemma prev_alloc_snoc st l pb : prev_alloc st (l ++ [pb]) = balloc pb.
Proof. unfold prev_alloc. rewrite last_last. reflexivity. Qed.

Lemma coalesce_FA st l1 pb b l2 fl :
  coalesce_pre st (l1 ++ [pb]) b l2 fl ->
  balloc pb = false -> next_alloc l2 = true ->
  wp (coalesce (bptr b)) st
     (fun r st' => r = bptr pb /\ same_geo st st' /\
                   heap_rep st' (l1 ++ Blk (bhdr pb) (bsize pb + bsize b) false :: l2)
                            (bptr pb :: remove Z.eq_dec (bptr pb) fl)).
Proof.
  intros Hpre Hpa Hna. pose proof Hpre as (Hs & Hfree & Hfl & Hp).
  unfold coalesce. apply (coalesce_reads st (l1 ++ [pb]) b l2); [exact Hs |].
  rewrite prev_alloc_snoc, Hpa, Hna.
  change (Z.b2z true =? 0) with false. change (Z.b2z false =? 0) with true. cbn [negb andb].
  rewrite <- app_assoc in Hs, Hp. simpl in Hs, Hp.
  (* the blocks at hand *)
  assert (Hb : In b (l1 ++ pb :: b :: l2)).
  { apply in_or_app. right. right. left. reflexivity. }
  assert (Hpb : In pb (l1 ++ pb :: b :: l2)) by apply in_elt.
  destruct (shape_block _ _ _ Hs Hb) as (Hb1 & Hb2 & Hb3 & Hb4 & Hb5 & Hb6 & (Hbt1 & Hbt2)).
  destruct (shape_block _ _ _ Hs Hpb) as (Hn1 & Hn2 & Hn3 & Hn4 & Hn5 & Hn6 & (Hnt1 & Hnt2)).
  pose proof (shape_chain _ _ Hs) as Hc. simpl in Hc. destruct Hc as (_ & _ & _ & Hc).
  pose proof Hc as Hc'. apply chain_split in Hc'. destruct Hc' as (Hc1 & _ & _ & Hc2).
  unfold bend in Hc2. simpl in Hc2. destruct Hc2 as (Hnh & _ & _ & Hc2).
  pose proof (shape_max _ _ Hs) as Hmax. pose proof modulus_eq as Hmod.
  pose proof (shape_start_pos _ _ Hs) as Hsp.
  pose proof (shape_start_al _ _ Hs) as Hsa.
  assert (Hnd : NoDup (map bptr (l1 ++ pb :: l2))).
  { pose proof (chain_NoDup_bptr _ _ _ Hc) as H.
    change (l1 ++ pb :: b :: l2) with (l1 ++ [pb] ++ b :: l2) in H.
    rewrite app_assoc in H. apply NoDup_map_remove in H. rewrite <- app_assoc in H. apply H. }
  assert (Hincl : forall d, In d (l1 ++ pb :: l2) -> In d (l1 ++ pb :: b :: l2)).
  { intros d Hd. apply in_app_or in Hd. apply in_or_app. simpl in *. tauto. }
  destruct (free_list_facts _ _ _ _ Hs Hp Hincl Hnd) as (Hnd' & _ & _ & _).
  assert (Hq : In (bptr pb) fl).
  { apply (Permutation_in _ (Permutation_sym Hp)), In_frees. exists pb.
    split; [apply in_elt | split; [exact Hpa | reflexivity]]. }
  assert (Hp' : Permutation (remove Z.eq_dec (bptr pb) fl) (frees (l1 ++ l2))).
  { rewrite frees_app. apply Permutation_remove_middle; [exact Hnd' |].
    rewrite frees_app, frees_cons, Hpa in Hp. exact Hp. }
  unfold HDRP, WSIZE, DSIZE, bptr, bftr in *.
  apply wp_bind, (wp_PREV_BLKP_tag pb); try lia.
  { rewrite <- Hnt2. f_equal. lia. }
  { apply valid_intro; lia. }
  apply wp_bind, (wp_GET_SIZE_tag pb); try lia.
  { rewrite <- Hnt1. f_equal. lia. }
  { apply valid_intro; lia. }
  apply wp_bind, (wp_PREV_BLKP_tag pb); try lia.
  { rewrite <- Hnt2. f_equal. lia. }
  { apply valid_intro; lia. }
  replace (bhdr b + 4 - bsize pb) with (bhdr pb + 4) by lia.
  apply wp_bind, (wp_remove_shape st (l1 ++ pb :: b :: l2) fl (l1 ++ pb :: l2)); try assumption.
  intros st1 Hg1 Em1 Hs1 Hfl1.
  destruct (shape_block _ _ _ Hs1 Hb) as (_ & _ & _ & _ & _ & _ & (Hbt1' & Hbt2')).
  destruct (shape_block _ _ _ Hs1 Hpb) as (_ & _ & _ & _ & _ & _ & (Hnt1' & Hnt2')).
  unfold bftr in *.
  cbv zeta. rewrite (wrap_small (bsize b + bsize pb)) by lia.
  replace (bsize b + bsize pb) with (bsize pb + bsize b) by lia.
  set (b' := Blk (bhdr pb) (bsize pb + bsize b) false).
  assert (Etag : wrap (PACK (bsize pb + bsize b) 0) = tag b').
  { apply (PACK_tag _ false); lia. }
  apply wp_bind, (wp_PREV_BLKP_tag pb); try lia.
  { rewrite <- Hnt2'. f_equal. lia. }
  { rewrite (valid_geo st) by exact Hg1. apply valid_intro; lia. }
  apply wp_bind, wp_PUT.
  { rewrite (valid_geo st) by exact Hg1. apply valid_intro; lia. }
  rewrite Etag.
  apply wp_bind, (wp_FTRP_tag b); st_simpl; try lia.
  { rewrite upd_other by lia. rewrite <- Hbt1'. f_equal. lia. }
  { rewrite (valid_geo st) by exact Hg1. apply valid_intro; lia. }
  apply wp_bind, wp_PUT.
  { st_simpl. rewrite (valid_geo st) by exact Hg1. apply valid_intro; lia. }
  rewrite Etag.
  apply wp_bind, (wp_PREV_BLKP_tag pb); st_simpl; try lia.
  { rewrite !upd_other by lia. rewrite <- Hnt2'. f_equal. lia. }
  { rewrite (valid_geo st) by exact Hg1. apply valid_intro; lia. }
  replace (bhdr b + 4 - bsize pb) with (bhdr pb + 4) by lia.
  match goal with |- wp _ ?s _ => set (st3 := s) end.
  assert (Hg3 : same_geo st st3).
  { apply (same_geo_trans _ st1); [exact Hg1 | repeat split]. }
  destruct (retag_step st1 st3 l1 [pb; b] l2 (remove Z.eq_dec (bhdr pb + 4) fl) (l1 ++ l2)
              (bhdr pb) (bsize pb + bsize b) false) as (Hs3 & Hfl3); try assumption.
  - discriminate.
  - simpl. repeat split; lia.
  - lia.
  - intros q Hq'. apply (Permutation_in _ Hp'), In_frees in Hq'.
    destruct Hq' as (d & Hd & _ & ->). exists d. split; [exact Hd |]. split; [| reflexivity].
    apply (shape_block _ _ d Hs). apply in_app_or in Hd. apply in_or_app. simpl. tauto.
  - apply (inside_safe _ _ _ _ _ _ _ Hc1 Hc2). lia.
  - apply (inside_safe _ _ _ _ _ _ _ Hc1 Hc2). lia.
  - repeat split.
  - reflexivity.
  - unfold st3. st_simpl. repeat (apply upd_eq; [| lia | reflexivity]). reflexivity.
  - apply wp_bind, (wp_add_final st3 l1 b' l2 (remove Z.eq_dec (bhdr pb + 4) fl)).
    + split; [exact Hs3 |]. split; [reflexivity |]. split; [exact Hfl3 | exact Hp'].
    + intros st' Hg Hrep. apply wp_ret. split; [reflexivity |].
      split; [exact (same_geo_trans _ _ _ Hg3 Hg) | exact Hrep].
Qed.

Lemma coalesce_FF st l1 pb b nb l2 fl :
  coalesce_pre st (l1 ++ [pb]) b (nb :: l2) fl ->
  balloc pb = false -> balloc nb = false ->
  wp (coalesce (bptr b)) st
     (fun r st' => r = bptr pb /\ same_geo st st' /\
                   heap_rep st'
                     (l1 ++ Blk (bhdr pb) (bsize pb + bsize b + bsize nb) false :: l2)
                     (bptr pb :: remove Z.eq_dec (bptr nb) (remove Z.eq_dec (bptr pb) fl))).
Proof.
  intros Hpre Hpa Hna. pose proof Hpre as (Hs & Hfree & Hfl & Hp).
  unfold coalesce. apply (coalesce_reads st (l1 ++ [pb]) b (nb :: l2)); [exact Hs |].
  rewrite prev_alloc_snoc, Hpa. simpl next_alloc. rewrite Hna.
  change (Z.b2z false =? 0) with true. cbn [negb andb].
  rewrite <- app_assoc in Hs, Hp. simpl in Hs, Hp.
  (* the blocks at hand *)
  assert (Hb : In b (l1 ++ pb :: b :: nb :: l2)).
  { apply in_or_app. right. right. left. reflexivity. }
  assert (Hpb : In pb (l1 ++ pb :: b :: nb :: l2)) by apply in_elt.
  assert (Hnb : In nb (l1 ++ pb :: b :: nb :: l2)).
  { apply in_or_app. right. right. right. left. reflexivity. }
  destruct (shape_block _ _ _ Hs Hb) as (Hb1 & Hb2 & Hb3 & Hb4 & Hb5 & Hb6 & (Hbt1 & Hbt2)).
  destruct (shape_block _ _ _ Hs Hpb) as (Hp1 & Hp2 & Hp3 & Hp4 & Hp5 & Hp6 & (Hpt1 & Hpt2)).
  destruct (shape_block _ _ _ Hs Hnb) as (Hn1 & Hn2 & Hn3 & Hn4 & Hn5 & Hn6 & (Hnt1 & Hnt2)).
  pose proof (shape_chain _ _ Hs) as Hc. simpl in Hc. destruct Hc as (_ & _ & _ & Hc).
  pose proof Hc as Hc'. apply chain_split in Hc'. destruct Hc' as (Hc1 & _ & _ & Hc2).
  unfold bend in Hc2. simpl in Hc2. destruct Hc2 as (Hbh & _ & _ & Hnh & _ & _ & Hc2).
  pose proof (shape_max _ _ Hs) as Hmax. pose proof modulus_eq as Hmod.
  pose proof (shape_start_pos _ _ Hs) as Hsp.
  pose proof (shape_start_al _ _ Hs) as Hsa.
  assert (Hnd : NoDup (map bptr (l1 ++ pb :: nb :: l2))).
  { pose proof (chain_NoDup_bptr _ _ _ Hc) as H.
    change (l1 ++ pb :: b :: nb :: l2) with (l1 ++ [pb] ++ b :: nb :: l2) in H.
    rewrite app_assoc in H. apply NoDup_map_remove in H. rewrite <- app_assoc in H. apply H. }
  assert (Hnd1 : NoDup (map bptr (l1 ++ nb :: l2))).
  { apply NoDup_map_remove in Hnd. apply Hnd. }
  assert (Hincl : forall d, In d (l1 ++ pb :: nb :: l2) -> In d (l1 ++ pb :: b :: nb :: l2)).
  { intros d Hd. apply in_app_or in Hd. apply in_or_app. simpl in *. tauto. }
  assert (Hincl1 : forall d, In d (l1 ++ nb :: l2) -> In d (l1 ++ pb :: b :: nb :: l2)).
  { intros d Hd. apply in_app_or in Hd. apply in_or_app. simpl in *. tauto. }
  destruct (free_list_facts _ _ _ _ Hs Hp Hincl Hnd) as (Hnd' & _ & _ & _).
  assert (Hq : In (bptr pb) fl).
  { apply (Permutation_in _ (Permutation_sym Hp)), In_frees. exists pb.
    split; [apply in_elt | split; [exact Hpa | reflexivity]]. }
  assert (Hp1' : Permutation (remove Z.eq_dec (bptr pb) fl) (frees (l1 ++ nb :: l2))).
  { rewrite frees_app. apply Permutation_remove_middle; [exact Hnd' |].
    rewrite frees_app, frees_cons, Hpa in Hp. exact Hp. }
  assert (Hq1 : In (bptr nb) (remove Z.eq_dec (bptr pb) fl)).
  { apply (Permutation_in _ (Permutation_sym Hp1')), In_frees. exists nb.
    split; [apply in_elt | split; [exact Hna | reflexivity]]. }
  assert (Hnd1' : NoDup (remove Z.eq_dec (bptr pb) fl)).
  { apply (Permutation_NoDup (Permutation_sym Hp1')). apply NoDup_map_filter. exact Hnd1. }
  assert (Hp' : Permutation (remove Z.eq_dec (bptr nb) (remove Z.eq_dec (bptr pb) fl))
                            (frees (l1 ++ l2))).
  { rewrite frees_app. apply Permutation_remove_middle; [exact Hnd1' |].
    rewrite frees_app, frees_cons, Hna in Hp1'. exact Hp1'. }
  unfold HDRP, WSIZE, DSIZE, bptr, bftr in *.
  apply wp_bind, (wp_PREV_BLKP_tag pb); try lia.
  { rewrite <- Hpt2. f_equal. lia. }
  { apply valid_intro; lia. }
  apply wp_bind, (wp_GET_SIZE_tag pb); try lia.
  { rewrite <- Hpt1. f_equal. lia. }
  { apply valid_intro; lia. }
  apply wp_bind, (wp_NEXT_BLKP_tag b); try lia.
  { rewrite <- Hbt1. f_equal. lia. }
  { apply valid_intro; lia. }
  apply wp_bind, (wp_FTRP_tag nb); try lia.
  { rewrite <- Hnt1. f_equal. lia. }
  { apply valid_intro; lia. }
  apply wp_bind, (wp_GET_SIZE_tag nb); try lia.
  { rewrite <- Hnt2. f_equal. lia. }
  { apply valid_intro; lia. }
  apply wp_bind, (wp_PREV_BLKP_tag pb); try lia.
  { rewrite <- Hpt2. f_equal. lia. }
  { apply valid_intro; lia. }
  replace (bhdr b + 4 - bsize pb) with (bhdr pb + 4) by lia.
  apply wp_bind, (wp_remove_shape st (l1 ++ pb :: b :: nb :: l2) fl (l1 ++ pb :: nb :: l2));
    try assumption.
  intros st1 Hg1 Em1 Hs1 Hfl1.
  destruct (shape_block _ _ _ Hs1 Hb) as (_ & _ & _ & _ & _ & _ & (Hbt1' & Hbt2')).
  apply wp_bind, (wp_NEXT_BLKP_tag b); try lia.
  { rewrite <- Hbt1'. f_equal. lia. }
  { rewrite (valid_geo st) by exact Hg1. apply valid_intro; lia. }
  replace (bhdr b + 4 + bsize b) with (bhdr nb + 4) by lia.
  apply wp_bind, (wp_remove_shape st1 (l1 ++ pb :: b :: nb :: l2)
                    (remove Z.eq_dec (bhdr pb + 4) fl) (l1 ++ nb :: l2)); try assumption.
  intros st2 Hg2 Em2 Hs2 Hfl2.
  pose proof (same_geo_trans _ _ _ Hg1 Hg2) as Hg12.
  clear Hbt1' Hbt2'.
  destruct (shape_block _ _ _ Hs2 Hb) as (_ & _ & _ & _ & _ & _ & (Hbt1' & Hbt2')).
  destruct (shape_block _ _ _ Hs2 Hpb) as (_ & _ & _ & _ & _ & _ & (Hpt1' & Hpt2')).
  destruct (shape_block _ _ _ Hs2 Hnb) as (_ & _ & _ & _ & _ & _ & (Hnt1' & Hnt2')).
  unfold bftr in *.
  cbv zeta. rewrite (wrap_small (bsize pb + bsize nb)) by lia.
  rewrite (wrap_small (bsize b + (bsize pb + bsize nb))) by lia.
  replace (bsize b + (bsize pb + bsize nb)) with (bsize pb + bsize b + bsize nb) by lia.
  set (b' := Blk (bhdr pb) (bsize pb + bsize b + bsize nb) false).
  assert (Etag : wrap (PACK (bsize pb + bsize b + bsize nb) 0) = tag b').
  { apply (PACK_tag _ false); lia. }
  apply wp_bind, (wp_PREV_BLKP_tag pb); try lia.
  { rewrite <- Hpt2'. f_equal. lia. }
  { rewrite (valid_geo st) by exact Hg12. apply valid_intro; lia. }
  apply wp_bind, wp_PUT.
  { rewrite (valid_geo st) by exact Hg12. apply valid_intro; lia. }
  rewrite Etag.
  apply wp_bind, (wp_NEXT_BLKP_tag b); st_simpl; try lia.
  { rewrite upd_other by lia. rewrite <- Hbt1'. f_equal. lia. }
  { rewrite (valid_geo st) by exact Hg12. apply valid_intro; lia. }
  apply wp_bind, (wp_FTRP_tag nb); st_simpl; try lia.
  { rewrite upd_other by lia. rewrite <- Hnt1'. f_equal. lia. }
  { rewrite (valid_geo st) by exact Hg12. apply valid_intro; lia. }
  apply wp_bind, wp_PUT.
  { st_simpl. rewrite (valid_geo st) by exact Hg12. apply valid_intro; lia. }
  rewrite Etag.
  apply wp_bind, (wp_PREV_BLKP_tag pb); st_simpl; try lia.
  { rewrite !upd_other by lia. rewrite <- Hpt2'. f_equal. lia. }
  { rewrite (valid_geo st) by exact Hg12. apply valid_intro; lia. }
  replace (bhdr b + 4 - bsize pb) with (bhdr pb + 4) by lia.
  match goal with |- wp _ ?s _ => set (st3 := s) end.
  assert (Hg3 : same_geo st st3).
  { apply (same_geo_trans _ st2); [exact Hg12 | repeat split]. }
  destruct (retag_step st2 st3 l1 [pb; b; nb] l2
              (remove Z.eq_dec (bhdr nb + 4) (remove Z.eq_dec (bhdr pb + 4) fl)) (l1 ++ l2)
              (bhdr pb) (bsize pb + bsize b + bsize nb) false) as (Hs3 & Hfl3); try assumption.
  - discriminate.
  - simpl. repeat split; lia.
  - lia.
  - intros q Hq'. apply (Permutation_in _ Hp'), In_frees in Hq'.
    destruct Hq' as (d & Hd & _ & ->). exists d. split; [exact Hd |]. split; [| reflexivity].
    apply (shape_block _ _ d Hs). apply in_app_or in Hd. apply in_or_app. simpl. tauto.
  - apply (inside_safe _ _ _ _ _ _ _ Hc1 Hc2). lia.
  - apply (inside_safe _ _ _ _ _ _ _ Hc1 Hc2). lia.
  - repeat split.
  - reflexivity.
  - unfold st3. st_simpl. repeat (apply upd_eq; [| lia | reflexivity]). reflexivity.
  - apply wp_bind, (wp_add_final st3 l1 b' l2
                      (remove Z.eq_dec (bhdr nb + 4) (remove Z.eq_dec (bhdr pb + 4) fl))).
    + split; [exact Hs3 |]. split; [reflexivity |]. split; [exact Hfl3 | exact Hp'].
    + intros st' Hg Hrep. apply wp_ret. split; [reflexivity |].
      split; [exact (same_geo_trans _ _ _ Hg3 Hg) | exact Hrep].
Qed.

(** ** Coalescing, whatever the neighbours *)

Lemma allocated_free_cons b l : balloc b = false -> allocated (b :: l) = allocated l.
Proof. intros H. rewrite allocated_cons, H. reflexivity. Qed.

Lemma allocated_skip l1 b l2 :
  balloc b = false -> allocated (l1 ++ b :: l2) = allocated (l1 ++ l2).
Proof. intros H. rewrite !allocated_app, allocated_free_cons by exact H. reflexivity. Qed.

Lemma coalesce_any st l1 b l2 fl :
  coalesce_pre st l1 b l2 fl ->
  wp (coalesce (bptr b)) st
     (fun r st' =>
        same_geo st st' /\
        exists l1' b' l2' fl',
          heap_rep st' (l1' ++ b' :: l2') (r :: fl') /\ r = bptr b' /\
          balloc b' = false /\ bsize b <= bsize b' /\
          allocated (l1' ++ b' :: l2') = allocated (l1 ++ l2)).
Proof.
  intros Hpre. pose proof Hpre as (Hs & Hfree & Hfl & Hp).
  destruct (shape_prev _ _ _ _ Hs) as (_ & _ & Hps & _ & _ & Hpl).
  fold (prev_alloc st l1) in Hpl.
  destruct (prev_alloc st l1) eqn:Epa; destruct l2 as [| nb l2].
  - eapply wp_mono; [apply coalesce_AA; [exact Hpre | exact Epa | reflexivity] |].
    intros r st' (-> & Hg & Hrep). split; [exact Hg |].
    exists l1, b, [], fl. repeat split; try apply Hrep; try assumption; try lia.
    apply allocated_skip. exact Hfree.
  - destruct (balloc nb) eqn:Ena.
    + eapply wp_mono; [apply coalesce_AA; [exact Hpre | exact Epa | exact Ena] |].
      intros r st' (-> & Hg & Hrep). split; [exact Hg |].
      exists l1, b, (nb :: l2), fl. repeat split; try apply Hrep; try assumption; try lia.
      apply allocated_skip. exact Hfree.
    + eapply wp_mono; [apply coalesce_AF; [exact Hpre | exact Epa | exact Ena] |].
      intros r st' (-> & Hg & Hrep). split; [exact Hg |].
      assert (16 <= bsize nb).
      { apply (shape_block _ _ nb Hs). apply in_or_app. right. right. left. reflexivity. }
      exists l1, (Blk (bhdr b) (bsize b + bsize nb) false), l2,
        (remove Z.eq_dec (bptr nb) fl).
      repeat split; try apply Hrep; simpl; try lia.
      rewrite allocated_skip by reflexivity.
      rewrite !allocated_app, allocated_free_cons by exact Ena. reflexivity.
  - destruct (Hpl eq_refl) as (l1' & El). set (pb := last l1 (prologue st)) in *.
    assert (Hpb : balloc pb = false) by exact Epa.
    clearbody pb. subst l1.
    eapply wp_mono; [apply coalesce_FA; [exact Hpre | exact Hpb | reflexivity] |].
    intros r st' (-> & Hg & Hrep). split; [exact Hg |].
    exists l1', (Blk (bhdr pb) (bsize pb + bsize b) false), [],
      (remove Z.eq_dec (bptr pb) fl).
    repeat split; try apply Hrep; simpl; try lia.
    rewrite allocated_skip by reflexivity. rewrite <- app_assoc. simpl.
    rewrite (allocated_skip l1' pb) by exact Hpb. reflexivity.
  - destruct (Hpl eq_refl) as (l1' & El). set (pb := last l1 (prologue st)) in *.
    assert (Hpb : balloc pb = false) by exact Epa.
    clearbody pb. subst l1.
    destruct (balloc nb) eqn:Ena.
    + eapply wp_mono; [apply coalesce_FA; [exact Hpre | exact Hpb | exact Ena] |].
      intros r st' (-> & Hg & Hrep). split; [exact Hg |].
      exists l1', (Blk (bhdr pb) (bsize pb + bsize b) false), (nb :: l2),
        (remove Z.eq_dec (bptr pb) fl).
      repeat split; try apply Hrep; simpl; try lia.
      rewrite allocated_skip by reflexivity. rewrite <- app_assoc. simpl.
      rewrite (allocated_skip l1' pb) by exact Hpb. reflexivity.
    + eapply wp_mono; [apply coalesce_FF; [exact Hpre | exact Hpb | exact Ena] |].
      intros r st' (-> & Hg & Hrep). split; [exact Hg |].
      assert (16 <= bsize nb).
      { apply (shape_block _ _ nb Hs). apply in_or_app. right. right. left. reflexivity. }
      exists l1', (Blk (bhdr pb) (bsize pb + bsize b + bsize nb) false), l2,
        (remove Z.eq_dec (bptr nb) (remove Z.eq_dec (bptr pb) fl)).
      repeat split; try apply Hrep; simpl; try lia.
      rewrite allocated_skip by reflexivity. rewrite <- app_assoc. simpl.
      rewrite (allocated_skip l1' pb) by exact Hpb.
      rewrite !allocated_app, allocated_free_cons by exact Ena. reflexivity.
Qed.

(** ** Freeing a block *)

Lemma rep_links_in st bl fl : heap_rep st bl fl -> links_in bl fl.
Proof.
  intros (Hs & _ & Hp) q Hq. apply (shape_links_in _ _ Hs), (Permutation_in _ Hp), Hq.
Qed.

Lemma shape_chain_blocks st bl :
  heap_shape st bl -> chain (mem_start_brk st + 12) bl (mem_brk st - 4).
Proof.
  intros Hs. pose proof (shape_chain _ _ Hs) as Hc. simpl in Hc.
  destruct Hc as (_ & _ & _ & Hc).
  replace (mem_start_brk st + 12) with (mem_start_brk st + 4 + 8) by lia. exact Hc.
Qed.

(** [mm_free] marks the block free and hands it to [coalesce]. *)
Lemma mm_free_reduce st l1 b l2 fl (Q : unit -> state -> Prop) :
  heap_rep st (l1 ++ b :: l2) fl -> balloc b = true ->
  (forall st2, same_geo st st2 ->
               coalesce_pre st2 l1 (Blk (bhdr b) (bsize b) false) l2 fl ->
               wp (coalesce (bptr b)) st2 (fun _ st' => Q tt st')) ->
  wp (mm_free (bptr b)) st Q.
Proof.
  intros Hrep Hal HQ. pose proof Hrep as (Hs & Hfl & Hp).
  assert (Hb : In b (l1 ++ b :: l2)) by apply in_elt.
  destruct (shape_block _ _ _ Hs Hb) as (Hb1 & Hb2 & Hb3 & Hb4 & Hb5 & Hb6 & (Hbt1 & Hbt2)).
  pose proof (shape_max _ _ Hs) as Hmax. pose proof modulus_eq as Hmod.
  pose proof (shape_start_pos _ _ Hs) as Hsp.
  pose proof (shape_start_al _ _ Hs) as Hsa.
  pose proof (shape_heap_listp _ _ Hs) as Hhl.
  pose proof (shape_chain_blocks _ _ Hs) as Hc.
  destruct (tag_safe _ _ _ _ Hc Hb) as (S1 & S2).
  unfold mm_free. apply wp_bind, wp_gets.
  unfold NULL, HDRP, WSIZE, DSIZE, bptr, bftr in *.
  rewrite (proj2 (Z.eqb_neq (bhdr b + 4) 0)) by lia.
  rewrite (proj2 (Z.eqb_neq (heap_listp st) 0)) by lia.
  cbn [orb].
  apply wp_bind, (wp_GET_SIZE_tag b); try lia.
  { rewrite <- Hbt1. f_equal. lia. }
  { apply valid_intro; lia. }
  set (b0 := Blk (bhdr b) (bsize b) false).
  assert (Etag : wrap (PACK (bsize b) 0) = tag b0).
  { apply (PACK_tag _ false); lia. }
  apply wp_bind, wp_PUT.
  { apply valid_intro; lia. }
  rewrite Etag.
  apply wp_bind, (wp_FTRP_tag b0); st_simpl; try (simpl bsize; lia).
  { replace (bhdr b + 4 - 4) with (bhdr b) by lia. apply upd_same. }
  { apply valid_intro; st_simpl; lia. }
  apply wp_bind, wp_PUT.
  { simpl bsize. apply valid_intro; st_simpl; lia. }
  rewrite Etag. simpl bsize.
  match goal with |- wp _ ?s _ => set (st2 := s) end.
  destruct (retag_step st st2 l1 [b] l2 fl (l1 ++ b :: l2) (bhdr b) (bsize b) false)
    as (Hs2 & Hfl2); try assumption.
  - discriminate.
  - simpl. repeat split; lia.
  - exact (rep_links_in _ _ _ Hrep).
  - repeat split.
  - reflexivity.
  - unfold st2. st_simpl. repeat (apply upd_eq; [| lia | reflexivity]). reflexivity.
  - apply wp_bind. eapply wp_mono.
    + apply (HQ st2); [repeat split |].
      split; [exact Hs2 |]. split; [reflexivity |]. split; [exact Hfl2 |].
      rewrite frees_app, frees_cons, Hal, <- frees_app in Hp. exact Hp.
    + intros r st' H. apply wp_ret. exact H.
Qed.

Lemma mm_free_spec st l1 b l2 fl :
  heap_rep st (l1 ++ b :: l2) fl -> balloc b = true ->
  wp (mm_free (bptr b)) st
     (fun _ st' =>
        same_geo st st' /\
        exists l1' b' l2' fl',
          heap_rep st' (l1' ++ b' :: l2') (bptr b' :: fl') /\ balloc b' = false /\
          allocated (l1' ++ b' :: l2') = allocated (l1 ++ l2)).
Proof.
  intros Hrep Hal. apply (mm_free_reduce st l1 b l2 fl); [exact Hrep | exact Hal |].
  intros st2 Hg Hpre. eapply wp_mono; [exact (coalesce_any _ _ _ _ _ Hpre) |].
  intros r st' (Hg' & l1' & b' & l2' & fl' & H1 & -> & H3 & _ & H5).
  split; [exact (same_geo_trans _ _ _ Hg Hg') |].
  exists l1', b', l2', fl'. split; [exact H1 |]. split; [exact H3 | exact H5].
Qed.

(** ** Placing a request in a free block *)

(** Writing two pairs of tags inside a block splits it. *)
Lemma split_step st st' l1 b l2 fl asz :
  heap_shape st (l1 ++ b :: l2) -> 16 <= asz -> asz mod 8 = 0 -> 16 <= bsize b - asz ->
  free_list st fl -> links_in (l1 ++ l2) fl ->
  same_geo st st' -> free_listp st' = free_listp st ->
  let b1 := Blk (bhdr b) asz true in
  let b2 := Blk (bhdr b + asz) (bsize b - asz) false in
  mem st' = upd (upd (upd (upd (mem st) (bhdr b) (tag b1)) (bhdr b + asz - 4) (tag b1))
                     (bhdr b + asz) (tag b2)) (bhdr b + bsize b - 4) (tag b2) ->
  heap_shape st' (l1 ++ b1 :: b2 :: l2) /\ free_list st' fl.
Proof.
  intros Hs Ha1 Ha2 Ha3 Hfl Hl Hg Efl b1 b2 Em.
  assert (Hb : In b (l1 ++ b :: l2)) by apply in_elt.
  destruct (shape_block _ _ _ Hs Hb) as (Hb1 & Hb2 & Hb3 & Hb4 & Hb5 & Hb6 & _).
  pose proof (shape_chain_blocks _ _ Hs) as Hc.
  apply chain_split in Hc. destruct Hc as (Hc1 & _ & _ & Hc2). unfold bend in Hc2.
  split.
  - apply (shape_replace st st' l1 [b] [b1; b2] l2 (bhdr b) (bhdr b + bsize b)); try assumption.
    + discriminate.
    + simpl. repeat split; lia.
    + simpl. repeat split; lia.
    + intros x Hx. rewrite Em, !upd_other by lia. reflexivity.
    + constructor; [| constructor; [| constructor]]; rewrite Em; unfold tagged, bftr; simpl.
      * split; repeat (rewrite upd_other by lia); apply upd_same.
      * replace (bhdr b + asz + (bsize b - asz) - 4) with (bhdr b + bsize b - 4) by lia.
        split; repeat (rewrite upd_other by lia); apply upd_same.
    + constructor; [simpl; lia | constructor; [simpl; lia | constructor]].
  - unfold free_list in *. rewrite Efl, Em.
    repeat (apply (dll_upd_safe (l1 ++ l2)); [| exact Hl |
              apply (inside_safe _ _ _ _ _ _ _ Hc1 Hc2); lia]).
    exact Hfl.
Qed.

Lemma place_split st l1 b l2 fl asz :
  heap_rep st (l1 ++ b :: l2) fl -> balloc b = false ->
  16 <= asz -> asz mod 8 = 0 -> 16 <= bsize b - asz ->
  wp (place (bptr b) asz) st
     (fun _ st' =>
        same_geo st st' /\
        heap_rep st'
          (l1 ++ Blk (bhdr b) asz true :: Blk (bhdr b + asz) (bsize b - asz) false :: l2)
          (bptr b + asz :: remove Z.eq_dec (bptr b) fl)).
Proof.
  intros Hrep Hfree Ha1 Ha2 Ha3. pose proof Hrep as (Hs & Hfl & Hp).
  assert (Hb : In b (l1 ++ b :: l2)) by apply in_elt.
  destruct (shape_block _ _ _ Hs Hb) as (Hb1 & Hb2 & Hb3 & Hb4 & Hb5 & Hb6 & (Hbt1 & Hbt2)).
  pose proof (shape_max _ _ Hs) as Hmax. pose proof modulus_eq as Hmod.
  pose proof (shape_start_pos _ _ Hs) as Hsp.
  pose proof (shape_start_al _ _ Hs) as Hsa.
  pose proof (shape_chain_blocks _ _ Hs) as Hc.
  pose proof (chain_NoDup_bptr _ _ _ Hc) as Hnd.
  assert (Hincl : forall d, In d (l1 ++ b :: l2) -> In d (l1 ++ b :: l2)) by auto.
  destruct (free_list_facts _ _ _ _ Hs Hp Hincl Hnd) as (Hnd' & _ & _ & _).
  assert (Hq : In (bptr b) fl).
  { apply (Permutation_in _ (Permutation_sym Hp)), In_frees. exists b.
    split; [apply in_elt | split; [exact Hfree | reflexivity]]. }
  assert (Hp' : Permutation (remove Z.eq_dec (bptr b) fl) (frees (l1 ++ l2))).
  { rewrite frees_app. apply Permutation_remove_middle; [exact Hnd' |].
    rewrite frees_app, frees_cons, Hfree in Hp. exact Hp. }
  unfold place, HDRP, WSIZE, DSIZE, MINIMUM, bptr, bftr in *.
  apply wp_bind, (wp_GET_SIZE_tag b); try lia.
  { rewrite <- Hbt1. f_equal. lia. }
  { apply valid_intro; lia. }
  rewrite (wrap_small (bsize b - asz)) by lia.
  rewrite (proj2 (Z.geb_le _ _)) by lia.
  apply wp_bind, (wp_remove_shape st (l1 ++ b :: l2) fl (l1 ++ b :: l2)); try assumption.
  intros st1 Hg1 Em1 Hs1 Hfl1.
  set (b1 := Blk (bhdr b) asz true).
  set (b2 := Blk (bhdr b + asz) (bsize b - asz) false).
  assert (Etag1 : wrap (PACK asz 1) = tag b1) by (apply (PACK_tag _ true); lia).
  assert (Etag2 : wrap (PACK (bsize b - asz) 0) = tag b2) by (apply (PACK_tag _ false); lia).
  apply wp_bind, wp_PUT.
  { rewrite (valid_geo st) by exact Hg1. apply valid_intro; lia. }
  rewrite Etag1.
  apply wp_bind, (wp_FTRP_tag b1); st_simpl; try (simpl bsize; lia).
  { replace (bhdr b + 4 - 4) with (bhdr b) by lia. apply upd_same. }
  { rewrite (valid_geo st) by exact Hg1. apply valid_intro; lia. }
  apply wp_bind, wp_PUT.
  { rewrite (valid_geo st) by exact Hg1. simpl bsize. apply valid_intro; lia. }
  rewrite Etag1. simpl bsize.
  apply wp_bind, (wp_NEXT_BLKP_tag b1); st_simpl; try (simpl bsize; lia).
  { rewrite upd_other by lia. replace (bhdr b + 4 - 4) with (bhdr b) by lia. apply upd_same. }
  { rewrite (valid_geo st) by exact Hg1. apply valid_intro; lia. }
  simpl bsize.
  apply wp_bind, wp_PUT.
  { rewrite (valid_geo st) by exact Hg1. apply valid_intro; lia. }
  rewrite Etag2.
  apply wp_bind, (wp_FTRP_tag b2); st_simpl; try (simpl bsize; lia).
  { apply upd_same. }
  { rewrite (valid_geo st) by exact Hg1. apply valid_intro; lia. }
  apply wp_bind, wp_PUT.
  { rewrite (valid_geo st) by exact Hg1. simpl bsize. apply valid_intro; lia. }
  rewrite Etag2. simpl bsize.
  match goal with |- wp _ ?s _ => set (st3 := s) end.
  assert (Hg3 : same_geo st st3).
  { apply (same_geo_trans _ st1); [exact Hg1 | repeat split]. }
  destruct (split_step st1 st3 l1 b l2 (remove Z.eq_dec (bhdr b + 4) fl) asz)
    as (Hs3 & Hfl3); try assumption.
  - intros q Hq'. apply (Permutation_in _ Hp'), In_frees in Hq'.
    destruct Hq' as (d & Hd & _ & ->). exists d. split; [exact Hd |]. split; [| reflexivity].
    apply (shape_block _ _ d Hs). apply in_app_or in Hd. apply in_or_app. simpl. tauto.
  - repeat split.
  - reflexivity.
  - unfold st3. st_simpl. repeat (apply upd_eq; [| lia | reflexivity]). reflexivity.
  - replace (bhdr b + 4 + asz) with (bptr b2) by (unfold bptr; simpl; lia).
    apply (wp_add_final st3 (l1 ++ [b1]) b2 l2 (remove Z.eq_dec (bhdr b + 4) fl)).
    + split; [rewrite <- app_assoc; exact Hs3 |]. split; [reflexivity |].
      split; [exact Hfl3 |].
      rewrite <- app_assoc. simpl. rewrite frees_app, frees_cons. simpl.
      rewrite <- frees_app. exact Hp'.
    + intros st' Hg Hrep'. split; [exact (same_geo_trans _ _ _ Hg3 Hg) |].
      rewrite <- app_assoc in Hrep'. exact Hrep'.
Qed.

Lemma place_whole st l1 b l2 fl asz :
  heap_rep st (l1 ++ b :: l2) fl -> balloc b = false ->
  0 <= asz <= bsize b -> bsize b - asz < 16 ->
  wp (place (bptr b) asz) st
     (fun _ st' =>
        same_geo st st' /\
        heap_rep st' (l1 ++ Blk (bhdr b) (bsize b) true :: l2)
                 (remove Z.eq_dec (bptr b) fl)).
Proof.
  intros Hrep Hfree Ha1 Ha3. pose proof Hrep as (Hs & Hfl & Hp).
  assert (Hb : In b (l1 ++ b :: l2)) by apply in_elt.
  destruct (shape_block _ _ _ Hs Hb) as (Hb1 & Hb2 & Hb3 & Hb4 & Hb5 & Hb6 & (Hbt1 & Hbt2)).
  pose proof (shape_max _ _ Hs) as Hmax. pose proof modulus_eq as Hmod.
  pose proof (shape_start_pos _ _ Hs) as Hsp.
  pose proof (shape_start_al _ _ Hs) as Hsa.
  pose proof (shape_chain_blocks _ _ Hs) as Hc.
  pose proof (chain_NoDup_bptr _ _ _ Hc) as Hnd.
  destruct (tag_safe _ _ _ _ Hc Hb) as (S1 & S2).
  assert (Hincl : forall d, In d (l1 ++ b :: l2) -> In d (l1 ++ b :: l2)) by auto.
  destruct (free_list_facts _ _ _ _ Hs Hp Hincl Hnd) as (Hnd' & _ & Hl & _).
  assert (Hq : In (bptr b) fl).
  { apply (Permutation_in _ (Permutation_sym Hp)), In_frees. exists b.
    split; [apply in_elt | split; [exact Hfree | reflexivity]]. }
  assert (Hp' : Permutation (remove Z.eq_dec (bptr b) fl) (frees (l1 ++ l2))).
  { rewrite frees_app. apply Permutation_remove_middle; [exact Hnd' |].
    rewrite frees_app, frees_cons, Hfree in Hp. exact Hp. }
  unfold place, HDRP, WSIZE, DSIZE, MINIMUM, bptr, bftr in *.
  apply wp_bind, (wp_GET_SIZE_tag b); try lia.
  { rewrite <- Hbt1. f_equal. lia. }
  { apply valid_intro; lia. }
  rewrite (wrap_small (bsize b - asz)) by lia.
  assert (Egeb : (bsize b - asz >=? 16) = false).
  { rewrite Z.geb_leb. apply Z.leb_gt. lia. }
  rewrite Egeb.
  set (b1 := Blk (bhdr b) (bsize b) true).
  assert (Etag1 : wrap (PACK (bsize b) 1) = tag b1) by (apply (PACK_tag _ true); lia).
  apply wp_bind, wp_PUT.
  { apply valid_intro; lia. }
  rewrite Etag1.
  apply wp_bind, (wp_FTRP_tag b1); st_simpl; try (simpl bsize; lia).
  { replace (bhdr b + 4 - 4) with (bhdr b) by lia. apply upd_same. }
  { apply valid_intro; st_simpl; lia. }
  apply wp_bind, wp_PUT.
  { simpl bsize. apply valid_intro; st_simpl; lia. }
  rewrite Etag1. simpl bsize.
  match goal with |- wp _ ?s _ => set (st2 := s) end.
  destruct (retag_step st st2 l1 [b] l2 fl (l1 ++ b :: l2) (bhdr b) (bsize b) true)
    as (Hs2 & Hfl2); try assumption.
  - discriminate.
  - simpl. repeat split; lia.
  - repeat split.
  - reflexivity.
  - unfold st2. st_simpl. repeat (apply upd_eq; [| lia | reflexivity]). reflexivity.
  - fold b1 in Hs2.
    apply (wp_remove_links st2 (l1 ++ b1 :: l2) fl); try assumption.
    + intros q Hq'. destruct (Hl q Hq') as (d & Hd & Hsz & ->).
      apply in_app_or in Hd. destruct Hd as [Hd | [<- | Hd]].
      * exists d. split; [apply in_or_app; left; exact Hd | split; [exact Hsz | reflexivity]].
      * exists b1. split; [apply in_elt | split; [exact Hsz | reflexivity]].
      * exists d. split; [apply in_or_app; right; right; exact Hd |].
        split; [exact Hsz | reflexivity].
    + intros st' Hg Em Hs' Hfl'. split; [apply (same_geo_trans _ st2); [repeat split | exact Hg] |].
      split; [exact Hs' |]. split; [exact Hfl' |].
      rewrite frees_app, frees_cons. simpl. rewrite <- frees_app. exact Hp'.
Qed.

(** ** Growing the heap *)

Lemma wp_mem_sbrk_ok incr st (Q : Z -> state -> Prop) :
  mem_brk st + incr <= mem_max_addr st ->
  Q (mem_brk st) (set_brk st (mem_brk st + incr)) -> wp (mem_sbrk incr) st Q.
Proof.
  intros H HQ. unfold wp, mem_sbrk. rewrite (proj2 (Z.leb_le _ _) H). exact HQ.
Qed.

Lemma wp_mem_sbrk_fail incr st (Q : Z -> state -> Prop) :
  mem_max_addr st < mem_brk st + incr ->
  Q (wrap (-1)) st -> wp (mem_sbrk incr) st Q.
Proof.
  intros H HQ. unfold wp, mem_sbrk. rewrite (proj2 (Z.leb_gt _ _) H). exact HQ.
Qed.

(** When memlib refuses, [extend_heap] returns null and changes nothing. *)
Lemma extend_heap_fail st words (Q : Z -> state -> Prop) :
  words mod 2 = 0 -> mem_max_addr st < mem_brk st + wrap (words * 4) ->
  Q NULL st -> wp (extend_heap words) st Q.
Proof.
  intros Hw Hmax HQ. unfold extend_heap, WSIZE.
  rewrite (proj2 (Z.eqb_eq _ _) Hw). cbn [negb].
  apply wp_bind, wp_mem_sbrk_fail; [exact Hmax |].
  rewrite Z.eqb_refl. apply wp_ret. exact HQ.
Qed.

(** When memlib grants the bytes, [extend_heap] lays a free block over them
    and hands it to [coalesce]. *)
Lemma extend_heap_reduce st bl fl words (Q : Z -> state -> Prop) :
  heap_rep st bl fl -> words mod 2 = 0 -> 16 <= 4 * words ->
  mem_brk st + 4 * words <= mem_max_addr st ->
  (forall st3,
      mem_start_brk st3 = mem_start_brk st -> mem_brk st3 = mem_brk st + 4 * words ->
      mem_max_addr st3 = mem_max_addr st -> output st3 = output st ->
      coalesce_pre st3 bl (Blk (mem_brk st - 4) (4 * words) false) [] fl ->
      wp (coalesce (bptr (Blk (mem_brk st - 4) (4 * words) false))) st3 Q) ->
  wp (extend_heap words) st Q.
Proof.
  intros Hrep Hw Hsz Hcap HQ. pose proof Hrep as (Hs & Hfl & Hp).
  pose proof (shape_max _ _ Hs) as Hmax. pose proof modulus_eq as Hmod.
  pose proof (shape_start_pos _ _ Hs) as Hsp.
  pose proof (shape_start_al _ _ Hs) as Hsa.
  destruct (shape_brk _ _ Hs) as (Hk1 & Hk2).
  pose proof (shape_chain _ _ Hs) as Hc.
  pose proof (shape_chain_blocks _ _ Hs) as Hcb.
  unfold extend_heap, HDRP, WSIZE, DSIZE.
  rewrite (proj2 (Z.eqb_eq _ _) Hw). cbn [negb].
  rewrite (wrap_small (words * 4)) by lia.
  replace (words * 4) with (4 * words) by lia.
  set (size := 4 * words) in *.
  apply wp_bind, wp_mem_sbrk_ok; [exact Hcap |].
  assert (Hne : mem_brk st <> wrap (-1)) by (change (wrap (-1)) with 4294967295; lia).
  rewrite (proj2 (Z.eqb_neq _ _) Hne).
  set (nbk := Blk (mem_brk st - 4) size false).
  assert (Etag : wrap (PACK size 0) = tag nbk) by (apply (PACK_tag _ false); lia).
  apply wp_bind, wp_PUT.
  { apply valid_intro; st_simpl; lia. }
  rewrite Etag.
  apply wp_bind, (wp_FTRP_tag nbk); st_simpl; try (simpl bsize; lia).
  { apply upd_same. }
  { apply valid_intro; st_simpl; lia. }
  apply wp_bind, wp_PUT.
  { simpl bsize. apply valid_intro; st_simpl; lia. }
  rewrite Etag. simpl bsize.
  apply wp_bind, (wp_NEXT_BLKP_tag nbk); st_simpl; try (simpl bsize; lia).
  { rewrite upd_other by lia. apply upd_same. }
  { apply valid_intro; st_simpl; lia. }
  apply wp_bind, wp_PUT.
  { simpl bsize. apply valid_intro; st_simpl; lia. }
  change (wrap (PACK 0 1)) with 1. simpl bsize.
  match goal with |- wp _ ?s _ => set (st3 := s) end.
  replace (coalesce (mem_brk st)) with (coalesce (bptr nbk))
    by (f_equal; unfold bptr; simpl; lia).
  apply (HQ st3); try reflexivity.
  assert (HL : links_in bl fl) by exact (rep_links_in _ _ _ Hrep).
  split; [| split; [reflexivity | split]].
  - assert (Epro : prologue st3 = prologue st) by reflexivity.
    assert (Ebrk : mem_brk st3 = mem_brk st + size) by reflexivity.
    assert (Estart : mem_start_brk st3 = mem_start_brk st) by reflexivity.
    assert (Emax : mem_max_addr st3 = mem_max_addr st) by reflexivity.
    assert (Emem : mem st3 = upd (upd (upd (mem st) (mem_brk st - 4) (tag nbk))
                                      (mem_brk st + size - 8) (tag nbk))
                                 (mem_brk st + size - 4) 1) by reflexivity.
    constructor; rewrite ?Epro, ?Ebrk, ?Estart, ?Emax, ?Emem.
    + exact Hsp.
    + exact Hsa.
    + lia.
    + exact (shape_heap_listp _ _ Hs).
    + exact (shape_epilogue _ _ Hs).
    + rewrite app_comm_cons.
      apply (proj2 (chain_app _ _ _ _)). exists (mem_brk st - 4). split; [exact Hc |].
      simpl. repeat split; lia.
    + rewrite app_comm_cons.
      apply Forall_app. split.
      * pose proof (shape_tags _ _ Hs) as Ht. rewrite Forall_forall in *.
        intros c Hcin. destruct (chain_In _ _ _ _ Hc Hcin) as (B1 & B2 & _ & B4 & _).
        unfold bend in B2. destruct (Ht c Hcin) as (T1 & T2).
        unfold tagged, bftr in *. rewrite !upd_other by lia. split; assumption.
      * constructor; [| constructor]. unfold tagged, bftr. simpl.
        replace (mem_brk st - 4 + size - 4) with (mem_brk st + size - 8) by lia.
        split; repeat (rewrite upd_other by lia); apply upd_same.
    + apply upd_same.
    + apply Forall_app. split; [exact (shape_min _ _ Hs) |].
      constructor; [simpl; lia | constructor].
  - unfold free_list, st3 in *. st_simpl.
    repeat (apply (dll_upd_safe bl); [| exact HL |
              apply (outside_safe _ _ _ _ Hcb); right; lia]).
    exact Hfl.
  - rewrite app_nil_r. exact Hp.
Qed.

(** ** First fit *)

Lemma chain_length a bl e : chain a bl e -> 8 * Z.of_nat (List.length bl) <= e - a.
Proof.
  revert a. induction bl as [| b r IH]; intros a; simpl chain.
  - intros ->. simpl. lia.
  - intros (_ & Hs & _ & Hc). apply IH in Hc. simpl List.length. lia.
Qed.

Lemma frees_length bl : (List.length (frees bl) <= List.length bl)%nat.
Proof.
  unfold frees. rewrite List.length_map. apply filter_length_le.
Qed.

(** The budget of iterations covers the free list and the heap. *)
Lemma budget_blocks st bl : heap_shape st bl -> (List.length bl + 1 < budget st)%nat.
Proof.
  intros Hs. pose proof (chain_length _ _ _ (shape_chain_blocks _ _ Hs)) as H.
  destruct (shape_brk _ _ Hs) as (Hk & _). unfold budget. lia.
Qed.

Lemma budget_free_list st bl fl : heap_rep st bl fl -> (List.length fl + 1 < budget st)%nat.
Proof.
  intros (Hs & _ & Hp). pose proof (budget_blocks _ _ Hs).
  pose proof (Permutation_length Hp). pose proof (frees_length bl). lia.
Qed.

Lemma find_fit_loop_spec st asz fuel fl prev p (Q : Z -> state -> Prop) :
  dll (mem st) prev p fl ->
  (forall q, In q fl -> q <> 0 /\ valid st (q - 4) = true /\ valid st (q + 4) = true) ->
  (List.length fl < fuel)%nat ->
  Q (first_fit st asz fl) st -> wp (find_fit_loop fuel asz p) st Q.
Proof.
  revert fl prev p. induction fuel as [| fuel IH]; intros fl prev p Hd Hok Hlen HQ; [lia |].
  simpl find_fit_loop. destruct fl as [| c r].
  - simpl in Hd. subst p. exact HQ.
  - simpl in Hd. destruct Hd as (-> & _ & Hd).
    destruct (Hok c (or_introl eq_refl)) as (Hc0 & Hv1 & Hv2).
    unfold NULL. rewrite (proj2 (Z.eqb_neq _ _) Hc0).
    apply wp_bind, wp_GET_SIZE; [exact Hv1 |].
    unfold first_fit in HQ. simpl find in HQ. unfold fit_size at 1 in HQ.
    unfold HDRP, WSIZE in *.
    destruct (asz <=? Z.land (mem st (c - 4)) (wrap (Z.lnot 7))).
    + apply wp_ret. exact HQ.
    + unfold NEXT_FREE, WSIZE. apply wp_bind, wp_GET; [exact Hv2 |].
      apply (IH r c); [exact Hd | | simpl in Hlen; lia | exact HQ].
      intros q Hq. apply Hok. right. exact Hq.
Qed.

Lemma wp_find_fit st bl fl asz (Q : Z -> state -> Prop) :
  heap_rep st bl fl -> Q (first_fit st asz fl) st -> wp (find_fit asz) st Q.
Proof.
  intros Hrep HQ. pose proof Hrep as (Hs & Hfl & Hp).
  unfold find_fit. apply wp_bind, wp_gets. apply wp_bind, wp_gets.
  apply (find_fit_loop_spec st asz _ fl 0); [exact Hfl | | | exact HQ].
  - intros q Hq. destruct (rep_links_in _ _ _ Hrep q Hq) as (d & Hd & _ & ->).
    destruct (shape_block _ _ _ Hs Hd) as (H1 & H2 & H3 & H4 & _).
    pose proof (shape_start_pos _ _ Hs). unfold bptr.
    split; [lia |]. split; apply valid_intro; lia.
  - pose proof (budget_free_list _ _ _ Hrep). lia.
Qed.

Lemma fit_size_block st bl b :
  heap_shape st bl -> In b bl -> fit_size st (bptr b) = bsize b.
Proof.
  intros Hs Hb. destruct (shape_block _ _ _ Hs Hb) as (_ & _ & _ & H4 & H5 & H6 & (Ht & _)).
  unfold fit_size, HDRP, WSIZE, bptr. replace (bhdr b + 4 - 4) with (bhdr b) by lia.
  rewrite Ht. apply tag_size; lia.
Qed.

(** What first fit returns on a well-formed heap. *)
Lemma first_fit_cases st bl fl asz :
  heap_rep st bl fl ->
  (first_fit st asz fl = NULL /\
   forall b, In b bl -> balloc b = false -> bsize b < asz) \/
  (exists l1 b l2, bl = l1 ++ b :: l2 /\ balloc b = false /\
                   first_fit st asz fl = bptr b /\ asz <= bsize b).
Proof.
  intros Hrep. pose proof Hrep as (Hs & Hfl & Hp).
  unfold first_fit. destruct (find _ fl) as [q |] eqn:Ef.
  - right. apply find_some in Ef. destruct Ef as (Hq & Hle).
    apply (Permutation_in _ Hp), In_frees in Hq. destruct Hq as (b & Hb & Hfree & ->).
    rewrite (fit_size_block _ _ _ Hs Hb) in Hle.
    destruct (in_split _ _ Hb) as (l1 & l2 & ->).
    exists l1, b, l2. repeat split; try assumption. lia.
  - left. split; [reflexivity |]. intros b Hb Hfree.
    assert (Hq : In (bptr b) fl).
    { apply (Permutation_in _ (Permutation_sym Hp)), In_frees.
      exists b. repeat split; assumption. }
    pose proof (find_none _ _ Ef _ Hq) as Hn. simpl in Hn.
    rewrite (fit_size_block _ _ _ Hs Hb) in Hn. lia.
Qed.

(** ** Placement, whatever the remainder *)

Lemma In_allocated_around p l1 mid mid' l2 :
  In p (allocated (l1 ++ mid ++ l2)) ->
  (In p (allocated mid) -> In p (allocated mid')) ->
  In p (allocated (l1 ++ mid' ++ l2)).
Proof.
  rewrite !allocated_app, !in_app_iff. tauto.
Qed.

Lemma place_any st l1 b l2 fl asz :
  heap_rep st (l1 ++ b :: l2) fl -> balloc b = false ->
  16 <= asz -> asz mod 8 = 0 -> asz <= bsize b ->
  wp (place (bptr b) asz) st
     (fun _ st' =>
        same_geo st st' /\
        exists bl' fl',
          heap_rep st' bl' fl' /\
          (forall p, In p (allocated bl') <->
                     p = bptr b \/ In p (allocated (l1 ++ b :: l2))) /\
          exists b', In b' bl' /\ bptr b' = bptr b /\ balloc b' = true /\ asz <= bsize b').
Proof.
  intros Hrep Hfree Ha1 Ha2 Ha3.
  assert (Hal : forall b1 rest p,
             balloc b1 = true -> bptr b1 = bptr b ->
             (forall q, In q (allocated rest) <-> In q (allocated l2)) ->
             (In p (allocated (l1 ++ b1 :: rest)) <->
              p = bptr b \/ In p (allocated (l1 ++ b :: l2)))).
  { intros b1 rest p H1 H2 H3.
    rewrite !allocated_app, !in_app_iff, !allocated_cons, H1, Hfree. simpl.
    rewrite H2, H3. intuition auto. }
  destruct (Z_le_gt_dec 16 (bsize b - asz)) as [Hsp | Hsp].
  - eapply wp_mono; [apply place_split; eassumption |].
    intros _ st' (Hg & Hrep'). split; [exact Hg |].
    eexists _, _. split; [exact Hrep' |]. split.
    + intros p. apply Hal; [reflexivity | reflexivity |].
      intros q. rewrite allocated_cons. simpl. tauto.
    + exists (Blk (bhdr b) asz true). split; [apply in_elt |]. simpl.
      repeat split. lia.
  - eapply wp_mono; [apply place_whole; try eassumption; lia |].
    intros _ st' (Hg & Hrep'). split; [exact Hg |].
    eexists _, _. split; [exact Hrep' |]. split.
    + intros p. apply Hal; [reflexivity | reflexivity | tauto].
    + exists (Blk (bhdr b) (bsize b) true). split; [apply in_elt |]. simpl.
      repeat split. lia.
Qed.

(** ** Allocation *)

Lemma asize_small size : 0 < size <= 8 -> asize size = 16.
Proof.
  intros H. unfold asize, DSIZE, MINIMUM. rewrite (proj2 (Z.leb_le _ _)) by lia. reflexivity.
Qed.

(** Without wrap-around the adjusted size is the request plus 8, rounded
    up to a multiple of 8. *)
Lemma asize_large size :
  8 < size -> size + 15 < modulus -> asize size = 8 * ((size + 15) / 8).
Proof.
  intros H1 H2. pose proof modulus_eq as Hmod.
  unfold asize, DSIZE, MINIMUM. rewrite (proj2 (Z.leb_gt _ _)) by lia.
  rewrite (wrap_small (size + 8)) by lia.
  replace (size + 8 + (8 - 1)) with (size + 15) by lia.
  rewrite (wrap_small (size + 15)) by lia.
  apply wrap_small. lia.
Qed.

Lemma asize_facts size :
  0 < size -> size + 15 < modulus ->
  16 <= asize size /\ asize size mod 8 = 0 /\ size + 8 <= asize size /\
  asize size < modulus.
Proof.
  intros H1 H2. pose proof modulus_eq as Hmod.
  destruct (Z_le_gt_dec size 8) as [Hs | Hs].
  - rewrite asize_small by lia. lia.
  - rewrite asize_large by lia. lia.
Qed.

Lemma free_not_allocated a l1 b l2 e :
  chain a (l1 ++ b :: l2) e -> ~ In (bptr b) (allocated (l1 ++ l2)).
Proof.
  intros Hc Hin. apply In_allocated in Hin. destruct Hin as (d & Hd & _ & E).
  destruct (NoDup_map_remove bptr l1 b l2 (chain_NoDup_bptr _ _ _ Hc)) as (_ & Hn).
  apply (Hn d Hd). symmetry. exact E.
Qed.

(** [mm_malloc] on a well-formed heap: the heap stays well formed; the
    block returned, if any, was not allocated before, is allocated now and
    holds the request. *)
Lemma mm_malloc_spec st bl fl size :
  heap_rep st bl fl -> 0 < size -> size + 15 < modulus ->
  wp (mm_malloc size) st
     (fun r st' =>
        exists bl' fl',
          heap_rep st' bl' fl' /\
          ((r = NULL /\ forall p, In p (allocated bl') <-> In p (allocated bl)) \/
           (r <> NULL /\ ~ In r (allocated bl) /\
            (forall p, In p (allocated bl') <-> p = r \/ In p (allocated bl)) /\
            exists b', In b' bl' /\ bptr b' = r /\ balloc b' = true /\
                       size + 8 <= bsize b'))).
Proof.
  intros Hrep Hpos Hbig. pose proof Hrep as (Hs & Hfl & Hp).
  destruct (asize_facts size Hpos Hbig) as (A1 & A2 & A3 & A4).
  pose proof modulus_eq as Hmod.
  unfold mm_malloc. rewrite (proj2 (Z.eqb_neq size 0)) by lia.
  set (asz := asize size) in *. cbv zeta.
  apply wp_bind, (wp_find_fit st bl fl); [exact Hrep |].
  destruct (first_fit_cases st bl fl asz Hrep)
    as [(E0 & Hnone) | (l1 & b & l2 & Ebl & Hfree & Er & Hle)].
  - (* no fit: grow the heap *)
    rewrite E0. change (NULL =? NULL) with true. cbn [negb].
    set (ext := MAX asz CHUNKSIZE).
    assert (Hext : ext mod 8 = 0 /\ 4096 <= ext /\ asz <= ext /\ ext < modulus).
    { unfold ext, MAX, CHUNKSIZE. change (Z.shiftl 1 12) with 4096.
      destruct (asz >? 4096) eqn:E; [apply Z.gtb_lt in E | rewrite Z.gtb_ltb in E; apply Z.ltb_ge in E];
        lia. }
    destruct Hext as (X1 & X2 & X3 & X4).
    unfold WSIZE.
    assert (Ew : 4 * (ext / 4) = ext) by lia.
    destruct (Z_le_gt_dec (mem_brk st + ext) (mem_max_addr st)) as [Hcap | Hcap].
    + apply wp_bind, (extend_heap_reduce st bl fl); try assumption; try lia.
      intros st3 G1 G2 G3 G4 Hpre.
      eapply wp_mono; [apply (coalesce_any _ _ _ _ _ Hpre) |].
      intros r st4 (Hg4 & l1' & b' & l2' & fl' & Hrep4 & Er & Hfree' & Hsz & Hal).
      cbn [bsize] in Hsz. rewrite app_nil_r in Hal.
      pose proof Hrep4 as (Hs4 & _).
      assert (Hb' : In b' (l1' ++ b' :: l2')) by apply in_elt.
      pose proof (shape_link_ok _ _ _ Hs4 Hb') as (_ & _ & _ & Hr0).
      unfold NULL. rewrite Er. rewrite (proj2 (Z.eqb_neq (bptr b') 0)) by lia.
      apply wp_bind. eapply wp_mono.
      { apply (place_any st4 l1' b' l2' (bptr b' :: fl')); try assumption; try lia.
        rewrite <- Er. exact Hrep4. }
      intros _ st5 (Hg5 & bl5 & fl5 & Hrep5 & Hal5 & Hb5). apply wp_ret.
      exists bl5, fl5. split; [exact Hrep5 |]. right.
      split; [lia |]. split; [| split].
      * rewrite <- Hal. rewrite allocated_skip by exact Hfree'.
        apply (free_not_allocated _ _ _ _ _ (shape_chain_blocks _ _ Hs4)).
      * intros p. rewrite Hal5, Hal. tauto.
      * destruct Hb5 as (b5 & H1 & H2 & H3 & H4). exists b5. repeat split; try assumption. lia.
    + apply wp_bind, extend_heap_fail; try lia.
      { rewrite wrap_small by lia. lia. }
      change (NULL =? NULL) with true. apply wp_ret.
      exists bl, fl. split; [exact Hrep |]. left. split; [reflexivity | tauto].
  - (* a fit: place the request in it *)
    subst bl. pose proof (shape_link_ok _ _ _ Hs (in_elt b l1 l2)) as (_ & _ & _ & Hr0).
    rewrite Er. unfold NULL. rewrite (proj2 (Z.eqb_neq (bptr b) 0)) by lia. cbn [negb].
    apply wp_bind. eapply wp_mono.
    { apply (place_any st l1 b l2 fl); try assumption; try lia. }
    intros _ st5 (Hg5 & bl5 & fl5 & Hrep5 & Hal5 & Hb5). apply wp_ret.
    exists bl5, fl5. split; [exact Hrep5 |]. right.
    split; [lia |]. split; [| split].
    + rewrite allocated_skip by exact Hfree.
      apply (free_not_allocated _ _ _ _ _ (shape_chain_blocks _ _ Hs)).
    + exact Hal5.
    + destruct Hb5 as (b5 & H1 & H2 & H3 & H4). exists b5. repeat split; try assumption. lia.
Qed.

(** ** The heap checker on a well-formed heap *)

(** What the walks over the free list rely on. *)
Lemma free_list_blocks st bl fl q :
  heap_rep st bl fl -> In q fl ->
  exists b, In b bl /\ balloc b = false /\ q = bptr b.
Proof.
  intros (_ & _ & Hp) Hq. apply In_frees. exact (Permutation_in _ Hp Hq).
Qed.

Lemma correct_free_marked_loop_ok st bl fl0 fuel fl prev p :
  heap_rep st bl fl0 -> (forall q, In q fl -> In q fl0) ->
  dll (mem st) prev p fl -> (List.length fl < fuel)%nat ->
  wp (correct_free_marked_loop fuel p) st (fun r st' => r = 1 /\ st' = st).
Proof.
  intros Hrep. pose proof Hrep as (Hs & _).
  revert fl prev p. induction fuel as [| fuel IH]; intros fl prev p Hincl Hd Hlen; [lia |].
  simpl correct_free_marked_loop. destruct fl as [| c r].
  - simpl in Hd. subst p. split; reflexivity.
  - simpl in Hd. destruct Hd as (-> & _ & Hd).
    destruct (free_list_blocks _ _ _ _ Hrep (Hincl c (or_introl eq_refl)))
      as (b & Hb & Hfree & ->).
    destruct (shape_block _ _ _ Hs Hb) as (H1 & H2 & H3 & H4 & H5 & H6 & (Ht & _)).
    pose proof (shape_start_pos _ _ Hs).
    unfold NULL, HDRP, NEXT_FREE, WSIZE, bptr in *.
    rewrite (proj2 (Z.eqb_neq (bhdr b + 4) 0)) by lia.
    apply wp_bind, (wp_GET_ALLOC_tag b); try lia.
    { rewrite <- Ht. f_equal. lia. }
    { apply valid_intro; lia. }
    rewrite Hfree. change (Z.b2z false =? 0) with true. cbn [negb].
    apply wp_bind, wp_GET; [apply valid_intro; lia |].
    apply (IH r (bhdr b + 4)); [| exact Hd | simpl in Hlen; lia].
    intros q Hq. apply Hincl. right. exact Hq.
Qed.

Lemma correct_free_marked_ok st bl fl :
  heap_rep st bl fl -> wp correct_free_marked st (fun r st' => r = 1 /\ st' = st).
Proof.
  intros Hrep. unfold correct_free_marked. apply wp_bind, wp_gets. apply wp_bind, wp_gets.
  apply (correct_free_marked_loop_ok st bl fl _ fl 0); [exact Hrep | auto | apply Hrep |].
  pose proof (budget_free_list _ _ _ Hrep). lia.
Qed.

Lemma prologue_tagged st bl :
  heap_shape st bl ->
  mem st (mem_start_brk st + 4) = 9 /\ mem st (mem_start_brk st + 8) = 9.
Proof.
  intros Hs. pose proof (shape_tags _ _ Hs) as Ht.
  apply Forall_cons_iff in Ht. destruct Ht as ((T1 & T2) & _).
  unfold bftr in T2. simpl in T1, T2.
  replace (mem_start_brk st + 4 + 8 - 4) with (mem_start_brk st + 8) in T2 by lia.
  split; assumption.
Qed.

(** [check_coalescing] reads the prologue footer only. *)
Lemma check_coalescing_ok st bl :
  heap_shape st bl -> wp check_coalescing st (fun r st' => r = 1 /\ st' = st).
Proof.
  intros Hs. destruct (prologue_tagged _ _ Hs) as (_ & T).
  destruct (shape_brk _ _ Hs) as (Hk & _). pose proof (shape_start_al _ _ Hs).
  unfold check_coalescing. apply wp_bind, wp_gets.
  rewrite (shape_heap_listp _ _ Hs).
  apply wp_bind, wp_GET_ALLOC; [apply valid_intro; lia |].
  rewrite T. change (Z.land 9 1 =? 0) with false. split; reflexivity.
Qed.

(** [check_valid_heap] never enters its loop: the global [epilogue] still
    points to the first epilogue, before the first block. *)
Lemma check_valid_heap_ok st bl :
  heap_shape st bl -> wp check_valid_heap st (fun r st' => r = 1 /\ st' = st).
Proof.
  intros Hs. destruct (prologue_tagged _ _ Hs) as (T & _).
  destruct (shape_brk _ _ Hs) as (Hk & _). pose proof (shape_start_al _ _ Hs).
  pose proof (budget_blocks _ _ Hs) as Hb.
  unfold check_valid_heap. apply wp_bind, wp_gets. apply wp_bind, wp_gets.
  rewrite (shape_heap_listp _ _ Hs).
  apply wp_bind, wp_NEXT_BLKP; [apply valid_intro; lia |].
  replace (mem_start_brk st + 8 - 4) with (mem_start_brk st + 4) by lia. rewrite T.
  change (Z.land 9 (wrap (Z.lnot 7))) with 8.
  destruct (budget st) as [| n]; [lia |].
  simpl check_valid_heap_loop. apply wp_bind, wp_gets.
  rewrite (shape_epilogue _ _ Hs).
  rewrite (proj2 (Z.ltb_ge _ _)) by lia. split; reflexivity.
Qed.

Lemma check_consistency_loop_ok st bl fl0 fuel fl prev p :
  heap_rep st bl fl0 -> (forall q, In q fl -> In q fl0) ->
  dll (mem st) prev p fl -> (List.length fl < fuel)%nat ->
  wp (check_consistency_loop fuel p) st (fun r st' => r = 1 /\ st' = st).
Proof.
  intros Hrep. pose proof Hrep as (Hs & _).
  revert fl prev p. induction fuel as [| fuel IH]; intros fl prev p Hincl Hd Hlen; [lia |].
  simpl check_consistency_loop. destruct fl as [| c r].
  - simpl in Hd. subst p. split; reflexivity.
  - simpl in Hd. destruct Hd as (-> & _ & Hd).
    destruct (free_list_blocks _ _ _ _ Hrep (Hincl c (or_introl eq_refl)))
      as (b & Hb & Hfree & ->).
    destruct (shape_block _ _ _ Hs Hb) as (H1 & H2 & H3 & H4 & H5 & H6 & (Ht1 & Ht2)).
    pose proof (shape_start_pos _ _ Hs).
    unfold NULL, HDRP, NEXT_FREE, WSIZE, DSIZE, bptr, bftr in *.
    rewrite (proj2 (Z.eqb_neq (bhdr b + 4) 0)) by lia.
    apply wp_bind, (wp_GET_ALLOC_tag b); try lia.
    { rewrite <- Ht1. f_equal. lia. }
    { apply valid_intro; lia. }
    rewrite Hfree. change (Z.b2z false =? 0) with true. cbn [negb].
    apply wp_bind. apply wp_bind, (wp_FTRP_tag b); try lia.
    { rewrite <- Ht1. f_equal. lia. }
    { apply valid_intro; lia. }
    apply wp_bind, (wp_GET_ALLOC_tag b); try lia.
    { rewrite <- Ht2. f_equal. lia. }
    { apply valid_intro; lia. }
    rewrite Hfree. change (Z.b2z false =? 0) with true. cbn [negb]. apply wp_ret.
    apply wp_bind, wp_GET; [apply valid_intro; lia |].
    apply (IH r (bhdr b + 4)); [| exact Hd | simpl in Hlen; lia].
    intros q Hq. apply Hincl. right. exact Hq.
Qed.

Lemma check_consistency_ok st bl fl :
  heap_rep st bl fl -> wp check_consistency st (fun r st' => r = 1 /\ st' = st).
Proof.
  intros Hrep. unfold check_consistency. apply wp_bind, wp_gets. apply wp_bind, wp_gets.
  apply (check_consistency_loop_ok st bl fl _ fl 0); [exact Hrep | auto | apply Hrep |].
  pose proof (budget_free_list _ _ _ Hrep). lia.
Qed.

(** Every block of the heap, the prologue included. *)
Lemma shape_block_all st bl c :
  heap_shape st bl -> In c (prologue st :: bl) ->
  mem_start_brk st + 4 <= bhdr c /\ bhdr c + bsize c <= mem_brk st - 4 /\
  bhdr c mod 8 = 4 /\ 8 <= bsize c /\ bsize c mod 8 = 0 /\ bsize c + 1 < modulus /\
  tagged (mem st) c /\ (balloc c = false -> In c bl).
Proof.
  intros Hs Hin.
  pose proof (shape_chain _ _ Hs) as Hc.
  destruct (chain_In _ _ _ _ Hc Hin) as (H1 & H2 & H3 & H4 & H5).
  pose proof (shape_start_al _ _ Hs). pose proof (shape_start_pos _ _ Hs).
  pose proof (shape_max _ _ Hs).
  pose proof (shape_tags _ _ Hs) as Ht. rewrite Forall_forall in Ht.
  unfold bend in H2. repeat split; try lia; try apply (Ht c Hin).
  intros Hf. destruct Hin as [<- | Hin]; [discriminate | exact Hin].
Qed.

Lemma check_freelist_search_ok st bl fl0 bp fuel fl prev p :
  heap_rep st bl fl0 -> (forall q, In q fl -> In q fl0) ->
  dll (mem st) prev p fl -> In bp fl -> (List.length fl < fuel)%nat ->
  wp (check_freelist_search fuel bp p) st (fun r st' => r = true /\ st' = st).
Proof.
  intros Hrep. pose proof Hrep as (Hs & _).
  revert fl prev p. induction fuel as [| fuel IH]; intros fl prev p Hincl Hd Hbp Hlen; [lia |].
  simpl check_freelist_search. destruct fl as [| c r]; [contradiction |].
  simpl in Hd. destruct Hd as (-> & _ & Hd).
  destruct (Z.eqb_spec bp c) as [E | E]; [split; reflexivity |].
  destruct (free_list_blocks _ _ _ _ Hrep (Hincl c (or_introl eq_refl)))
    as (b & Hb & Hfree & ->).
  destruct (shape_block _ _ _ Hs Hb) as (H1 & H2 & H3 & H4 & H5 & H6 & (Ht1 & Ht2)).
  pose proof (shape_start_pos _ _ Hs).
  unfold HDRP, NEXT_FREE, WSIZE, bptr in *.
  apply wp_bind, (wp_GET_SIZE_tag b); try lia.
  { rewrite <- Ht1. f_equal. lia. }
  { apply valid_intro; lia. }
  rewrite (proj2 (Z.eqb_neq (bsize b) 0)) by lia.
  apply wp_bind, wp_GET; [apply valid_intro; lia |].
  apply (IH r (bhdr b + 4)); [| exact Hd | | simpl in Hlen; lia].
  - intros q Hq. apply Hincl. right. exact Hq.
  - destruct Hbp as [Hbp | Hbp]; [congruence | exact Hbp].
Qed.

Lemma check_freelist_loop_ok st bl fl fuel rest a :
  heap_rep st bl fl -> chain a rest (mem_brk st - 4) ->
  (forall c, In c rest -> In c (prologue st :: bl)) ->
  (List.length rest < fuel)%nat ->
  wp (check_freelist_loop fuel (a + 4)) st (fun r st' => r = 1 /\ st' = st).
Proof.
  intros Hrep. pose proof Hrep as (Hs & Hfl & Hp).
  pose proof (shape_start_pos _ _ Hs) as Hsp.
  pose proof (shape_start_al _ _ Hs) as Hsa.
  destruct (shape_brk _ _ Hs) as (Hk1 & Hk2).
  revert rest a. induction fuel as [| fuel IH]; intros rest a Hc Hincl Hlen; [lia |].
  simpl check_freelist_loop. unfold NULL, HDRP, WSIZE.
  destruct rest as [| c r].
  - simpl in Hc. subst a.
    rewrite (proj2 (Z.eqb_neq (mem_brk st - 4 + 4) 0)) by lia.
    apply wp_bind, wp_GET_SIZE; [apply valid_intro; lia |].
    replace (mem_brk st - 4 + 4 - 4) with (mem_brk st - 4) by lia.
    rewrite (shape_epi _ _ Hs). change (Z.land 1 (wrap (Z.lnot 7)) =? 0) with true.
    split; reflexivity.
  - simpl in Hc. destruct Hc as (<- & _ & _ & Hc).
    destruct (shape_block_all _ _ _ Hs (Hincl c (or_introl eq_refl)))
      as (H1 & H2 & H3 & H4 & H5 & H6 & (Ht1 & Ht2) & Hreal).
    rewrite (proj2 (Z.eqb_neq (bhdr c + 4) 0)) by lia.
    apply wp_bind, (wp_GET_SIZE_tag c); try lia.
    { rewrite <- Ht1. f_equal. lia. }
    { apply valid_intro; lia. }
    rewrite (proj2 (Z.eqb_neq (bsize c) 0)) by lia.
    apply wp_bind, (wp_GET_ALLOC_tag c); try lia.
    { rewrite <- Ht1. f_equal. lia. }
    { apply valid_intro; lia. }
    apply wp_bind.
    apply (wp_mono _ _ (fun found st' => found = true /\ st' = st)).
    + destruct (balloc c) eqn:Ea.
      * change (Z.b2z true =? 0) with false. split; reflexivity.
      * change (Z.b2z false =? 0) with true.
        apply wp_bind, wp_gets. apply wp_bind, wp_gets.
        apply (check_freelist_search_ok st bl fl _ _ fl 0); auto.
        -- apply (Permutation_in _ (Permutation_sym Hp)), In_frees.
           exists c. split; [apply Hreal; reflexivity | split; [exact Ea | reflexivity]].
        -- pose proof (budget_free_list _ _ _ Hrep). lia.
    + intros found st' (-> & ->).
      apply wp_bind, (wp_NEXT_BLKP_tag c); try lia.
      { rewrite <- Ht1. f_equal. lia. }
      { apply valid_intro; lia. }
      replace (bhdr c + 4 + bsize c) with (bhdr c + bsize c + 4) by lia.
      apply (IH r); [exact Hc | | simpl in Hlen; lia].
      intros d Hd. apply Hincl. right. exact Hd.
Qed.

Lemma check_freelist_ok st bl fl :
  heap_rep st bl fl -> wp check_freelist st (fun r st' => r = 1 /\ st' = st).
Proof.
  intros Hrep. pose proof Hrep as (Hs & _).
  unfold check_freelist. apply wp_bind, wp_gets. apply wp_bind, wp_gets.
  rewrite (shape_heap_listp _ _ Hs).
  replace (mem_start_brk st + 8) with (mem_start_brk st + 4 + 4) by lia.
  apply (check_freelist_loop_ok st bl fl _ (prologue st :: bl));
    [exact Hrep | exact (shape_chain _ _ Hs) | auto |].
  pose proof (budget_blocks _ _ Hs). simpl List.length. lia.
Qed.

Lemma check_overlap_loop_ok st bl fuel rest a :
  heap_shape st bl -> chain a rest (mem_brk st - 4) ->
  (forall c, In c rest -> In c (prologue st :: bl)) ->
  (List.length rest < fuel)%nat ->
  wp (check_overlap_loop fuel (a + 4)) st (fun r st' => r = 1 /\ st' = st).
Proof.
  intros Hs.
  pose proof (shape_start_pos _ _ Hs) as Hsp.
  pose proof (shape_start_al _ _ Hs) as Hsa.
  destruct (shape_brk _ _ Hs) as (Hk1 & Hk2).
  revert rest a. induction fuel as [| fuel IH]; intros rest a Hc Hincl Hlen; [lia |].
  simpl check_overlap_loop. unfold NULL, HDRP, WSIZE.
  destruct rest as [| c r].
  - simpl in Hc. subst a.
    rewrite (proj2 (Z.eqb_neq (mem_brk st - 4 + 4) 0)) by lia.
    apply wp_bind, wp_GET_SIZE; [apply valid_intro; lia |].
    replace (mem_brk st - 4 + 4 - 4) with (mem_brk st - 4) by lia.
    rewrite (shape_epi _ _ Hs). change (Z.land 1 (wrap (Z.lnot 7)) =? 0) with true.
    split; reflexivity.
  - simpl in Hc. destruct Hc as (<- & _ & _ & Hc).
    destruct (shape_block_all _ _ _ Hs (Hincl c (or_introl eq_refl)))
      as (H1 & H2 & H3 & H4 & H5 & H6 & (Ht1 & Ht2) & Hreal).
    rewrite (proj2 (Z.eqb_neq (bhdr c + 4) 0)) by lia.
    apply wp_bind, (wp_GET_SIZE_tag c); try lia.
    { rewrite <- Ht1. f_equal. lia. }
    { apply valid_intro; lia. }
    rewrite (proj2 (Z.eqb_neq (bsize c) 0)) by lia.
    apply wp_bind, (wp_GET_ALLOC_tag c); try lia.
    { rewrite <- Ht1. f_equal. lia. }
    { apply valid_intro; lia. }
    apply wp_bind.
    apply (wp_mono _ _ (fun bad st' => bad = false /\ st' = st)).
    + destruct (balloc c) eqn:Ea.
      * change (Z.b2z true =? 0) with false. cbn [negb].
        apply wp_bind, (wp_GET_SIZE_tag c); try lia.
        { rewrite <- Ht1. f_equal. lia. }
        { apply valid_intro; lia. }
        apply wp_bind, (wp_NEXT_BLKP_tag c); try lia.
        { rewrite <- Ht1. f_equal. lia. }
        { apply valid_intro; lia. }
        apply wp_ret. split; [| reflexivity].
        rewrite Z.geb_leb. apply Z.leb_gt. lia.
      * change (Z.b2z false =? 0) with true. split; reflexivity.
    + intros bad st' (-> & ->).
      apply wp_bind, (wp_NEXT_BLKP_tag c); try lia.
      { rewrite <- Ht1. f_equal. lia. }
      { apply valid_intro; lia. }
      replace (bhdr c + 4 + bsize c) with (bhdr c + bsize c + 4) by lia.
      apply (IH r); [exact Hc | | simpl in Hlen; lia].
      intros d Hd. apply Hincl. right. exact Hd.
Qed.

Lemma check_overlap_ok st bl :
  heap_shape st bl -> wp check_overlap st (fun r st' => r = 1 /\ st' = st).
Proof.
  intros Hs.
  unfold check_overlap. apply wp_bind, wp_gets. apply wp_bind, wp_gets.
  rewrite (shape_heap_listp _ _ Hs).
  replace (mem_start_brk st + 8) with (mem_start_brk st + 4 + 4) by lia.
  apply (check_overlap_loop_ok st bl _ (prologue st :: bl));
    [exact Hs | exact (shape_chain _ _ Hs) | auto |].
  pose proof (budget_blocks _ _ Hs). simpl List.length. lia.
Qed.

(** On a well-formed heap [mm_check] returns 1, prints nothing and leaves
    the state as it is. *)
Lemma mm_check_ok st bl fl :
  heap_rep st bl fl -> mm_check st = Some (1, st).
Proof.
  intros Hrep. pose proof Hrep as (Hs & _).
  assert (H : wp mm_check st (fun r st' => r = 1 /\ st' = st)).
  { unfold mm_check.
    apply wp_bind. eapply wp_mono; [exact (correct_free_marked_ok _ _ _ Hrep) |].
    intros r st' (-> & ->). change (1 =? 0) with false.
    apply wp_bind. eapply wp_mono; [exact (check_coalescing_ok _ _ Hs) |].
    intros r st' (-> & ->). change (1 =? 0) with false.
    apply wp_bind. eapply wp_mono; [exact (check_freelist_ok _ _ _ Hrep) |].
    intros r st' (-> & ->). change (1 =? 0) with false.
    apply wp_bind. eapply wp_mono; [exact (check_overlap_ok _ _ Hs) |].
    intros r st' (-> & ->). change (1 =? 0) with false.
    apply wp_bind. eapply wp_mono; [exact (check_valid_heap_ok _ _ Hs) |].
    intros r st' (-> & ->). change (1 =? 0) with false.
    apply wp_bind. eapply wp_mono; [exact (check_consistency_ok _ _ _ Hrep) |].
    intros r st' (-> & ->). change (1 =? 0) with false.
    split; reflexivity. }
  apply wp_run in H. destruct H as (r & st' & E & -> & ->). exact E.
Qed.

(** ** Initialisation *)

Lemma mm_init_ok st :
  fresh_heap st -> mem_start_brk st + 4112 <= mem_max_addr st ->
  wp mm_init st
     (fun r st' =>
        r = 0 /\
        heap_rep st' [Blk (mem_start_brk st + 12) 4096 false] [mem_start_brk st + 16]).
Proof.
  intros (Hsp & Hsa & Hbrk & Hmax) Hcap. pose proof modulus_eq as Hmod.
  unfold mm_init, WSIZE, DSIZE, CHUNKSIZE.
  apply wp_bind, wp_mem_sbrk_ok; [lia |].
  apply wp_bind, wp_modify.
  assert (Hne : mem_brk st <> wrap (-1)) by (change (wrap (-1)) with 4294967295; lia).
  rewrite (proj2 (Z.eqb_neq _ _) Hne).
  apply wp_bind, wp_PUT; [apply valid_intro; st_simpl; lia |].
  apply wp_bind, wp_PUT; [apply valid_intro; st_simpl; lia |].
  apply wp_bind, wp_PUT; [apply valid_intro; st_simpl; lia |].
  apply wp_bind, wp_PUT; [apply valid_intro; st_simpl; lia |].
  apply wp_bind, wp_modify. apply wp_bind, wp_modify. apply wp_bind, wp_modify.
  change (wrap 0) with 0. change (wrap (PACK 8 1)) with 9. change (wrap (PACK 0 1)) with 1.
  change (Z.shiftl 1 12 / 4) with 1024.
  match goal with |- wp _ ?s _ => set (st1 := s) end.
  assert (Estart : mem_start_brk st1 = mem_start_brk st) by reflexivity.
  assert (Ebrk : mem_brk st1 = mem_start_brk st + 16) by (unfold st1; st_simpl; lia).
  assert (Emax : mem_max_addr st1 = mem_max_addr st) by reflexivity.
  assert (Ehl : heap_listp st1 = mem_start_brk st + 8) by (unfold st1; st_simpl; lia).
  assert (Eep : epilogue st1 = mem_start_brk st + 12) by (unfold st1; st_simpl; lia).
  assert (Efl : free_listp st1 = 0) by reflexivity.
  assert (Em : mem st1 = upd (upd (upd (upd (mem st) (mem_start_brk st) 0)
                                        (mem_start_brk st + 4) 9)
                                   (mem_start_brk st + 8) 9)
                              (mem_start_brk st + 12) 1).
  { unfold st1. st_simpl. rewrite Hbrk.
    repeat (apply upd_eq; [| lia | reflexivity]). reflexivity. }
  assert (Hrep1 : heap_rep st1 [] []).
  { split; [| split].
    - constructor; unfold prologue; rewrite ?Estart, ?Ebrk, ?Emax, ?Ehl, ?Eep, ?Em;
        try assumption; try lia; try reflexivity.
      + simpl. repeat split; lia.
      + constructor; [| constructor]. unfold tagged, bftr, tag. simpl.
        replace (mem_start_brk st + 4 + 8 - 4) with (mem_start_brk st + 8) by lia.
        split; repeat (rewrite upd_other by lia); apply upd_same.
      + replace (mem_start_brk st + 16 - 4) with (mem_start_brk st + 12) by lia.
        apply upd_same.
      + constructor.
    - unfold free_list. rewrite Efl. reflexivity.
    - reflexivity. }
  clearbody st1.
  apply wp_bind, (extend_heap_reduce st1 [] []); try assumption; try lia.
  intros st3 G1 G2 G3 G4 Hpre.
  eapply wp_mono; [apply (coalesce_AA _ _ _ _ _ Hpre); reflexivity |].
  intros r st' (-> & Hg & Hrep).
  rewrite Ebrk in *. unfold bptr in *. simpl bhdr in *.
  replace (mem_start_brk st + 16 - 4) with (mem_start_brk st + 12) in * by lia.
  assert (Hr0 : mem_start_brk st + 12 + 4 <> NULL) by (unfold NULL; lia).
  rewrite (proj2 (Z.eqb_neq _ _) Hr0). apply wp_ret. split; [reflexivity |].
  replace (mem_start_brk st + 16) with (mem_start_brk st + 12 + 4) by lia.
  exact Hrep.
Qed.

Lemma mm_init_small st :
  fresh_heap st -> mem_max_addr st < mem_start_brk st + 4112 ->
  wp mm_init st (fun r _ => r = -1).
Proof.
  intros (Hsp & Hsa & Hbrk & Hmax) Hcap. pose proof modulus_eq as Hmod.
  unfold mm_init, WSIZE, DSIZE, CHUNKSIZE.
  destruct (Z_le_gt_dec (mem_brk st + 4 * 4) (mem_max_addr st)) as [Hfit | Hfit].
  - apply wp_bind, wp_mem_sbrk_ok; [lia |].
    apply wp_bind, wp_modify.
    assert (Hne : mem_brk st <> wrap (-1)) by (change (wrap (-1)) with 4294967295; lia).
    rewrite (proj2 (Z.eqb_neq _ _) Hne).
    apply wp_bind, wp_PUT; [apply valid_intro; st_simpl; lia |].
    apply wp_bind, wp_PUT; [apply valid_intro; st_simpl; lia |].
    apply wp_bind, wp_PUT; [apply valid_intro; st_simpl; lia |].
    apply wp_bind, wp_PUT; [apply valid_intro; st_simpl; lia |].
    apply wp_bind, wp_modify. apply wp_bind, wp_modify. apply wp_bind, wp_modify.
    change (Z.shiftl 1 12 / 4) with 1024.
    apply wp_bind, extend_heap_fail; [reflexivity | st_simpl | ].
    + change (wrap (1024 * 4)) with 4096. lia.
    + change (NULL =? NULL) with true. apply wp_ret. reflexivity.
  - apply wp_bind, wp_mem_sbrk_fail; [lia |].
    apply wp_bind, wp_modify. rewrite Z.eqb_refl. apply wp_ret. reflexivity.
Qed.

(** A successful [mm_init] leaves one free block of [CHUNKSIZE] bytes. *)
Lemma mm_init_success st0 st :
  fresh_heap st0 -> mm_init st0 = Some (0, st) ->
  heap_rep st [Blk (mem_start_brk st0 + 12) 4096 false] [mem_start_brk st0 + 16].
Proof.
  intros Hf E.
  destruct (Z_le_gt_dec (mem_start_brk st0 + 4112) (mem_max_addr st0)) as [Hcap | Hcap].
  - pose proof (mm_init_ok st0 Hf Hcap) as H. unfold wp in H. rewrite E in H. apply H.
  - pose proof (mm_init_small st0 Hf ltac:(lia)) as H. unfold wp in H. rewrite E in H.
    discriminate.
Qed.

(** ** The invariant of the reachable states *)

Lemma reachable_rep limit st live :
  limit + 15 < modulus -> reachable limit st live ->
  exists bl fl, heap_rep st bl fl /\ forall p, In p live -> In p (allocated bl).
Proof.
  intros Hlim Hr. induction Hr as [st0 st Hf E | st live size p st' Hr IH Hsz E
                                  | st live p st' Hr IH Hin E].
  - eexists _, _. split; [exact (mm_init_success _ _ Hf E) |]. intros p [].
  - destruct IH as (bl & fl & Hrep & Hlive).
    pose proof (mm_malloc_spec st bl fl size Hrep ltac:(lia) ltac:(lia)) as H.
    unfold wp in H. rewrite E in H.
    destruct H as (bl' & fl' & Hrep' & [(-> & Hal) | (Hp & Hnew & Hal & _)]).
    + exists bl', fl'. split; [exact Hrep' |]. change (NULL =? NULL) with true.
      intros q Hq. apply Hal, Hlive, Hq.
    + exists bl', fl'. split; [exact Hrep' |].
      rewrite (proj2 (Z.eqb_neq _ _) Hp).
      intros q [<- | Hq]; apply Hal; [left; reflexivity | right; apply Hlive, Hq].
  - destruct IH as (bl & fl & Hrep & Hlive).
    pose proof (Hlive p Hin) as Hp. apply In_allocated in Hp.
    destruct Hp as (b & Hb & Hal & ->).
    destruct (in_split _ _ Hb) as (l1 & l2 & ->).
    pose proof (mm_free_spec st l1 b l2 fl Hrep Hal) as H.
    unfold wp in H. rewrite E in H.
    destruct H as (_ & l1' & b' & l2' & fl' & Hrep' & _ & Hal').
    exists (l1' ++ b' :: l2'), (bptr b' :: fl'). split; [exact Hrep' |].
    intros q Hq. apply in_remove in Hq. destruct Hq as (Hq & Hne).
    rewrite Hal'. specialize (Hlive q Hq).
    rewrite allocated_app, in_app_iff in *. rewrite allocated_cons, Hal in Hlive.
    simpl in Hlive. intuition congruence.
Qed.

(** ** Allocation and release, step by step *)

Lemma first_fit_head st bl q fl asz b :
  heap_shape st bl -> In b bl -> q = bptr b -> asz <= bsize b ->
  first_fit st asz (q :: fl) = q.
Proof.
  intros Hs Hb -> Hle. unfold first_fit. simpl find.
  rewrite (fit_size_block _ _ _ Hs Hb).
  rewrite (proj2 (Z.leb_le _ _) Hle). reflexivity.
Qed.

Lemma remove_head (q : Z) (fl : list Z) :
  NoDup (q :: fl) -> remove Z.eq_dec q (q :: fl) = fl.
Proof. intros H. exact (remove_middle q [] fl H). Qed.

Lemma rep_NoDup st bl fl : heap_rep st bl fl -> NoDup fl.
Proof.
  intros (Hs & _ & Hp). apply (Permutation_NoDup (Permutation_sym Hp)).
  exact (chain_NoDup_frees _ _ _ (shape_chain_blocks _ _ Hs)).
Qed.

(** A request that fits the head of the free list with room to spare
    splits the head. *)
Lemma mm_malloc_head_split st l1 b l2 fl size :
  heap_rep st (l1 ++ b :: l2) (bptr b :: fl) -> balloc b = false ->
  0 < size -> size + 15 < modulus -> 16 <= bsize b - asize size ->
  wp (mm_malloc size) st
     (fun r st' =>
        r = bptr b /\
        heap_rep st'
          (l1 ++ Blk (bhdr b) (asize size) true ::
                 Blk (bhdr b + asize size) (bsize b - asize size) false :: l2)
          (bptr b + asize size :: fl)).
Proof.
  intros Hrep Hfree Hpos Hbig Hroom. pose proof Hrep as (Hs & _).
  destruct (asize_facts size Hpos Hbig) as (A1 & A2 & A3 & A4).
  assert (Hb : In b (l1 ++ b :: l2)) by apply in_elt.
  pose proof (shape_link_ok _ _ _ Hs Hb) as (_ & _ & _ & Hr0).
  unfold mm_malloc. rewrite (proj2 (Z.eqb_neq size 0)) by lia. cbv zeta.
  apply wp_bind, (wp_find_fit st _ _ _ _ Hrep).
  rewrite (first_fit_head st _ _ _ _ b Hs Hb eq_refl) by lia.
  unfold NULL. rewrite (proj2 (Z.eqb_neq (bptr b) 0)) by lia. cbn [negb].
  apply wp_bind. eapply wp_mono; [apply (place_split _ _ _ _ _ _ Hrep); assumption |].
  intros _ st' (_ & Hrep'). apply wp_ret. split; [reflexivity |].
  rewrite remove_head in Hrep' by exact (rep_NoDup _ _ _ Hrep). exact Hrep'.
Qed.

(** A request that fits the head of the free list with less than 16 bytes
    to spare takes the whole head. *)
Lemma mm_malloc_head_whole st l1 b l2 fl size :
  heap_rep st (l1 ++ b :: l2) (bptr b :: fl) -> balloc b = false ->
  0 < size -> size + 15 < modulus -> asize size <= bsize b -> bsize b - asize size < 16 ->
  wp (mm_malloc size) st
     (fun r st' =>
        r = bptr b /\ heap_rep st' (l1 ++ Blk (bhdr b) (bsize b) true :: l2) fl).
Proof.
  intros Hrep Hfree Hpos Hbig Hfit Hroom. pose proof Hrep as (Hs & _).
  destruct (asize_facts size Hpos Hbig) as (A1 & A2 & A3 & A4).
  assert (Hb : In b (l1 ++ b :: l2)) by apply in_elt.
  pose proof (shape_link_ok _ _ _ Hs Hb) as (_ & _ & _ & Hr0).
  unfold mm_malloc. rewrite (proj2 (Z.eqb_neq size 0)) by lia. cbv zeta.
  apply wp_bind, (wp_find_fit st _ _ _ _ Hrep).
  rewrite (first_fit_head st _ _ _ _ b Hs Hb eq_refl) by lia.
  unfold NULL. rewrite (proj2 (Z.eqb_neq (bptr b) 0)) by lia. cbn [negb].
  apply wp_bind. eapply wp_mono; [apply (place_whole _ _ _ _ _ _ Hrep); try assumption; lia |].
  intros _ st' (_ & Hrep'). apply wp_ret. split; [reflexivity |].
  rewrite remove_head in Hrep' by exact (rep_NoDup _ _ _ Hrep). exact Hrep'.
Qed.

(** Freeing a block between two allocated blocks pushes it on the list. *)
Lemma mm_free_between st l1 b l2 fl :
  heap_rep st (l1 ++ b :: l2) fl -> balloc b = true ->
  prev_alloc st l1 = true -> next_alloc l2 = true ->
  wp (mm_free (bptr b)) st
     (fun _ st' => heap_rep st' (l1 ++ Blk (bhdr b) (bsize b) false :: l2) (bptr b :: fl)).
Proof.
  intros Hrep Hal Hpa Hna. apply (mm_free_reduce st l1 b l2 fl); [exact Hrep | exact Hal |].
  intros st2 Hg Hpre.
  assert (Hpa2 : prev_alloc st2 l1 = true).
  { unfold prev_alloc in *. rewrite (prologue_geo _ _ Hg). exact Hpa. }
  eapply wp_mono; [exact (coalesce_AA _ _ _ _ _ Hpre Hpa2 Hna) |].
  intros r st' (_ & _ & Hrep'). exact Hrep'.
Qed.

(** * The claims *)

(** ** Traces of client calls *)

Lemma run_calls_reachable limit cs :
  forall st live st' live',
    reachable limit st live ->
    run_calls limit cs live st = Some (live', st') ->
    reachable limit st' live'.
Proof.
  induction cs as [| c cs IH]; intros st live st' live' Hr E.
  - simpl in E. unfold ret in E. injection E as <- <-. exact Hr.
  - destruct c as [size | n]; simpl in E.
    + destruct ((0 <? size) && (size <=? limit)) eqn:Ec; [| discriminate].
      apply andb_true_iff in Ec. destruct Ec as (E1 & E2).
      apply Z.ltb_lt in E1. apply Z.leb_le in E2.
      unfold bind in E. destruct (mm_malloc size st) as [[p st1] |] eqn:Em; [| discriminate].
      apply (IH _ _ _ _ (reach_malloc limit st live size p st1 Hr (conj E1 E2) Em) E).
    + destruct (nth_error live n) as [p |] eqn:En; [| discriminate].
      apply nth_error_In in En.
      unfold bind in E. destruct (mm_free p st) as [[[] st1] |] eqn:Em; [| discriminate].
      apply (IH _ _ _ _ (reach_free limit st live p st1 Hr En Em) E).
Qed.

Lemma verdict_sound limit cs st0 r st' :
  fresh_heap st0 -> verdict limit cs st0 = Some (r, st') ->
  exists st live, reachable limit st live /\ mm_check st = Some (r, st').
Proof.
  intros Hf E. unfold verdict, bind in E.
  destruct (mm_init st0) as [[r0 st1] |] eqn:Ei; [| discriminate].
  destruct (Z.eqb_spec r0 0) as [-> | _]; [| discriminate].
  destruct (run_calls limit cs [] st1) as [[live st2] |] eqn:Er; [| discriminate].
  exists st2, live. split; [| exact E].
  apply (run_calls_reachable limit cs st1 [] st2 live); [| exact Er].
  exact (reach_init limit st0 st1 Hf Ei).
Qed.

Lemma fresh_heap0 : fresh_heap heap0.
Proof. unfold fresh_heap, heap0, mem_init. simpl. repeat split; reflexivity. Qed.

Lemma mm_init_heap0 : mm_init heap0 = Some (0, heap1).
Proof.
  assert (H : wp mm_init heap0 (fun r _ => r = 0)).
  { eapply wp_mono; [apply (mm_init_ok heap0 fresh_heap0); vm_compute; discriminate |].
    intros r st' (E & _). exact E. }
  unfold heap1. unfold wp in H. destruct (mm_init heap0) as [[r st'] |]; [| contradiction].
  rewrite H. reflexivity.
Qed.

Lemma heap1_reachable limit : reachable limit heap1 [].
Proof. exact (reach_init limit heap0 heap1 fresh_heap0 mm_init_heap0). Qed.

(** ** C1: the heap checker on reachable states *)

(** C1, as amended: starting from a successful init, after every sequence
    of [mm_malloc] calls with sizes from 1 to [SIZE_MAX - 15] and of
    [mm_free] calls on live pointers, [mm_check] returns 1 (it prints nothing
    and changes nothing); moreover every further such call returns. *)
Theorem mm_check_reachable st live :
  reachable (SIZE_MAX - 15) st live ->
  mm_check st = Some (1, st) /\
  (forall size, 0 < size <= SIZE_MAX - 15 -> exists p st', mm_malloc size st = Some (p, st')) /\
  (forall p, In p live -> exists st', mm_free p st = Some (tt, st')).
Proof.
  intros Hr. pose proof modulus_eq as Hmod.
  destruct (reachable_rep (SIZE_MAX - 15) st live) as (bl & fl & Hrep & Hlive);
    [unfold SIZE_MAX; lia | exact Hr |].
  split; [exact (mm_check_ok _ _ _ Hrep) |]. split.
  - intros size Hsz.
    destruct (wp_run _ _ _ (mm_malloc_spec st bl fl size Hrep ltac:(lia)
                              ltac:(unfold SIZE_MAX in Hsz; lia)))
      as (p & st' & E & _).
    exists p, st'. exact E.
  - intros p Hp. specialize (Hlive p Hp). apply In_allocated in Hlive.
    destruct Hlive as (b & Hb & Hal & ->).
    destruct (in_split _ _ Hb) as (l1 & l2 & ->).
    destruct (wp_run _ _ _ (mm_free_spec st l1 b l2 fl Hrep Hal)) as ([] & st' & E & _).
    exists st'. exact E.
Qed.

Lemma mm_check_reachable_witness :
  reachable (SIZE_MAX - 15) heap1 [] /\ mm_check heap1 = Some (1, heap1).
Proof.
  split; [exact (heap1_reachable _) |].
  exact (proj1 (mm_check_reachable heap1 [] (heap1_reachable _))).
Defined.

(** C1 as stated fails: after [a = alloc(SIZE_MAX)], [b = alloc(4080)],
    [free(a)], [free(b)] on a fresh heap, [mm_check] returns 0.  The first
    request wraps to a block of 8 bytes, whose links overwrite its own footer
    and the header of [b]. *)
Lemma mm_check_after_wrapped_request :
  option_map fst (verdict SIZE_MAX [Malloc SIZE_MAX; Malloc 4080; Free 1; Free 0] heap0)
    = Some 0 /\
  ~ (forall st live, reachable SIZE_MAX st live -> exists st', mm_check st = Some (1, st')).
Proof.
  assert (E : option_map fst
                (verdict SIZE_MAX [Malloc SIZE_MAX; Malloc 4080; Free 1; Free 0] heap0)
              = Some 0) by (vm_compute; reflexivity).
  split; [exact E |]. intros H.
  destruct (verdict SIZE_MAX [Malloc SIZE_MAX; Malloc 4080; Free 1; Free 0] heap0)
    as [[r st'] |] eqn:Ev; [| discriminate].
  simpl in E. injection E as ->.
  destruct (verdict_sound _ _ _ _ _ fresh_heap0 Ev) as (st & live & Hr & Ec).
  destruct (H st live Hr) as (st'' & Ec'). congruence.
Qed.

(** ** C2: what [mm_realloc] copies *)

(** C2, at the failing input: after [p = alloc(10)] on a fresh heap and the
    bytes 1..10 written at [p], [q = realloc(p, 100)] holds the first nine
    bytes only.  [mm_realloc] takes the number of bytes to copy from the word
    at [p - SIZE_T_SIZE], here the footer [PACK(8, 1) = 9] of the prologue,
    not from the header of the block of [p]. *)
Theorem realloc_copy_nine_bytes :
  SIZE_T_SIZE = 8 /\
  option_map fst (realloc_copy [1; 2; 3; 4; 5; 6; 7; 8; 9; 10] heap0)
    = Some [1; 2; 3; 4; 5; 6; 7; 8; 9; 0].
Proof. split; vm_compute; reflexivity. Qed.

(** ** C3: what [check_coalescing] looks at *)

(** [check_coalescing] returns 1 on every heap whose prologue is intact,
    whatever its blocks are. *)
Lemma check_coalescing_any_blocks st bl :
  heap_shape st bl -> check_coalescing st = Some (1, st).
Proof.
  intros Hs. destruct (wp_run _ _ _ (check_coalescing_ok st bl Hs)) as (r & st' & E & -> & ->).
  exact E.
Qed.

(** C3, at the failing input: on a heap whose first two blocks are both
    free (a block whose header and footer were marked free without
    coalescing, followed by the free remainder of the heap),
    [check_coalescing] returns 1; the audit as specified returns 0. *)
Theorem check_coalescing_misses_free_pair :
  option_map fst (uncoalesced_heap heap0) = Some (1, 0).
Proof. vm_compute. reflexivity. Qed.

(** ** C7: [mm_realloc] with size 0 *)

(** C7, as amended: [mm_realloc(p, 0)] returns null and leaves the heap,
    the free list and the globals as they are; [p] is not freed. *)
Theorem mm_realloc_zero st p : mm_realloc p 0 st = Some (NULL, st).
Proof. reflexivity. Qed.

(** C7 as stated fails: after [p = alloc(16)] on a fresh heap,
    [realloc(p, 0)] returns null and the block of [p] is still marked
    allocated. *)
Lemma realloc_zero_keeps_block : option_map fst (realloc_zero heap0) = Some (NULL, 1).
Proof. vm_compute. reflexivity. Qed.

(** ** C8: [mm_free] of null or before initialisation *)

(** C8: [mm_free(p)] returns without changing the state when [p] is null
    or when [heap_listp] is null (the allocator is not initialised). *)
Theorem mm_free_noop st p :
  p = NULL \/ heap_listp st = NULL -> mm_free p st = Some (tt, st).
Proof.
  intros H. unfold mm_free, bind, gets.
  assert (E : (p =? NULL) || (heap_listp st =? NULL) = true).
  { apply orb_true_iff. destruct H as [H | H]; [left | right]; apply Z.eqb_eq; exact H. }
  rewrite E. reflexivity.
Qed.

Lemma mm_free_noop_witness :
  (65552 = NULL \/ heap_listp heap0 = NULL) /\ mm_free 65552 heap0 = Some (tt, heap0).
Proof.
  split; [right; reflexivity |].
  apply (mm_free_noop heap0 65552). right. reflexivity.
Defined.

(** ** C9: [mm_malloc] of size 0 *)

(** C9: [mm_malloc(0)] returns null and leaves the whole state, the extent
    of the heap included, as it is. *)
Theorem mm_malloc_zero st : mm_malloc 0 st = Some (NULL, st).
Proof. reflexivity. Qed.

(** ** C5 and C10: the adjusted size *)

Lemma ceil_div_8 x : ceil_div x 8 = (x + 7) / 8.
Proof. unfold ceil_div. f_equal. lia. Qed.

(** On a fresh heap a request whose adjusted size leaves room for a free
    remainder is served by a block of exactly the adjusted size. *)
Lemma mm_malloc_fresh st0 st s :
  fresh_heap st0 -> mm_init st0 = Some (0, st) ->
  0 < s -> s + 15 < modulus -> asize s <= 4080 ->
  exists p st', mm_malloc s st = Some (p, st') /\ mem st' (HDRP p) = PACK (asize s) 1.
Proof.
  intros Hf Ei Hpos Hbig Hsmall.
  pose proof (mm_init_success _ _ Hf Ei) as Hrep.
  destruct (asize_facts s Hpos Hbig) as (A1 & A2 & A3 & A4).
  set (b := Blk (mem_start_brk st0 + 12) 4096 false) in *.
  assert (E16 : mem_start_brk st0 + 16 = bptr b) by (unfold bptr; simpl; lia).
  rewrite E16 in Hrep.
  destruct (wp_run _ _ _ (mm_malloc_head_split st [] b [] [] s Hrep eq_refl Hpos Hbig
                            ltac:(unfold b; cbn [bsize]; lia)))
    as (p & st' & E & -> & Hrep').
  exists (bptr b), st'. split; [exact E |].
  destruct Hrep' as (Hs' & _). pose proof (shape_tags _ _ Hs') as Ht.
  apply Forall_cons_iff in Ht. destruct Ht as (_ & Ht).
  apply Forall_cons_iff in Ht. destruct Ht as ((Ht & _) & _).
  unfold HDRP, WSIZE, bptr. replace (bhdr b + 4 - 4) with (bhdr b) by lia.
  simpl in Ht. simpl. rewrite Ht. unfold tag. simpl.
  exact (eq_sym (PACK_add (asize s) true A2)).
Qed.

(** C5, as amended: for every request [s] from 1 to [SIZE_MAX - 15] the
    adjusted size is 16 when [s <= 8] and [8 * ceil((s + 8) / 8)] otherwise;
    the adjusted sizes of 1, 8 and 9 are 16, 16 and 24; and on a fresh heap
    a request of at most 4072 bytes gets a block of the adjusted size. *)
Theorem asize_spec s :
  0 < s <= SIZE_MAX - 15 ->
  asize s = spec_asize s /\
  asize 1 = 16 /\ asize 8 = 16 /\ asize 9 = 24 /\
  (forall st0 st, fresh_heap st0 -> mm_init st0 = Some (0, st) -> s <= 4072 ->
     exists p st', mm_malloc s st = Some (p, st') /\ mem st' (HDRP p) = PACK (asize s) 1).
Proof.
  intros Hs. pose proof modulus_eq as Hmod. unfold SIZE_MAX in Hs.
  split; [| split; [reflexivity | split; [reflexivity | split; [reflexivity |]]]].
  - unfold spec_asize. destruct (Z.leb_spec s 8) as [Hle | Hgt].
    + apply asize_small. lia.
    + rewrite asize_large by lia. rewrite ceil_div_8. f_equal. f_equal. lia.
  - intros st0 st Hf Ei Hsmall.
    apply (mm_malloc_fresh st0 st s Hf Ei); try lia.
    destruct (Z_le_gt_dec s 8) as [Hle | Hgt].
    + rewrite asize_small by lia. lia.
    + rewrite asize_large by lia. lia.
Qed.

Lemma asize_spec_witness :
  0 < 9 <= SIZE_MAX - 15 /\ asize 9 = spec_asize 9.
Proof.
  split; [vm_compute; split; [reflexivity | discriminate] |].
  apply (asize_spec 9). vm_compute. split; [reflexivity | discriminate].
Defined.

(** C5 as stated fails at [s = SIZE_MAX]: the code computes 8, the formula
    of the specification is [SIZE_MAX + 9]. *)
Lemma asize_SIZE_MAX :
  0 < SIZE_MAX /\ asize SIZE_MAX = 8 /\ spec_asize SIZE_MAX = SIZE_MAX + 9 /\
  asize SIZE_MAX <> spec_asize SIZE_MAX.
Proof. repeat split; vm_compute; congruence. Qed.

(** C10: in [size_t] arithmetic the adjusted size of a request [s > 8] is
    [8 * floor((s + 15) / 8)] modulo [2^32]; it is smaller than [s] exactly
    for the 15 largest values of [size_t], where it is below the minimum
    block size; and a request of [SIZE_MAX] bytes on a fresh heap returns a
    non-null pointer to a block of 8 bytes, with no usable byte at all. *)
Theorem asize_wraps s :
  8 < s <= SIZE_MAX ->
  asize s = (8 * ((s + 15) / 8)) mod modulus /\
  (asize s < s <-> SIZE_MAX - 14 <= s) /\
  (SIZE_MAX - 14 <= s -> asize s < MINIMUM) /\
  exists p, option_map fst (wrapped_request heap0) = Some (p, 8) /\ p <> NULL.
Proof.
  intros Hs. pose proof modulus_eq as Hmod. unfold SIZE_MAX, MINIMUM in *.
  assert (Ea : asize s = (8 * ((s + 15) / 8)) mod modulus).
  { unfold asize, DSIZE, MINIMUM, wrap. rewrite (proj2 (Z.leb_gt _ _)) by lia.
    rewrite Z.add_mod_idemp_l by (rewrite Hmod; lia).
    replace (s + 8 + (8 - 1)) with (s + 15) by lia.
    rewrite Hmod. lia. }
  split; [exact Ea |]. rewrite Ea, Hmod.
  split; [| split].
  - lia.
  - lia.
  - exists 65552. split; [vm_compute; reflexivity | discriminate].
Qed.

Lemma asize_wraps_witness :
  8 < SIZE_MAX <= SIZE_MAX /\ asize SIZE_MAX = (8 * ((SIZE_MAX + 15) / 8)) mod modulus.
Proof.
  split; [vm_compute; split; [reflexivity | discriminate] |].
  apply (asize_wraps SIZE_MAX). vm_compute. split; [reflexivity | discriminate].
Defined.

(** ** C4: the four cases of [coalesce] *)

(** The tags of a free block of a well-formed heap, as [PACK] writes
    them. *)
Lemma rep_free_tags st l1 h total l2 fl :
  heap_rep st (l1 ++ Blk h total false :: l2) fl ->
  mem st h = PACK total 0 /\ mem st (h + total - 4) = PACK total 0.
Proof.
  intros (Hs & _).
  destruct (shape_block _ _ _ Hs (in_elt (Blk h total false) l1 l2))
    as (_ & _ & _ & _ & Hm & _ & (T1 & T2)).
  unfold bftr, tag in *. simpl in *.
  pose proof (PACK_add total false Hm) as E. simpl in E.
  rewrite E. split; assumption.
Qed.

(** C4: [coalesce] on a block [b] that is marked free and not yet on the
    free list, in an otherwise well-formed heap.  Both neighbours allocated:
    [b] is pushed on the free list and returned.  Only the next block [nb]
    free: [nb] leaves the list, the header of [b] and the footer of [nb] get
    the sum of the sizes, [b] is pushed and returned.  Only the previous block
    [pb] free: [pb] leaves the list, the header of [pb] and the footer of [b]
    get the sum, [pb] is pushed and returned.  Both free: both leave the list,
    the header of [pb] and the footer of [nb] get the sum of the three sizes,
    [pb] is pushed and returned. *)
Theorem coalesce_four_cases st l1 b l2 fl :
  coalesce_pre st l1 b l2 fl ->
  (prev_alloc st l1 = true -> next_alloc l2 = true ->
   exists st',
     coalesce (bptr b) st = Some (bptr b, st') /\
     heap_rep st' (l1 ++ b :: l2) (bptr b :: fl)) /\
  (forall nb l2', l2 = nb :: l2' -> prev_alloc st l1 = true -> balloc nb = false ->
   exists st',
     coalesce (bptr b) st = Some (bptr b, st') /\
     mem st' (bhdr b) = PACK (bsize b + bsize nb) 0 /\
     mem st' (bftr nb) = PACK (bsize b + bsize nb) 0 /\
     heap_rep st' (l1 ++ Blk (bhdr b) (bsize b + bsize nb) false :: l2')
              (bptr b :: remove Z.eq_dec (bptr nb) fl)) /\
  (forall l1' pb, l1 = l1' ++ [pb] -> balloc pb = false -> next_alloc l2 = true ->
   exists st',
     coalesce (bptr b) st = Some (bptr pb, st') /\
     mem st' (bhdr pb) = PACK (bsize pb + bsize b) 0 /\
     mem st' (bftr b) = PACK (bsize pb + bsize b) 0 /\
     heap_rep st' (l1' ++ Blk (bhdr pb) (bsize pb + bsize b) false :: l2)
              (bptr pb :: remove Z.eq_dec (bptr pb) fl)) /\
  (forall l1' pb nb l2',
     l1 = l1' ++ [pb] -> l2 = nb :: l2' -> balloc pb = false -> balloc nb = false ->
   exists st',
     coalesce (bptr b) st = Some (bptr pb, st') /\
     mem st' (bhdr pb) = PACK (bsize pb + bsize b + bsize nb) 0 /\
     mem st' (bftr nb) = PACK (bsize pb + bsize b + bsize nb) 0 /\
     heap_rep st' (l1' ++ Blk (bhdr pb) (bsize pb + bsize b + bsize nb) false :: l2')
              (bptr pb :: remove Z.eq_dec (bptr nb) (remove Z.eq_dec (bptr pb) fl))).
Proof.
  intros Hpre. pose proof Hpre as (Hs & _).
  pose proof (shape_chain_blocks _ _ Hs) as Hc.
  split; [| split; [| split]].
  - intros Hpa Hna.
    destruct (wp_run _ _ _ (coalesce_AA st l1 b l2 fl Hpre Hpa Hna))
      as (r & st' & E & -> & _ & Hrep).
    exists st'. split; assumption.
  - intros nb l2' -> Hpa Hna.
    destruct (wp_run _ _ _ (coalesce_AF st l1 b nb l2' fl Hpre Hpa Hna))
      as (r & st' & E & -> & _ & Hrep).
    exists st'. split; [exact E |].
    destruct (rep_free_tags _ _ _ _ _ _ Hrep) as (T1 & T2).
    apply chain_split in Hc. destruct Hc as (_ & _ & _ & Hc).
    simpl in Hc. destruct Hc as (Hnh & _). unfold bend in Hnh.
    split; [exact T1 |]. split; [| exact Hrep].
    unfold bftr. rewrite Hnh, <- T2. f_equal. lia.
  - intros l1' pb -> Hpa Hna.
    destruct (wp_run _ _ _ (coalesce_FA st l1' pb b l2 fl Hpre Hpa Hna))
      as (r & st' & E & -> & _ & Hrep).
    exists st'. split; [exact E |].
    destruct (rep_free_tags _ _ _ _ _ _ Hrep) as (T1 & T2).
    rewrite <- app_assoc in Hc. simpl in Hc.
    apply chain_split in Hc. destruct Hc as (_ & _ & _ & Hc).
    simpl in Hc. destruct Hc as (Hbh & _). unfold bend in Hbh.
    split; [exact T1 |]. split; [| exact Hrep].
    unfold bftr. rewrite Hbh, <- T2. f_equal. lia.
  - intros l1' pb nb l2' -> -> Hpa Hna.
    destruct (wp_run _ _ _ (coalesce_FF st l1' pb b nb l2' fl Hpre Hpa Hna))
      as (r & st' & E & -> & _ & Hrep).
    exists st'. split; [exact E |].
    destruct (rep_free_tags _ _ _ _ _ _ Hrep) as (T1 & T2).
    rewrite <- app_assoc in Hc. simpl in Hc.
    apply chain_split in Hc. destruct Hc as (_ & _ & _ & Hc).
    simpl in Hc. destruct Hc as (Hbh & _ & _ & Hnh & _). unfold bend in Hbh.
    split; [exact T1 |]. split; [| exact Hrep].
    unfold bftr. rewrite Hnh. unfold bend. rewrite <- T2. f_equal. lia.
Qed.

Lemma heapw_pre : coalesce_pre heapw [] blockw [] [].
Proof.
  split; [| split; [reflexivity | split; [reflexivity | apply perm_nil]]].
  constructor.
  - reflexivity.
  - reflexivity.
  - split; [discriminate | reflexivity].
  - reflexivity.
  - reflexivity.
  - simpl. repeat split; try reflexivity; discriminate.
  - repeat constructor.
  - reflexivity.
  - repeat constructor. discriminate.
Qed.

Lemma coalesce_four_cases_witness :
  coalesce_pre heapw [] blockw [] [] /\
  exists st',
    coalesce (bptr blockw) heapw = Some (bptr blockw, st') /\
    heap_rep st' [blockw] [bptr blockw].
Proof.
  split; [exact heapw_pre |].
  apply (proj1 (coalesce_four_cases heapw [] blockw [] [] heapw_pre)); reflexivity.
Defined.

(** ** C6: first fit starts at the head of the list *)

(** C6: after a successful init, [a = alloc(16)], [b = alloc(16)],
    [c = alloc(16)], [free(b)] leave [b] at the head of the free list, and
    the next [alloc(16)] returns [b]. *)
Theorem first_fit_selects_head st0 st :
  fresh_heap st0 -> mm_init st0 = Some (0, st) ->
  exists a b c st',
    first_fit_head_scenario st = Some ((a, b, c, b, b), st') /\ b <> NULL.
Proof.
  intros Hf Ei. pose proof modulus_eq as Hmod.
  pose proof (mm_init_success _ _ Hf Ei) as Hrep0.
  destruct Hf as (Hsp & _).
  set (s := mem_start_brk st0) in *.
  assert (Ea : asize 16 = 24) by reflexivity.
  (* a = alloc(16) *)
  set (b0 := Blk (s + 12) 4096 false) in *.
  replace (s + 16) with (bptr b0) in Hrep0 by (unfold bptr; simpl; lia).
  destruct (wp_run _ _ _ (mm_malloc_head_split st [] b0 [] [] 16 Hrep0 eq_refl
                            ltac:(lia) ltac:(lia) ltac:(rewrite Ea; simpl; lia)))
    as (a & st1 & E1 & -> & Hrep1).
  rewrite Ea in Hrep1. simpl in Hrep1. unfold bptr in Hrep1. simpl bhdr in Hrep1.
  (* b = alloc(16) *)
  set (ba := Blk (s + 12) 24 true) in *.
  set (b1 := Blk (s + 12 + 24) 4072 false) in *.
  replace (s + 12 + 4 + 24) with (bptr b1) in Hrep1 by (unfold bptr; simpl; lia).
  destruct (wp_run _ _ _ (mm_malloc_head_split st1 [ba] b1 [] [] 16 Hrep1 eq_refl
                            ltac:(lia) ltac:(lia) ltac:(rewrite Ea; simpl; lia)))
    as (b & st2 & E2 & -> & Hrep2).
  rewrite Ea in Hrep2. simpl in Hrep2. unfold bptr in Hrep2. simpl bhdr in Hrep2.
  (* c = alloc(16) *)
  set (bb := Blk (s + 12 + 24) 24 true) in *.
  set (b2 := Blk (s + 12 + 24 + 24) 4048 false) in *.
  replace (s + 12 + 24 + 4 + 24) with (bptr b2) in Hrep2 by (unfold bptr; simpl; lia).
  destruct (wp_run _ _ _ (mm_malloc_head_split st2 [ba; bb] b2 [] [] 16 Hrep2 eq_refl
                            ltac:(lia) ltac:(lia) ltac:(rewrite Ea; simpl; lia)))
    as (c & st3 & E3 & -> & Hrep3).
  rewrite Ea in Hrep3. simpl in Hrep3. unfold bptr in Hrep3. simpl bhdr in Hrep3.
  (* free(b) *)
  set (bc := Blk (s + 12 + 24 + 24) 24 true) in *.
  set (b3 := Blk (s + 12 + 24 + 24 + 24) 4024 false) in *.
  destruct (wp_run _ _ _ (mm_free_between st3 [ba] bb [bc; b3] _ Hrep3 eq_refl
                            eq_refl eq_refl))
    as ([] & st4 & E4 & Hrep4).
  simpl in Hrep4.
  (* the head of the free list *)
  assert (Eh : free_listp st4 = bptr bb).
  { destruct Hrep4 as (_ & Hd & _). apply dll_head in Hd. exact Hd. }
  (* alloc(16) *)
  set (bf := Blk (s + 12 + 24) 24 false) in *.
  assert (Ebf : bptr bb = bptr bf) by reflexivity.
  rewrite Ebf in Hrep4.
  destruct (wp_run _ _ _ (mm_malloc_head_whole st4 [ba] bf [bc; b3] _ 16 Hrep4 eq_refl
                            ltac:(lia) ltac:(lia) ltac:(rewrite Ea; simpl; lia)
                            ltac:(rewrite Ea; simpl; lia)))
    as (d & st5 & E5 & -> & Hrep5).
  exists (bptr b0), (bptr b1), (bptr b2), st5. split.
  - change (bptr bb) with (bptr b1) in E4, Eh.
    change (bptr bf) with (bptr b1) in E5.
    unfold first_fit_head_scenario, bind, gets, ret.
    rewrite E1, E2, E3, E4, E5, Eh. reflexivity.
  - unfold NULL, bptr. simpl. lia.
Qed.

Lemma first_fit_selects_head_witness :
  (fresh_heap heap0 /\ mm_init heap0 = Some (0, heap1)) /\
  exists a b c st',
    first_fit_head_scenario heap1 = Some ((a, b, c, b, b), st') /\ b <> NULL.
Proof.
  split; [split; [exact fresh_heap0 | exact mm_init_heap0] |].
  exact (first_fit_selects_head heap0 heap1 fresh_heap0 mm_init_heap0).
Defined.
